(** * planner-MCP: session multiplexer, credential gate, content validation
      and the activity gateway, embedded from the TypeScript sources.

    Layout of the development:
    - [Js]        JSON values and the few JavaScript primitives the code uses
                  (truthiness, [||], [length], [String.prototype.replace]).
    - [Zod]       the schema combinators of the validation library, as far as
                  src/mcp/server.ts uses them.
    - [Validation] the three body_data schemas and [validateBodyData].
    - [Jsonb]     the round trip of a JSON value through the jsonb column.
    - [Gateway]   the activities table and [activityQueries].
    - [Tools]     the [create_activity] / [list_activities] handlers.
    - [Auth]      the [validateMcpKey] middleware.
    - [Mux]       the session registry and the three /mcp routes.
    - [Sql], [Units], [Lessons], [Stats], [ReadTools], [Boundary]
                  the catalog queries, the read tools and the request log.
    Theorems follow the definitions. *)

From Stdlib Require Import ZArith List String Ascii Bool Lia.
From Stdlib Require Import Sorted Permutation.
From stdpp Require Import base gmap strings list.
Import ListNotations.

Local Open Scope string_scope.
Set Warnings "-register-all".

(* ===================================================================== *)
(** ** JavaScript values *)
(* ===================================================================== *)
Module Js.

(** A JSON value, as a tool argument arrives after [express.json()] and the
    protocol engine have decoded it.  An object is the list of its properties;
    a property is read by its first binding.  Numbers that the modelled code
    inspects are integers here ([order_by]); the schemas never look inside a
    number. *)
Inductive Json : Type :=
| JNull
| JBool (b : bool)
| JNum (n : Z)
| JStr (s : string)
| JArr (items : list Json)
| JObj (fields : list (string * Json)).

(** [o[key]] on the property list of an object. *)
Fixpoint lookup_field (key : string) (fields : list (string * Json)) : option Json :=
  match fields with
  | [] => None
  | (k, v) :: rest => if String.eqb k key then Some v else lookup_field key rest
  end.

(** [data[key]]: [None] is JavaScript's [undefined]. Reading a property of a
    non-object JSON value gives [undefined] as well (the code only does so
    behind a type check). *)
Definition get (key : string) (data : Json) : option Json :=
  match data with
  | JObj fields => lookup_field key fields
  | _ => None
  end.

(** [a === b] on values that may be [undefined].  Two arrays or objects read
    from different properties are different references. *)
Definition strict_eq (a b : option Json) : bool :=
  match a, b with
  | None, None => true
  | Some JNull, Some JNull => true
  | Some (JBool x), Some (JBool y) => Bool.eqb x y
  | Some (JNum x), Some (JNum y) => Z.eqb x y
  | Some (JStr x), Some (JStr y) => String.eqb x y
  | _, _ => false
  end.

(** Truthiness of the optional scalars the code tests with [!x], [x || y]
    and [if (x)]. *)
Definition truthy_string (s : option string) : bool :=
  match s with
  | Some s => negb (String.eqb s "")
  | None => false
  end.

Definition truthy_number (n : option Z) : bool :=
  match n with
  | Some n => negb (Z.eqb n 0)
  | None => false
  end.

Definition truthy_bool (b : option bool) : bool :=
  match b with
  | Some b => b
  | None => false
  end.

(** [x || null] for an optional string or number: the value when truthy,
    [null] ([None] in a nullable column) otherwise. *)
Definition string_or_null (s : option string) : option string :=
  if truthy_string s then s else None.

Definition number_or_null (n : option Z) : option Z :=
  if truthy_number n then n else None.

(** [x || false] for an optional boolean. *)
Definition bool_or_false (b : option bool) : bool := truthy_bool b.

(** [s.length]: the number of UTF-16 code units of a string.  A string is
    kept as the bytes of its UTF-8 encoding: a character encoded in one, two
    or three bytes is one code unit, a character encoded in four bytes is two
    (a surrogate pair).  A byte that belongs to no well-formed character
    counts as one unit. *)
Definition is_continuation (c : ascii) : bool :=
  Nat.leb 128 (nat_of_ascii c) && Nat.ltb (nat_of_ascii c) 192.

(** The number of continuation bytes that a first byte announces. *)
Definition following (c : ascii) : nat :=
  let n := nat_of_ascii c in
  if Nat.ltb n 192 then 0
  else if Nat.ltb n 224 then 1
  else if Nat.ltb n 240 then 2
  else if Nat.ltb n 248 then 3
  else 0.

Definition units (c : ascii) : nat :=
  let n := nat_of_ascii c in
  if Nat.leb 240 n && Nat.ltb n 248 then 2 else 1.

Fixpoint code_units (pending : nat) (s : string) : nat :=
  match s with
  | EmptyString => 0
  | String c rest =>
      match pending with
      | S p => if is_continuation c then code_units p rest
               else units c + code_units (following c) rest
      | O => units c + code_units (following c) rest
      end
  end.

Definition str_length (s : string) : nat := code_units 0 s.

(** [s.startsWith(p)]. *)
Fixpoint starts_with (p s : string) : bool :=
  match p, s with
  | EmptyString, _ => true
  | String a p', String b s' => if Ascii.eqb a b then starts_with p' s' else false
  | String _ _, EmptyString => false
  end.

(** [s.slice(n)]. *)
Fixpoint drop_chars (n : nat) (s : string) : string :=
  match n, s with
  | O, _ => s
  | S n', String _ s' => drop_chars n' s'
  | S _, EmptyString => EmptyString
  end.

(** [s.replace(pat, rep)] with a string pattern: the first occurrence of
    [pat], wherever it is, is replaced; the rest of [s] is kept. [rep] is used
    literally (the code passes the empty string). *)
Fixpoint replace (pat rep s : string) : string :=
  if starts_with pat s then rep ++ drop_chars (String.length pat) s
  else match s with
       | EmptyString => EmptyString
       | String c s' => String c (replace pat rep s')
       end.

End Js.
Import Js.

(* ===================================================================== *)
(** ** The schema combinators *)
(* ===================================================================== *)
Module Zod.

(** The validation library is a dependency of the server, not part of its
    sources.  This module embeds the part of its synchronous parsing that the
    schemas of src/mcp/server.ts use: a parse threads a status and collects
    issues; [safeParse] succeeds when no issue was raised. *)

(** The parse status the library threads through a parse: a failed length
    check makes the result [Dirty] and parsing goes on; a value of the wrong
    type makes it [Aborted]. *)
Inductive ParseStatus : Type := Valid | Dirty | Aborted.

(** An issue: its code, the path of the value it is about (property names
    and array indices from the root of the parsed data) and its message. *)
Inductive IssueCode : Type := InvalidType | TooSmall | TooBig | Custom.

Inductive PathItem : Type :=
| Key (name : string)
| Index (i : nat).

Record Issue : Type := mkIssue {
  code : IssueCode;
  path : list PathItem;
  message : string
}.

(** What a schema returns on an input: the status and the issues it raised,
    in the order raised. *)
Record ParseReturn : Type := mkParse { status : ParseStatus; issues : list Issue }.

(** A schema parses a value that may be [undefined]. *)
Definition Schema : Type := option Json -> ParseReturn.

Definition ok : ParseReturn := mkParse Valid [].

Definition merge_status (a b : ParseStatus) : ParseStatus :=
  match a, b with
  | Aborted, _ | _, Aborted => Aborted
  | Dirty, _ | _, Dirty => Dirty
  | Valid, Valid => Valid
  end.

(** Issues accumulate in one list per parse; statuses merge. *)
Definition merge (a b : ParseReturn) : ParseReturn :=
  mkParse (merge_status (status a) (status b)) (issues a ++ issues b).

Definition merge_all (rs : list ParseReturn) : ParseReturn :=
  fold_right merge ok rs.

(** The issues of a part of the data carry the path of the part. *)
Definition nest (item : PathItem) (i : Issue) : Issue :=
  {| code := code i; path := item :: path i; message := message i |}.

Definition under (item : PathItem) (r : ParseReturn) : ParseReturn :=
  mkParse (status r) (List.map (nest item) (issues r)).

(** The library's name of the type of a received value. *)
Definition type_name (v : option Json) : string :=
  match v with
  | None => "undefined"
  | Some JNull => "null"
  | Some (JBool _) => "boolean"
  | Some (JNum _) => "number"
  | Some (JStr _) => "string"
  | Some (JArr _) => "array"
  | Some (JObj _) => "object"
  end.

(** The default message of a type mismatch.  The default texts are those of
    version 3 of the library; the schemas of the server give their own message
    to every issue that is not a type mismatch, but one, and no general
    statement below depends on a default text. *)
Definition invalid_type_message (expected : string) (v : option Json) : string :=
  match v with
  | None => "Required"
  | Some _ => "Expected " ++ expected ++ ", received " ++ type_name v
  end.

Definition invalid_type (expected : string) (v : option Json) : ParseReturn :=
  mkParse Aborted [mkIssue InvalidType [] (invalid_type_message expected v)].

(** A check on a value of the right type: [Some issue] when it fails. *)
Definition Check (A : Type) : Type := A -> option Issue.

Definition run_checks {A : Type} (checks : list (Check A)) (x : A) : ParseReturn :=
  merge_all (map (fun c => match c x with
                           | Some issue => mkParse Dirty [issue]
                           | None => ok
                           end) checks).

(** The default message of [.min(1)] on a string, for the one check that is
    given none. *)
Definition too_small_1_message : string :=
  "String must contain at least 1 character(s)".

(** [.min(n, msg)] and [.max(n, msg)] on a string: the bound is on the
    [length] of the string. *)
Definition min_length (n : nat) (msg : string) : Check string :=
  fun s => if Nat.ltb (str_length s) n then Some (mkIssue TooSmall [] msg) else None.

Definition max_length (n : nat) (msg : string) : Check string :=
  fun s => if Nat.ltb n (str_length s) then Some (mkIssue TooBig [] msg) else None.

(** [.min(n, msg)] and [.max(n, msg)] on an array. *)
Definition min_items (n : nat) (msg : string) : Check (list Json) :=
  fun l => if Nat.ltb (List.length l) n then Some (mkIssue TooSmall [] msg) else None.

Definition max_items (n : nat) (msg : string) : Check (list Json) :=
  fun l => if Nat.ltb n (List.length l) then Some (mkIssue TooBig [] msg) else None.

(** [z.string()] followed by its checks. *)
Definition z_string (checks : list (Check string)) : Schema :=
  fun v => match v with
           | Some (JStr s) => run_checks checks s
           | _ => invalid_type "string" v
           end.

(** [.nullable()] and [.optional()]. *)
Definition nullable (inner : Schema) : Schema :=
  fun v => match v with
           | Some JNull => ok
           | _ => inner v
           end.

Definition optional (inner : Schema) : Schema :=
  fun v => match v with
           | None => ok
           | _ => inner v
           end.

(** The items of an array, each parsed under its index, from index [i] on. *)
Fixpoint parse_items (elem : Schema) (i : nat) (items : list Json) : list ParseReturn :=
  match items with
  | [] => []
  | x :: rest => under (Index i) (elem (Some x)) :: parse_items elem (S i) rest
  end.

(** [z.array(elem)] followed by its length checks; the length issues are
    raised before the elements are parsed. *)
Definition z_array (elem : Schema) (checks : list (Check (list Json))) : Schema :=
  fun v => match v with
           | Some (JArr items) =>
               merge (run_checks checks items) (merge_all (parse_items elem 0 items))
           | _ => invalid_type "array" v
           end.

(** [z.object(shape)]: every key of the shape is parsed, in the order of the
    shape, on the property of that name.  Keys outside the shape raise no
    issue, whether the object strips them or passes them through. *)
Definition z_object (shape : list (string * Schema)) : Schema :=
  fun v => match v with
           | Some (JObj fields) =>
               merge_all (map (fun ks => under (Key (fst ks))
                                           (snd ks (lookup_field (fst ks) fields)))
                              shape)
           | _ => invalid_type "object" v
           end.

(** [.passthrough()] changes the parsed output only, never the issues. *)
Definition passthrough (inner : Schema) : Schema := inner.

(** [.refine(check, { message })]: the check runs on the parsed data unless
    the inner parse aborted; its issue is about the refined value itself. *)
Definition refine (inner : Schema) (check : Json -> bool) (msg : string) : Schema :=
  fun v => let r := inner v in
           match status r, v with
           | Aborted, _ => r
           | _, Some data =>
               if check data then r else merge r (mkParse Dirty [mkIssue Custom [] msg])
           | _, None => r
           end.

(** [schema.safeParse(data)]: success exactly when the status is [Valid];
    the error carries the issues otherwise. *)
Inductive SafeParseResult : Type :=
| ParseSuccess
| ParseError (error_issues : list Issue).

Definition safeParse (schema : Schema) (data : Json) : SafeParseResult :=
  let r := schema (Some data) in
  match status r with
  | Valid => ParseSuccess
  | _ => ParseError (issues r)
  end.

End Zod.
Import Zod.

(* ===================================================================== *)
(** ** src/mcp/server.ts: body_data validation *)
(* ===================================================================== *)
Module Validation.

Definition McqOptionSchema : Schema :=
  z_object
    [ ("id", z_string [min_length 1 "Option id is required"]);
      ("text", z_string [max_length 500 "Option text must be 500 characters or fewer"]);
      ("imageUrl", optional (nullable (z_string []))) ].

(** The check of the [.refine] of [McqBodySchema]:
    [data.options.some((o) => o.id === data.correctOptionId)]. *)
Definition correct_option_among (data : Json) : bool :=
  match get "options" data with
  | Some (JArr os) =>
      existsb (fun o => strict_eq (get "id" o) (get "correctOptionId" data)) os
  | _ => false
  end.

Definition McqBodySchema : Schema :=
  refine
    (z_object
       [ ("question", z_string [min_length 1 "question is required"]);
         ("imageFile",
           optional (nullable (z_string [min_length 1 too_small_1_message])));
         ("imageUrl", optional (nullable (z_string [])));
         ("imageAlt", optional (nullable (z_string [])));
         ("options",
           z_array McqOptionSchema
             [ min_items 2 "At least 2 options are required";
               max_items 4 "At most 4 options are allowed" ]);
         ("correctOptionId", z_string [min_length 1 "correctOptionId is required"]) ])
    correct_option_among
    "correctOptionId must match the id of one of the provided options".

Definition ShortTextBodySchema : Schema :=
  passthrough
    (z_object
       [ ("question", z_string [min_length 1 "question is required"]);
         ("modelAnswer", z_string [min_length 1 "modelAnswer is required"]) ]).

Definition TextBodySchema : Schema :=
  z_object [ ("text", z_string [min_length 1 "text is required"]) ].

(** The result of [validateBodyData]:
    [{ success: true } | { success: false; error: string }]. *)
Inductive ValidationResult : Type :=
| Success
| Failure (error : string).

(** [result.error.issues.map((i) => i.message).join('; ')] *)
Definition join_issues (error_issues : list Issue) : string :=
  String.concat "; " (List.map message error_issues).

Definition validateBodyData (type : string) (bodyData : Json) : ValidationResult :=
  if String.eqb type "multiple-choice-question" then
    match safeParse McqBodySchema bodyData with
    | ParseError error_issues =>
        Failure ("Invalid body_data for multiple-choice-question: " ++ join_issues error_issues)
    | ParseSuccess => Success
    end
  else if String.eqb type "short-text-question" then
    match safeParse ShortTextBodySchema bodyData with
    | ParseError error_issues =>
        Failure ("Invalid body_data for short-text-question: " ++ join_issues error_issues)
    | ParseSuccess => Success
    end
  else if String.eqb type "text" then
    match safeParse TextBodySchema bodyData with
    | ParseError error_issues =>
        Failure ("Invalid body_data for text: " ++ join_issues error_issues)
    | ParseSuccess => Success
    end
  else Success.

End Validation.
Import Validation.

(* ===================================================================== *)
(** ** The jsonb column *)
(* ===================================================================== *)
Module Jsonb.

(** [body_data] is a jsonb column.  The gateway sends
    [JSON.stringify(value)], the column keeps the value in its own form, and
    the driver hands [JSON.parse] of the column back.  This module is that
    round trip on JSON values: a scalar comes back as it was sent, an array
    with its items in place, an object with its properties in another order.
    (A string the column refuses makes the statement raise: that is a reply
    of the store, [Raises].) *)

(** [JSON.stringify] writes every property of an object once.  In a property
    list a name is read by its first binding, so a later binding of the same
    name is no property of the object. *)
Fixpoint own_properties (seen : list string) (fields : list (string * Json))
  : list (string * Json) :=
  match fields with
  | [] => []
  | (k, v) :: rest =>
      if existsb (String.eqb k) seen then own_properties seen rest
      else (k, v) :: own_properties (k :: seen) rest
  end.

(** The column keeps the properties of an object ordered by the length of
    the name in bytes, and names of one length by their bytes. *)
Definition key_leb (a b : string) : bool :=
  match Nat.compare (String.length a) (String.length b) with
  | Lt => true
  | Eq => String.leb a b
  | Gt => false
  end.

Fixpoint insert_property (p : string * Json) (fields : list (string * Json))
  : list (string * Json) :=
  match fields with
  | [] => [p]
  | q :: rest =>
      if key_leb (fst p) (fst q) then p :: q :: rest else q :: insert_property p rest
  end.

Definition column_order (fields : list (string * Json)) : list (string * Json) :=
  fold_right insert_property [] fields.

(** A name is an array index when it is the decimal numeral, without
    superfluous zeros, of an integer below 2^32 - 1. *)
Definition is_digit (c : ascii) : bool :=
  Nat.leb 48 (nat_of_ascii c) && Nat.leb (nat_of_ascii c) 57.

Fixpoint numeral_value (acc : N) (s : string) : N :=
  match s with
  | EmptyString => acc
  | String c rest => numeral_value (10 * acc + (N_of_ascii c - 48)) rest
  end.

Definition is_array_index (k : string) : bool :=
  match k with
  | EmptyString => false
  | String c rest =>
      forallb is_digit (list_ascii_of_string k)
      && (negb (Ascii.eqb c "0"%char) || String.eqb rest "")
      && N.ltb (numeral_value 0 k) 4294967295
  end.

(** [JSON.parse] defines the properties in the order of the text, and a
    JavaScript object enumerates the names that are array indices first, in
    ascending order (the order the column has them in), then the other names
    in the order they were defined. *)
Definition enumeration_order (fields : list (string * Json)) : list (string * Json) :=
  (List.filter (fun p => is_array_index (fst p)) fields
   ++ List.filter (fun p => negb (is_array_index (fst p))) fields)%list.

(** The value read back from the column after [JSON.stringify(v)] was
    written to it. *)
Fixpoint stored (v : Json) : Json :=
  match v with
  | JArr items => JArr (List.map stored items)
  | JObj fields =>
      JObj (enumeration_order
              (column_order
                 (own_properties []
                    (List.map (fun p => (fst p, stored (snd p))) fields))))
  | _ => v
  end.

End Jsonb.

(* ===================================================================== *)
(** ** src/db/queries.ts: the activities table *)
(* ===================================================================== *)
Module Gateway.

(** A row of [activities] ([DbActivity]).  [None] in a nullable column is
    SQL NULL; [active] is nullable in the table, which is why the queries
    read it through [COALESCE(active, true)].  [body_data] is the value of the
    jsonb column as the driver decodes it. *)
Record DbActivity : Type := mkActivity {
  activity_id : string;
  lesson_id : string;
  title : string;
  type : string;
  body_data : Json;
  order_by : option Z;
  active : option bool;
  is_summative : bool;
  notes : option string
}.

(** [CreateActivityInput]; an optional field that is omitted is [None]. *)
Record CreateActivityInput : Type := mkInput {
  input_lesson_id : string;
  input_title : string;
  input_type : string;
  input_body_data : Json;
  input_order_by : option Z;
  input_is_summative : option bool;
  input_notes : option string
}.

(** What [db.query] does with a statement: it executes it, or it rejects
    the promise (no connection, a violated constraint). *)
Inductive DbReply : Type :=
| Executes
| Raises (message : string).

(** The result of an awaited gateway call. *)
Inductive Outcome (A : Type) : Type :=
| Returned (value : A)
| Thrown (message : string).
Arguments Returned {A} value.
Arguments Thrown {A} message.

(** [COALESCE(active, true) = true] *)
Definition coalesce_active (a : DbActivity) : bool :=
  match active a with
  | Some b => b
  | None => true
  end.

(** [ORDER BY order_by, activity_id]: ascending, NULLs last, ids compared as
    strings. *)
Definition order_by_compare (x y : option Z) : comparison :=
  match x, y with
  | Some a, Some b => Z.compare a b
  | Some _, None => Lt
  | None, Some _ => Gt
  | None, None => Eq
  end.

Definition row_leb (a b : DbActivity) : bool :=
  match order_by_compare (order_by a) (order_by b) with
  | Lt => true
  | Eq => String.leb (activity_id a) (activity_id b)
  | Gt => false
  end.

Fixpoint insert_sorted (a : DbActivity) (rows : list DbActivity) : list DbActivity :=
  match rows with
  | [] => [a]
  | b :: rest => if row_leb a b then a :: b :: rest else b :: insert_sorted a rest
  end.

Definition sort_rows (rows : list DbActivity) : list DbActivity :=
  fold_right insert_sorted [] rows.

(** The WHERE clause of [getAll]. *)
Definition selected (lessonId : string) (a : DbActivity) : bool :=
  String.eqb (lesson_id a) lessonId && coalesce_active a.

(** [activityQueries.getAll(lessonId)] *)
Definition getAll (db : DbReply) (lessonId : string) (table : list DbActivity)
  : Outcome (list DbActivity) :=
  match db with
  | Executes => Returned (sort_rows (List.filter (selected lessonId) table))
  | Raises message => Thrown message
  end.

(** [activityQueries.getById(activityId)]: [result.rows[0] || null] *)
Definition getById (db : DbReply) (activityId : string) (table : list DbActivity)
  : Outcome (option DbActivity) :=
  match db with
  | Executes =>
      Returned (List.find (fun a => String.eqb (activity_id a) activityId) table)
  | Raises message => Thrown message
  end.

(** The row that the INSERT of [create] adds; [generated_id] is the value the
    table's default gives [activity_id], and [body_data] goes through
    [JSON.stringify] into the jsonb column. *)
Definition inserted_row (generated_id : string) (input : CreateActivityInput) : DbActivity :=
  {| activity_id := generated_id;
     lesson_id := input_lesson_id input;
     title := input_title input;
     type := input_type input;
     body_data := Jsonb.stored (input_body_data input);
     order_by := number_or_null (input_order_by input);
     active := Some true;
     is_summative := bool_or_false (input_is_summative input);
     notes := string_or_null (input_notes input) |}.

(** [activityQueries.create(input)]: INSERT ... RETURNING *. *)
Definition create (db : DbReply) (generated_id : string) (input : CreateActivityInput)
    (table : list DbActivity) : list DbActivity * Outcome DbActivity :=
  match db with
  | Executes =>
      let row := inserted_row generated_id input in
      ((table ++ [row])%list, Returned row)
  | Raises message => (table, Thrown message)
  end.

(** One INSERT of the loop of [bulkCreate]: the reply of the store to that
    query and the id it generates. *)
Definition bulk_insert (lessonId : string)
    (acc : list DbActivity * Outcome (list DbActivity))
    (item : CreateActivityInput * (DbReply * string))
  : list DbActivity * Outcome (list DbActivity) :=
  match acc with
  | (table, Returned created_rows) =>
      match fst (snd item) with
      | Executes =>
          let row :=
            {| activity_id := snd (snd item);
               lesson_id := lessonId;
               title := input_title (fst item);
               type := input_type (fst item);
               body_data := Jsonb.stored (input_body_data (fst item));
               order_by := number_or_null (input_order_by (fst item));
               active := Some true;
               is_summative := bool_or_false (input_is_summative (fst item));
               notes := string_or_null (input_notes (fst item)) |} in
          ((table ++ [row])%list, Returned (created_rows ++ [row])%list)
      | Raises message => (table, Thrown message)
      end
  | (table, Thrown message) => (table, Thrown message)
  end.

(** [activityQueries.bulkCreate(lessonId, activities)]: one INSERT per
    activity, in order; the rows inserted before a query that throws stay.
    Each activity comes with the store's reply to its query. *)
Definition bulkCreate (lessonId : string)
    (activities : list (CreateActivityInput * (DbReply * string)))
    (table : list DbActivity) : list DbActivity * Outcome (list DbActivity) :=
  fold_left (bulk_insert lessonId) activities (table, Returned []).

(** [Partial<CreateActivityInput>]: the fields an update may carry. [update]
    never reads [lesson_id]. *)
Record ActivityUpdates : Type := mkUpdates {
  upd_lesson_id : option string;
  upd_title : option string;
  upd_type : option string;
  upd_body_data : option Json;
  upd_order_by : option Z;
  upd_is_summative : option bool;
  upd_notes : option string
}.

(** [fields.length === 0] *)
Definition no_fields (u : ActivityUpdates) : bool :=
  match upd_title u, upd_type u, upd_body_data u,
        upd_order_by u, upd_is_summative u, upd_notes u with
  | None, None, None, None, None, None => true
  | _, _, _, _, _, _ => false
  end.

(** The SET clause of [update] on one row of the given id: a field that is
    not [undefined] replaces the column as it is, [body_data] through
    [JSON.stringify]. *)
Definition apply_updates (activityId : string) (u : ActivityUpdates) (a : DbActivity)
  : DbActivity :=
  if String.eqb (activity_id a) activityId then
    {| activity_id := activity_id a;
       lesson_id := lesson_id a;
       title := match upd_title u with Some t => t | None => title a end;
       type := match upd_type u with Some t => t | None => type a end;
       body_data := match upd_body_data u with
                    | Some b => Jsonb.stored b
                    | None => body_data a
                    end;
       order_by := match upd_order_by u with Some n => Some n | None => order_by a end;
       active := active a;
       is_summative :=
         match upd_is_summative u with Some b => b | None => is_summative a end;
       notes := match upd_notes u with Some n => Some n | None => notes a end |}
  else a.

(** [activityQueries.update(activityId, updates)] *)
Definition update (db : DbReply) (activityId : string) (u : ActivityUpdates)
    (table : list DbActivity) : list DbActivity * Outcome (option DbActivity) :=
  if no_fields u then (table, getById db activityId table)
  else
    match db with
    | Executes =>
        let table' := List.map (apply_updates activityId u) table in
        (table',
         Returned (List.find (fun a => String.eqb (activity_id a) activityId) table'))
    | Raises message => (table, Thrown message)
    end.

(** [UPDATE activities SET active = false WHERE activity_id = $1] on one row. *)
Definition deactivate (activityId : string) (a : DbActivity) : DbActivity :=
  if String.eqb (activity_id a) activityId then
    {| activity_id := activity_id a;
       lesson_id := lesson_id a;
       title := title a;
       type := type a;
       body_data := body_data a;
       order_by := order_by a;
       active := Some false;
       is_summative := is_summative a;
       notes := notes a |}
  else a.

(** [result.rowCount] of that UPDATE. *)
Definition row_count (activityId : string) (table : list DbActivity) : nat :=
  List.length (List.filter (fun a => String.eqb (activity_id a) activityId) table).

(** [activityQueries.delete(activityId)]: returns [(result.rowCount ?? 0) > 0]. *)
Definition delete (db : DbReply) (activityId : string) (table : list DbActivity)
  : list DbActivity * Outcome bool :=
  match db with
  | Executes =>
      (List.map (deactivate activityId) table,
       Returned (Nat.ltb 0 (row_count activityId table)))
  | Raises message => (table, Thrown message)
  end.

End Gateway.

(* ===================================================================== *)
(** ** src/mcp/server.ts: the activity tools *)
(* ===================================================================== *)
Module Tools.
Import Gateway.

(** The arguments of [create_activity] after the protocol engine has checked
    them against the tool's input schema: [body_data] is a record of
    properties. *)
Record CreateActivityArgs : Type := mkArgs {
  arg_lesson_id : string;
  arg_title : string;
  arg_type : string;
  arg_body_data : list (string * Json);
  arg_order_by : option Z;
  arg_is_summative : option bool;
  arg_notes : option string
}.

(** The text of a tool result: a message, or [JSON.stringify] of rows, kept
    as the rows it encodes. *)
Inductive Content : Type :=
| Message (text : string)
| ActivityJson (row : DbActivity)
| ActivitiesJson (rows : list DbActivity).

Record ToolResult : Type := mkResult { content : Content; isError : bool }.

Definition error_result (text : string) : ToolResult :=
  {| content := Message text; isError := true |}.

(** The handler of [create_activity]. *)
Definition create_activity (db : DbReply) (generated_id : string)
    (args : CreateActivityArgs) (table : list DbActivity)
  : list DbActivity * ToolResult :=
  if String.eqb (arg_type args) "text" && truthy_bool (arg_is_summative args) then
    (table, error_result "text activities are non-scorable and cannot be summative")
  else
    match validateBodyData (arg_type args) (JObj (arg_body_data args)) with
    | Failure error => (table, error_result error)
    | Success =>
        let input :=
          {| input_lesson_id := arg_lesson_id args;
             input_title := arg_title args;
             input_type := arg_type args;
             input_body_data := JObj (arg_body_data args);
             input_order_by := arg_order_by args;
             input_is_summative := arg_is_summative args;
             input_notes := arg_notes args |} in
        match create db generated_id input table with
        | (table', Returned activity) =>
            (table', {| content := ActivityJson activity; isError := false |})
        | (table', Thrown message) =>
            (table', error_result ("Error creating activity: " ++ message))
        end
    end.

(** The handler of [list_activities]. *)
Definition list_activities (db : DbReply) (lessonId : string)
    (table : list DbActivity) : ToolResult :=
  match getAll db lessonId table with
  | Returned activities => {| content := ActivitiesJson activities; isError := false |}
  | Thrown message => error_result ("Error listing activities: " ++ message)
  end.

End Tools.

(* ===================================================================== *)
(** ** src/middleware/auth.ts: the credential gate *)
(* ===================================================================== *)
Module Auth.

(** The request headers the boundary reads; an absent header is [None]. *)
Record Headers : Type := mkHeaders {
  authorization : option string;
  x_mcp_key : option string;
  mcp_session_id : option string
}.

(** What the middleware does with a request: it answers with
    [res.status(status).json({ error, ... })] and returns, or it calls
    [next()]. *)
Inductive Verdict : Type :=
| Rejected (status : nat) (error : string)
| Next.

(** [authHeader?.replace('Bearer ', '') || mcpKey] *)
Definition providedKey (h : Headers) : option string :=
  let stripped := option_map (replace "Bearer " "") (authorization h) in
  if truthy_string stripped then stripped else x_mcp_key h.

(** [providedKey !== config.mcp.serviceKey] *)
Definition differs (key : option string) (serviceKey : string) : bool :=
  match key with
  | Some k => negb (String.eqb k serviceKey)
  | None => true
  end.

Definition validateMcpKey (serviceKey : string) (h : Headers) : Verdict :=
  let key := providedKey h in
  if negb (truthy_string key) then Rejected 401 "Unauthorized"
  else if differs key serviceKey then Rejected 403 "Forbidden"
  else Next.

End Auth.

(* ===================================================================== *)
(** ** src/index.ts: the session registry and the /mcp routes *)
(* ===================================================================== *)
Module Mux.
Import Auth.

(** A transport adapter: the object (by reference) and its [sessionId]
    property, which the protocol engine assigns during the handshake.  Two
    records with the same reference stand for the same object. *)
Record Transport : Type := mkTransport {
  transport_ref : nat;
  sessionId : option string
}.

(** A registry entry [{ server, transport }]. *)
Record Session : Type := mkSession {
  server : nat;
  transport : Transport
}.

(** The process state of the multiplexer: the [sessions] map and the number
    of server/transport pairs constructed so far (the next fresh reference). *)
Record State : Type := mkState {
  sessions : gmap string Session;
  created : nat
}.

(** How an awaited call into the protocol engine ends: it has written a
    response, or it throws; [sent] is the status already written when
    [res.headersSent] holds at the throw. *)
Inductive CallResult : Type :=
| Responds (status : nat)
| Throws (sent : option nat).

(** What the protocol engine does during one [transport.handleRequest]: the
    engine is a collaborator, so its choices are an input of the model.
    [initializes = Some id]: the handshake assigns [id] to the transport and
    fires [onsessioninitialized(id)].  [closes]: the transport closes and fires
    [onclose].  A throw of [server.connect] is a call that fires nothing and
    throws. *)
Record EngineCall : Type := mkCall {
  initializes : option string;
  closes : bool;
  result : CallResult
}.

(** [sessions.delete(id)] *)
Definition evict (id : string) (reg : gmap string Session) : gmap string Session :=
  delete id reg.

(** The [transport.onclose] callback:
    [const id = transport.sessionId; if (id) sessions.delete(id)]. *)
Definition onclose (t : Transport) (reg : gmap string Session) : gmap string Session :=
  match sessionId t with
  | Some id => if truthy_string (Some id) then evict id reg else reg
  | None => reg
  end.

(** The engine's assignment [transport.sessionId = id] during the handshake.
    A registry entry holds its transport by reference, so every entry that
    holds this transport carries [id] from then on. *)
Definition assign_sessionId (ref : nat) (id : string)
    (reg : gmap string Session) : gmap string Session :=
  (fun e => if Nat.eqb (transport_ref (transport e)) ref
            then {| server := server e;
                    transport := {| transport_ref := ref; sessionId := Some id |} |}
            else e) <$> reg.

(** The [onsessioninitialized] callback: [sessions.set(id, { server, transport })].
    The engine has assigned [id] to the transport by then ([assign_sessionId]),
    so the new entry holds the transport with that id. *)
Definition onsessioninitialized (id : string) (s : Session)
    (reg : gmap string Session) : gmap string Session :=
  <[id := {| server := server s;
             transport := {| transport_ref := transport_ref (transport s);
                             sessionId := Some id |} |}]> reg.

(** [await transport.handleRequest(req, res, ...)] on the transport of [s]:
    the callbacks the engine fires act on the registry. *)
Definition handleRequest (call : EngineCall) (s : Session)
    (reg : gmap string Session) : gmap string Session * CallResult :=
  let t := match initializes call with
           | Some id => {| transport_ref := transport_ref (transport s); sessionId := Some id |}
           | None => transport s
           end in
  let reg1 := match initializes call with
              | Some id =>
                  onsessioninitialized id s
                    (assign_sessionId (transport_ref (transport s)) id reg)
              | None => reg
              end in
  let reg2 := if closes call then onclose t reg1 else reg1 in
  (reg2, result call).

(** A response of the boundary: one the handler itself writes with
    [res.status(status).json({ error })], or the one the engine wrote. *)
Inductive Response : Type :=
| JsonError (status : nat) (error : string)
| FromEngine (status : nat).

Definition status_of (r : Response) : nat :=
  match r with
  | JsonError status _ => status
  | FromEngine status => status
  end.

(** The end of a handler's [try] block and its [catch]. *)
Definition respond (r : CallResult) : Response :=
  match r with
  | Responds status => FromEngine status
  | Throws (Some status) => FromEngine status
  | Throws None => JsonError 500 "Internal server error"
  end.

(** [sessionId && sessions.has(sessionId)], then [sessions.get(sessionId)!]. *)
Definition resolve (token : option string) (reg : gmap string Session)
  : option (string * Session) :=
  match token with
  | Some t => if truthy_string (Some t)
              then match reg !! t with
                   | Some s => Some (t, s)
                   | None => None
                   end
              else None
  | None => None
  end.

(** [app.post('/mcp', ...)] after the credential gate. *)
Definition post_mcp (token : option string) (call : EngineCall) (st : State)
  : State * Response :=
  match resolve token (sessions st) with
  | Some (_, session) =>
      let '(reg, r) := handleRequest call session (sessions st) in
      ({| sessions := reg; created := created st |}, respond r)
  | None =>
      (* New session: create transport, server, and connect *)
      let fresh := {| server := created st;
                      transport := {| transport_ref := created st; sessionId := None |} |} in
      let '(reg, r) := handleRequest call fresh (sessions st) in
      ({| sessions := reg; created := S (created st) |}, respond r)
  end.

(** [app.get('/mcp', ...)] after the credential gate. *)
Definition get_mcp (token : option string) (call : EngineCall) (st : State)
  : State * Response :=
  match resolve token (sessions st) with
  | None => (st, JsonError 400 "Invalid or missing session ID")
  | Some (_, session) =>
      let '(reg, r) := handleRequest call session (sessions st) in
      ({| sessions := reg; created := created st |}, respond r)
  end.

(** [app.delete('/mcp', ...)] after the credential gate; the
    [sessions.delete(sessionId)] after the awaited call is skipped when the
    call throws. *)
Definition delete_mcp (token : option string) (call : EngineCall) (st : State)
  : State * Response :=
  match resolve token (sessions st) with
  | None => (st, JsonError 400 "Invalid or missing session ID")
  | Some (t, session) =>
      let '(reg, r) := handleRequest call session (sessions st) in
      match r with
      | Responds _ => ({| sessions := evict t reg; created := created st |}, respond r)
      | Throws _ => ({| sessions := reg; created := created st |}, respond r)
      end
  end.

Inductive Method : Type := POST | GET | DELETE.

Definition handler (m : Method) : option string -> EngineCall -> State -> State * Response :=
  match m with
  | POST => post_mcp
  | GET => get_mcp
  | DELETE => delete_mcp
  end.

(** A request to /mcp: [validateMcpKey] first, the route's handler when it
    calls [next()]. *)
Definition mcp_route (serviceKey : string) (m : Method) (h : Headers)
    (call : EngineCall) (st : State) : State * Response :=
  match validateMcpKey serviceKey h with
  | Rejected status error => (st, JsonError status error)
  | Next => handler m (mcp_session_id h) call st
  end.

(** One turn of the loop of [shutdown]:
    [await session.server.close(); sessions.delete(id)].  [fires s] tells
    whether closing the server of [s] makes its transport fire [onclose].
    The map iterator is live: an entry evicted before its turn is skipped.
    A [close] that throws would end the loop; that is left out. *)
Definition shutdown_step (fires : Session -> bool)
    (reg : gmap string Session) (entry : string * Session) : gmap string Session :=
  match reg !! fst entry with
  | Some s => evict (fst entry) (if fires s then onclose (transport s) reg else reg)
  | None => reg
  end.

(** [for (const [id, session] of sessions) { ... }] *)
Definition shutdown (fires : Session -> bool) (reg : gmap string Session)
  : gmap string Session :=
  fold_left (shutdown_step fires) (map_to_list reg) reg.

End Mux.

(* ===================================================================== *)
(** ** SQL operators the catalog queries use *)
(* ===================================================================== *)
Module Sql.

(** [COALESCE(active, true) = true] on a nullable boolean column. *)
Definition coalesce_true (b : option bool) : bool :=
  match b with
  | Some b => b
  | None => true
  end.

(** [ORDER BY] over a total preorder given as a boolean test. *)
Fixpoint insert_by {A : Type} (leb : A -> A -> bool) (a : A) (rows : list A) : list A :=
  match rows with
  | [] => [a]
  | b :: rest => if leb a b then a :: b :: rest else b :: insert_by leb a rest
  end.

Definition sort_by {A : Type} (leb : A -> A -> bool) (rows : list A) : list A :=
  fold_right (insert_by leb) [] rows.

(** [LOWER] on ASCII text: the letters A to Z are folded, every other ASCII
    character is kept.  On text with other characters the store folds the
    letters its locale knows; that is not modelled, and the statements about
    the title search are about ASCII titles. *)
Definition lower_ascii (c : ascii) : ascii :=
  let n := nat_of_ascii c in
  if Nat.leb 65 n && Nat.leb n 90 then ascii_of_nat (n + 32) else c.

Fixpoint lower (s : string) : string :=
  match s with
  | EmptyString => EmptyString
  | String c s' => String (lower_ascii c) (lower s')
  end.

Definition percent : ascii := "%"%char.
Definition underscore : ascii := "_"%char.
Definition backslash : ascii := "\"%char.

(** [f] holds of some suffix of [s], the whole of [s] and the empty suffix
    included: what is left for the rest of a pattern after a [%]. *)
Fixpoint any_suffix (f : string -> bool) (s : string) : bool :=
  f s || match s with
         | EmptyString => false
         | String _ s' => any_suffix f s'
         end.

(** [s LIKE p]: [%] matches any run of characters, [_] any one character, a
    backslash takes the next pattern character literally.  A pattern that
    ends in a lone backslash matches nothing here (the store raises on it;
    the patterns [findByTitle] builds end in [%]). *)
Fixpoint like (p s : string) {struct p} : bool :=
  match p with
  | EmptyString => match s with EmptyString => true | String _ _ => false end
  | String c p' =>
      if Ascii.eqb c percent then any_suffix (like p') s
      else if Ascii.eqb c underscore then
        match s with
        | String _ s' => like p' s'
        | EmptyString => false
        end
      else if Ascii.eqb c backslash then
        match p' with
        | String e p'' =>
            match s with
            | String x s' => Ascii.eqb x e && like p'' s'
            | EmptyString => false
            end
        | EmptyString => false
        end
      else
        match s with
        | String x s' => Ascii.eqb x c && like p' s'
        | EmptyString => false
        end
  end.

(** No character of [s] is special in a LIKE pattern. *)
Fixpoint plain (s : string) : bool :=
  match s with
  | EmptyString => true
  | String c s' =>
      negb (Ascii.eqb c percent || Ascii.eqb c underscore || Ascii.eqb c backslash)
      && plain s'
  end.

End Sql.

(* ===================================================================== *)
(** ** src/db/queries.ts: units *)
(* ===================================================================== *)
Module Units.
Import Sql.

(** A row of [units] ([DbUnit]); [None] is SQL NULL. *)
Record DbUnit : Type := mkUnit {
  unit_id : string;
  title : string;
  subject : string;
  description : option string;
  year : option Z;
  active : option bool
}.

(** The [filters] argument of [unitQueries.getAll]; an omitted field is
    [None]. *)
Record Filters : Type := mkFilters {
  filter_subject : option string;
  filter_year : option Z;
  filter_active : option bool
}.

(** The WHERE clause [getAll] builds: [subject = $n] when
    [filters?.subject] is truthy, [year = $n] when [filters?.year] is not
    undefined, [active = $n] when [filters?.active] is not undefined and
    [COALESCE(active, true) = true] otherwise.  A comparison with a NULL
    column selects nothing. *)
Definition selected (filters : option Filters) (u : DbUnit) : bool :=
  let subject_filter := match filters with Some f => filter_subject f | None => None end in
  let year_filter := match filters with Some f => filter_year f | None => None end in
  let active_filter := match filters with Some f => filter_active f | None => None end in
  (if truthy_string subject_filter
   then match subject_filter with
        | Some s => String.eqb (subject u) s
        | None => true
        end
   else true)
  && match year_filter with
     | Some y => match year u with
                 | Some uy => Z.eqb uy y
                 | None => false
                 end
     | None => true
     end
  && match active_filter with
     | Some b => match active u with
                 | Some ub => Bool.eqb ub b
                 | None => false
                 end
     | None => coalesce_true (active u)
     end.

(** [ORDER BY subject, title] *)
Definition unit_leb (a b : DbUnit) : bool :=
  match String.compare (subject a) (subject b) with
  | Lt => true
  | Eq => String.leb (title a) (title b)
  | Gt => false
  end.

(** [unitQueries.getAll(filters)] *)
Definition getAll (db : Gateway.DbReply) (filters : option Filters)
    (table : list DbUnit) : Gateway.Outcome (list DbUnit) :=
  match db with
  | Gateway.Executes =>
      Gateway.Returned (sort_by unit_leb (List.filter (selected filters) table))
  | Gateway.Raises message => Gateway.Thrown message
  end.

(** [unitQueries.getById(unitId)]: [result.rows[0] || null] *)
Definition getById (db : Gateway.DbReply) (unitId : string) (table : list DbUnit)
  : Gateway.Outcome (option DbUnit) :=
  match db with
  | Gateway.Executes =>
      Gateway.Returned (List.find (fun u => String.eqb (unit_id u) unitId) table)
  | Gateway.Raises message => Gateway.Thrown message
  end.

End Units.

(* ===================================================================== *)
(** ** src/db/queries.ts: lessons *)
(* ===================================================================== *)
Module Lessons.
Import Sql.

(** A row of [lessons] ([DbLesson]). *)
Record DbLesson : Type := mkLesson {
  lesson_id : string;
  unit_id : string;
  title : string;
  active : option bool;
  order_by : Z
}.

(** The [filters] argument of [lessonQueries.getAll]. *)
Record Filters : Type := mkFilters {
  filter_unit_id : option string;
  filter_active : option bool
}.

(** The WHERE clause of [getAll]: [unit_id = $n] when [filters?.unit_id] is
    truthy; the [active] test as for units. *)
Definition selected (filters : option Filters) (l : DbLesson) : bool :=
  let unit_filter := match filters with Some f => filter_unit_id f | None => None end in
  let active_filter := match filters with Some f => filter_active f | None => None end in
  (if truthy_string unit_filter
   then match unit_filter with
        | Some u => String.eqb (unit_id l) u
        | None => true
        end
   else true)
  && match active_filter with
     | Some b => match active l with
                 | Some lb => Bool.eqb lb b
                 | None => false
                 end
     | None => coalesce_true (active l)
     end.

(** [ORDER BY unit_id, order_by, title] *)
Definition lesson_leb (a b : DbLesson) : bool :=
  match String.compare (unit_id a) (unit_id b) with
  | Lt => true
  | Eq => match Z.compare (order_by a) (order_by b) with
          | Lt => true
          | Eq => String.leb (title a) (title b)
          | Gt => false
          end
  | Gt => false
  end.

(** [lessonQueries.getAll(filters)] *)
Definition getAll (db : Gateway.DbReply) (filters : option Filters)
    (table : list DbLesson) : Gateway.Outcome (list DbLesson) :=
  match db with
  | Gateway.Executes =>
      Gateway.Returned (sort_by lesson_leb (List.filter (selected filters) table))
  | Gateway.Raises message => Gateway.Thrown message
  end.

(** [lessonQueries.getById(lessonId)] *)
Definition getById (db : Gateway.DbReply) (lessonId : string) (table : list DbLesson)
  : Gateway.Outcome (option DbLesson) :=
  match db with
  | Gateway.Executes =>
      Gateway.Returned (List.find (fun l => String.eqb (lesson_id l) lessonId) table)
  | Gateway.Raises message => Gateway.Thrown message
  end.

(** The parameter [`%${title}%`] of [findByTitle]. *)
Definition title_pattern (title : string) : string := "%" ++ title ++ "%".

(** The WHERE clause of [findByTitle]:
    [LOWER(title) LIKE LOWER($1)], [AND unit_id = $2] when [unitId] is truthy,
    [AND COALESCE(active, true) = true]. *)
Definition found (title : string) (unitId : option string) (l : DbLesson) : bool :=
  like (lower (title_pattern title)) (lower (Lessons.title l))
  && (if truthy_string unitId
      then match unitId with
           | Some u => String.eqb (unit_id l) u
           | None => true
           end
      else true)
  && coalesce_true (active l).

(** [ORDER BY order_by, title] *)
Definition found_leb (a b : DbLesson) : bool :=
  match Z.compare (order_by a) (order_by b) with
  | Lt => true
  | Eq => String.leb (title a) (title b)
  | Gt => false
  end.

(** [lessonQueries.findByTitle(title, unitId)] *)
Definition findByTitle (db : Gateway.DbReply) (title : string) (unitId : option string)
    (table : list DbLesson) : Gateway.Outcome (list DbLesson) :=
  match db with
  | Gateway.Executes =>
      Gateway.Returned (sort_by found_leb (List.filter (found title unitId) table))
  | Gateway.Raises message => Gateway.Thrown message
  end.

End Lessons.

(* ===================================================================== *)
(** ** src/db/queries.ts: activity statistics *)
(* ===================================================================== *)
Module Stats.
Import Gateway.






End Stats.

(* ===================================================================== *)
(** ** src/mcp/server.ts: the read tools *)
(* ===================================================================== *)
Module ReadTools.

(** The result of a read tool: [JSON.stringify(rows)] as content, kept as
    the rows it encodes, or an error result with its text. *)
Inductive ReadResult (A : Type) : Type :=
| Listed (rows : list A)
| Failed (text : string).
Arguments Listed {A} rows.
Arguments Failed {A} text.

(** The handler of [list_units]. *)
Definition list_units (db : Gateway.DbReply) (subject : option string)
    (year : option Z) (table : list Units.DbUnit) : ReadResult Units.DbUnit :=
  match Units.getAll db (Some (Units.mkFilters subject year None)) table with
  | Gateway.Returned units => Listed units
  | Gateway.Thrown message => Failed ("Error listing units: " ++ message)
  end.

(** The handler of [list_lessons_for_unit]. *)
Definition list_lessons_for_unit (db : Gateway.DbReply) (unit_id : string)
    (table : list Lessons.DbLesson) : ReadResult Lessons.DbLesson :=
  match Lessons.getAll db (Some (Lessons.mkFilters (Some unit_id) None)) table with
  | Gateway.Returned lessons => Listed lessons
  | Gateway.Thrown message => Failed ("Error listing lessons: " ++ message)
  end.

(** The handler of [find_lesson]. *)
Definition find_lesson (db : Gateway.DbReply) (title : string)
    (unit_id : option string) (table : list Lessons.DbLesson)
  : ReadResult Lessons.DbLesson :=
  match Lessons.findByTitle db title unit_id table with
  | Gateway.Returned lessons => Listed lessons
  | Gateway.Thrown message => Failed ("Error finding lessons: " ++ message)
  end.

End ReadTools.

(* ===================================================================== *)
(** ** src/index.ts: the request log *)
(* ===================================================================== *)
Module Boundary.

(** The level of the log line written when a response finishes:
    [status >= 500 ? 'ERROR' : status >= 400 ? 'WARN' : 'INFO']. *)
Definition log_level (status : nat) : string :=
  if Nat.leb 500 status then "ERROR"
  else if Nat.leb 400 status then "WARN"
  else "INFO".

End Boundary.

(* ===================================================================== *)
(** ** Vocabulary of the statements *)
(* ===================================================================== *)

(** A write of the gateway with what the store replies to it, and a
    sequence of writes run from a table. *)
Inductive GatewayWrite : Type :=
| WCreate (db : Gateway.DbReply) (generated_id : string)
    (input : Gateway.CreateActivityInput)
| WBulkCreate (lessonId : string)
    (activities : list (Gateway.CreateActivityInput * (Gateway.DbReply * string)))
| WUpdate (db : Gateway.DbReply) (activityId : string) (u : Gateway.ActivityUpdates)
| WDelete (db : Gateway.DbReply) (activityId : string).

Definition run_write (table : list Gateway.DbActivity) (w : GatewayWrite)
  : list Gateway.DbActivity :=
  match w with
  | WCreate db generated_id input => fst (Gateway.create db generated_id input table)
  | WBulkCreate lessonId activities =>
      fst (Gateway.bulkCreate lessonId activities table)
  | WUpdate db activityId u => fst (Gateway.update db activityId u table)
  | WDelete db activityId => fst (Gateway.delete db activityId table)
  end.

Definition run_writes (ws : list GatewayWrite) (table : list Gateway.DbActivity)
  : list Gateway.DbActivity :=
  fold_left run_write ws table.

(** The ids a write has the store generate: the primary key keeps them apart
    from the ids already in the table. *)
Definition generated_ids (w : GatewayWrite) : list string :=
  match w with
  | WCreate _ generated_id _ => [generated_id]
  | WBulkCreate _ activities => List.map (fun item => snd (snd item)) activities
  | WUpdate _ _ _ => []
  | WDelete _ _ => []
  end%list.

(** Every row of the given id is inactive. *)
Definition all_inactive (activityId : string) (table : list Gateway.DbActivity) : Prop :=
  Forall (fun a => Gateway.activity_id a = activityId
                   -> Gateway.active a = Some false) table.

(** The reason [create_activity] gives for a summative 'text' activity. *)
Definition non_scorable_reason : string :=
  "text activities are non-scorable and cannot be summative".

Definition mcq_kind : string := "multiple-choice-question".

(** The three shapes an optional, nullable string field may take. *)
Definition is_string (v : option Json) : Prop := exists s, v = Some (JStr s).

Definition is_optional_string (v : option Json) : Prop :=
  v = None \/ v = Some JNull \/ is_string v.

Definition is_optional_nonempty_string (v : option Json) : Prop :=
  v = None \/ v = Some JNull
  \/ exists s, v = Some (JStr s) /\ (1 <= String.length s)%nat.

(** What [McqOptionSchema] asks of one option.  The limit of 500 is on the
    [length] of the text, in UTF-16 code units. *)
Definition option_accepted (o : Json) : Prop :=
  (exists fields, o = JObj fields)
  /\ (exists i, get "id" o = Some (JStr i) /\ (1 <= String.length i)%nat)
  /\ (exists t, get "text" o = Some (JStr t) /\ (str_length t <= 500)%nat)
  /\ is_optional_string (get "imageUrl" o).

(** What [McqBodySchema] asks of a payload, rule by rule. *)
Definition mcq_accepted (payload : Json) : Prop :=
  (exists fields, payload = JObj fields)
  /\ (exists q, get "question" payload = Some (JStr q) /\ (1 <= String.length q)%nat)
  /\ is_optional_nonempty_string (get "imageFile" payload)
  /\ is_optional_string (get "imageUrl" payload)
  /\ is_optional_string (get "imageAlt" payload)
  /\ exists os c,
       get "options" payload = Some (JArr os)
       /\ (2 <= List.length os <= 4)%nat
       /\ Forall option_accepted os
       /\ get "correctOptionId" payload = Some (JStr c)
       /\ (1 <= String.length c)%nat
       /\ Exists (fun o => get "id" o = Some (JStr c)) os.

(** The condition as the specification words it: 2 to 4 options, every
    option text of at most 500 characters, and the correct-option id among
    the option ids. *)
Definition claimed_mcq_condition (payload : Json) : Prop :=
  exists os c,
    get "options" payload = Some (JArr os)
    /\ (2 <= List.length os <= 4)%nat
    /\ Forall (fun o => exists t, get "text" o = Some (JStr t)
                                  /\ (str_length t <= 500)%nat) os
    /\ get "correctOptionId" payload = Some (JStr c)
    /\ Exists (fun o => get "id" o = Some (JStr c)) os.

(** An option object [{ id, text }]. *)
Definition mcq_option (i t : string) : Json := JObj [("id", JStr i); ("text", JStr t)].

(** The rules of [McqBodySchema], one for every field and every bound. *)
Inductive McqRule : Type :=
| QuestionRequired
| ImageFileNonEmpty
| ImageUrlIsText
| ImageAltIsText
| AtLeastTwoOptions
| AtMostFourOptions
| OptionIsObject (i : nat)
| OptionIdRequired (i : nat)
| OptionTextWithinLimit (i : nat)
| OptionImageUrlIsText (i : nat)
| CorrectOptionIdRequired
| CorrectOptionIdAmongOptions.

(** A payload violates a rule when it does not meet what the rule asks.  A
    rule about a property of an option is about the options that are
    objects; more than four options are too many, no options are not. *)
Definition violates (payload : Json) (r : McqRule) : Prop :=
  match r with
  | QuestionRequired =>
      ~ exists q, get "question" payload = Some (JStr q) /\ (1 <= String.length q)%nat
  | ImageFileNonEmpty => ~ is_optional_nonempty_string (get "imageFile" payload)
  | ImageUrlIsText => ~ is_optional_string (get "imageUrl" payload)
  | ImageAltIsText => ~ is_optional_string (get "imageAlt" payload)
  | AtLeastTwoOptions =>
      ~ exists os, get "options" payload = Some (JArr os) /\ (2 <= List.length os)%nat
  | AtMostFourOptions =>
      exists os, get "options" payload = Some (JArr os) /\ (4 < List.length os)%nat
  | OptionIsObject i =>
      exists os o, get "options" payload = Some (JArr os) /\ os !! i = Some o
        /\ ~ exists fields, o = JObj fields
  | OptionIdRequired i =>
      exists os fields, get "options" payload = Some (JArr os)
        /\ os !! i = Some (JObj fields)
        /\ ~ exists s, lookup_field "id" fields = Some (JStr s)
                       /\ (1 <= String.length s)%nat
  | OptionTextWithinLimit i =>
      exists os fields, get "options" payload = Some (JArr os)
        /\ os !! i = Some (JObj fields)
        /\ ~ exists t, lookup_field "text" fields = Some (JStr t)
                       /\ (str_length t <= 500)%nat
  | OptionImageUrlIsText i =>
      exists os fields, get "options" payload = Some (JArr os)
        /\ os !! i = Some (JObj fields)
        /\ ~ is_optional_string (lookup_field "imageUrl" fields)
  | CorrectOptionIdRequired =>
      ~ exists c, get "correctOptionId" payload = Some (JStr c)
                  /\ (1 <= String.length c)%nat
  | CorrectOptionIdAmongOptions =>
      ~ exists os c, get "options" payload = Some (JArr os)
          /\ get "correctOptionId" payload = Some (JStr c)
          /\ Exists (fun o => get "id" o = Some (JStr c)) os
  end.

(** The path of the value a rule is about. *)
Definition rule_path (r : McqRule) : list PathItem :=
  match r with
  | QuestionRequired => [Key "question"]
  | ImageFileNonEmpty => [Key "imageFile"]
  | ImageUrlIsText => [Key "imageUrl"]
  | ImageAltIsText => [Key "imageAlt"]
  | AtLeastTwoOptions | AtMostFourOptions => [Key "options"]
  | OptionIsObject i => [Key "options"; Index i]
  | OptionIdRequired i => [Key "options"; Index i; Key "id"]
  | OptionTextWithinLimit i => [Key "options"; Index i; Key "text"]
  | OptionImageUrlIsText i => [Key "options"; Index i; Key "imageUrl"]
  | CorrectOptionIdRequired => [Key "correctOptionId"]
  | CorrectOptionIdAmongOptions => []
  end.

(** The code of the issue a rule raises on a value of the right type. *)
Definition rule_code (r : McqRule) : IssueCode :=
  match r with
  | QuestionRequired | ImageFileNonEmpty | AtLeastTwoOptions
  | OptionIdRequired _ | CorrectOptionIdRequired => TooSmall
  | AtMostFourOptions | OptionTextWithinLimit _ => TooBig
  | ImageUrlIsText | ImageAltIsText | OptionIsObject _ | OptionImageUrlIsText _ =>
      InvalidType
  | CorrectOptionIdAmongOptions => Custom
  end.

(** The message the schema gives a rule; [None] where it leaves the text to
    the library. *)
Definition rule_message (r : McqRule) : option string :=
  match r with
  | QuestionRequired => Some "question is required"
  | AtLeastTwoOptions => Some "At least 2 options are required"
  | AtMostFourOptions => Some "At most 4 options are allowed"
  | OptionIdRequired _ => Some "Option id is required"
  | OptionTextWithinLimit _ => Some "Option text must be 500 characters or fewer"
  | CorrectOptionIdRequired => Some "correctOptionId is required"
  | CorrectOptionIdAmongOptions =>
      Some "correctOptionId must match the id of one of the provided options"
  | ImageFileNonEmpty | ImageUrlIsText | ImageAltIsText
  | OptionIsObject _ | OptionImageUrlIsText _ => None
  end.

(** A rule that a missing value or a value of another type violates as
    well; such a violation is raised as a type mismatch. *)
Definition asks_type (r : McqRule) : bool :=
  match r with
  | AtMostFourOptions | CorrectOptionIdAmongOptions => false
  | _ => true
  end.

(** An issue with a given path and code, and a given message if any. *)
Definition issue_at (p : list PathItem) (c : IssueCode) (m : option string)
    (issue : Issue) : Prop :=
  path issue = p /\ code issue = c /\ (forall x, m = Some x -> message issue = x).

(** An issue lists a rule under the rule's own code: it is about the value
    the rule is about, and carries the message the schema gives the rule. *)
Definition lists_as_such (r : McqRule) (issue : Issue) : Prop :=
  issue_at (rule_path r) (rule_code r) (rule_message r) issue.

(** An issue lists a rule: as such, or as the type mismatch of the value the
    rule is about. *)
Definition lists (r : McqRule) (issue : Issue) : Prop :=
  lists_as_such r issue
  \/ (path issue = rule_path r /\ code issue = InvalidType /\ asks_type r = true).

(** Every field of the payload has the type its schema names. *)
Definition option_typed (o : Json) : Prop :=
  (exists fields, o = JObj fields)
  /\ is_string (get "id" o)
  /\ is_string (get "text" o)
  /\ is_optional_string (get "imageUrl" o).

Definition mcq_typed (payload : Json) : Prop :=
  (exists fields, payload = JObj fields)
  /\ is_string (get "question" payload)
  /\ is_optional_string (get "imageFile" payload)
  /\ is_optional_string (get "imageUrl" payload)
  /\ is_optional_string (get "imageAlt" payload)
  /\ (exists os, get "options" payload = Some (JArr os) /\ Forall option_typed os)
  /\ is_string (get "correctOptionId" payload).

(** The issues of a multiple-choice payload, whose messages
    [validateBodyData] joins. *)
Definition mcq_issues (payload : Json) : list Issue :=
  issues (McqBodySchema (Some payload)).

(** A list of issues has an issue with this path and this code, and with
    this message when one is given. *)
Definition raised (p : list PathItem) (c : IssueCode) (m : option string)
    (l : list Issue) : Prop :=
  exists i, In i l /\ issue_at p c m i.

(** The schema [validateBodyData] parses a payload of each kind with. *)
Definition body_schemas : list (string * Schema) :=
  [ ("multiple-choice-question", McqBodySchema);
    ("short-text-question", ShortTextBodySchema);
    ("text", TextBodySchema) ].

(** A parse result is consistent when a valid status comes with no issue. *)
Definition consistent (r : ParseReturn) : Prop := status r = Valid -> issues r = [].


(** Every entry of the registry is filed under the session id its transport
    carries. *)
Definition keyed (reg : gmap string Mux.Session) : Prop :=
  forall t s, reg !! t = Some s -> Mux.sessionId (Mux.transport s) = Some t.

(** A request to /mcp as the boundary sees it, with what the protocol engine
    does when the request reaches it. *)
Record Request : Type := mkRequest {
  req_method : Mux.Method;
  req_headers : Auth.Headers;
  req_engine : Mux.EngineCall
}.

(** The requests of a list served one after the other. *)
Definition serve_all (serviceKey : string) (requests : list Request) (st : Mux.State)
  : Mux.State :=
  fold_left (fun st r =>
               fst (Mux.mcp_route serviceKey (req_method r) (req_headers r)
                      (req_engine r) st))
            requests st.

(** The engine runs the handshake once per transport: a request that is
    routed to a registered session is given no new id. *)
Fixpoint handshakes_once (serviceKey : string) (requests : list Request) (st : Mux.State)
  : Prop :=
  match requests with
  | [] => True
  | r :: rest =>
      (Mux.resolve (Auth.mcp_session_id (req_headers r)) (Mux.sessions st) <> None ->
       Mux.initializes (req_engine r) = None)
      /\ handshakes_once serviceKey rest
           (fst (Mux.mcp_route serviceKey (req_method r) (req_headers r)
                   (req_engine r) st))
  end.

(** Every transport the registry holds was constructed before the [n]-th. *)
Definition refs_below (n : nat) (reg : gmap string Mux.Session) : Prop :=
  forall t s, reg !! t = Some s -> (Mux.transport_ref (Mux.transport s) < n)%nat.

(** A request carries the pre-shared key by one of the two headers, in the
    words of the specification: as a bearer-style Authorization header or in
    the dedicated key header. *)
Definition carries_key (serviceKey : string) (h : Auth.Headers) : Prop :=
  Auth.authorization h = Some ("Bearer " ++ serviceKey)
  \/ Auth.x_mcp_key h = Some serviceKey.

(** Every character of [s] is an ASCII character. *)
Definition ascii_text (s : string) : bool :=
  forallb (fun c => Nat.ltb (nat_of_ascii c) 128) (list_ascii_of_string s).

(** Two JSON values are the same value: the same scalar, arrays with the
    same values item by item, objects with the same property names and the
    same value under each name, whatever the order of the properties. *)
Inductive same_value : Json -> Json -> Prop :=
| same_null : same_value JNull JNull
| same_bool (b : bool) : same_value (JBool b) (JBool b)
| same_num (n : Z) : same_value (JNum n) (JNum n)
| same_str (s : string) : same_value (JStr s) (JStr s)
| same_arr (xs ys : list Json) :
    Forall2 same_value xs ys -> same_value (JArr xs) (JArr ys)
| same_obj (fs gs : list (string * Json)) :
    (forall k, option_Forall2 same_value (lookup_field k fs) (lookup_field k gs)) ->
    same_value (JObj fs) (JObj gs).

(** [s] contains [pat] as a substring. *)
Definition occurs (pat s : string) : Prop := exists pre post, s = pre ++ pat ++ post.

(** The row one INSERT of [bulkCreate] adds for an activity and the id the
    store generates. *)
Definition bulk_row (lessonId : string)
    (item : Gateway.CreateActivityInput * (Gateway.DbReply * string))
  : Gateway.DbActivity :=
  Gateway.mkActivity (snd (snd item)) lessonId
    (Gateway.input_title (fst item)) (Gateway.input_type (fst item))
    (Jsonb.stored (Gateway.input_body_data (fst item)))
    (number_or_null (Gateway.input_order_by (fst item)))
    (Some true)
    (bool_or_false (Gateway.input_is_summative (fst item)))
    (string_or_null (Gateway.input_notes (fst item))).

(** The store executes the query of this item. *)
Definition executed
    (item : Gateway.CreateActivityInput * (Gateway.DbReply * string)) : Prop :=
  fst (snd item) = Gateway.Executes.



(** The property names the three body_data schemas read. *)
Definition schema_keys : list string :=
  ["question"; "imageFile"; "imageUrl"; "imageAlt"; "options"; "correctOptionId";
   "modelAnswer"; "text"].

(** A parse result is informative when a status other than valid comes with
    an issue. *)
Definition informative (r : ParseReturn) : Prop := status r <> Valid -> issues r <> [].

(* ===================================================================== *)
(** * Properties *)
(* ===================================================================== *)

(** ** The validation engine on kinds it has no schema for *)
Section UnknownKinds.

(** C8. For every kind other than 'multiple-choice-question',
    'short-text-question' and 'text', [validateBodyData] accepts every
    payload: no schema is consulted. *)
Theorem validate_unknown_kind_accepts (kind : string) (payload : Json) :
  kind <> "multiple-choice-question" ->
  kind <> "short-text-question" ->
  kind <> "text" ->
  validateBodyData kind payload = Success.
Proof.
  intros Hmcq Hshort Htext. unfold validateBodyData.
  destruct (String.eqb_spec kind "multiple-choice-question") as [E | _]; [contradiction |].
  destruct (String.eqb_spec kind "short-text-question") as [E | _]; [contradiction |].
  destruct (String.eqb_spec kind "text") as [E | _]; [contradiction | reflexivity].
Qed.

Lemma validate_unknown_kind_accepts_witness :
  validateBodyData "essay" (JArr [JNum 7; JNull]) = Success.
Proof. apply validate_unknown_kind_accepts; discriminate. Defined.

End UnknownKinds.

(** ** The create_activity tool *)
Section CreateActivity.
Import Gateway Tools.

(** C4. A create_activity call with type 'text' and is_summative true is
    answered with the non-scorable reason as an error result, and the table
    is left as it was, whatever the body_data and whatever the store would
    have replied: the check precedes validation and persistence. *)
Theorem create_text_summative_rejected
    (db : DbReply) (generated_id : string) (args : CreateActivityArgs)
    (table : list DbActivity) :
  arg_type args = "text" ->
  arg_is_summative args = Some true ->
  create_activity db generated_id args table = (table, error_result non_scorable_reason)
  /\ String.index 0 "non-scorable" non_scorable_reason = Some 20%nat.
Proof.
  intros Htype Hsum. split; [| reflexivity].
  unfold create_activity. rewrite Htype, Hsum. reflexivity.
Qed.

(** An instance whose body the text schema rejects: the reason returned is
    still the non-scorable one. *)
Lemma create_text_summative_rejected_witness :
  validateBodyData "text" (JObj [])
    = Failure ("Invalid body_data for text: " ++ invalid_type_message "string" None)
  /\ create_activity Executes "act-1"
       (mkArgs "L1" "Note" "text" [] None (Some true) None) []
     = ([], error_result non_scorable_reason).
Proof.
  split; [reflexivity |].
  apply (create_text_summative_rejected Executes "act-1"
           (mkArgs "L1" "Note" "text" [] None (Some true) None) []); reflexivity.
Defined.


(** An error result never adds a row; a success adds exactly the row it
    returns. *)
Lemma create_activity_success_inv
    (db : DbReply) (generated_id : string) (args : CreateActivityArgs)
    (table table' : list DbActivity) (r : ToolResult) :
  create_activity db generated_id args table = (table', r) ->
  isError r = false ->
  db = Executes
  /\ validateBodyData (arg_type args) (JObj (arg_body_data args)) = Success
  /\ table' = (table ++ [inserted_row generated_id
                 (mkInput (arg_lesson_id args) (arg_title args) (arg_type args)
                          (JObj (arg_body_data args)) (arg_order_by args)
                          (arg_is_summative args) (arg_notes args))])%list
  /\ content r = ActivityJson (inserted_row generated_id
                 (mkInput (arg_lesson_id args) (arg_title args) (arg_type args)
                          (JObj (arg_body_data args)) (arg_order_by args)
                          (arg_is_summative args) (arg_notes args))).
Proof.
  unfold create_activity. intros H Hok.
  destruct (String.eqb (arg_type args) "text" && truthy_bool (arg_is_summative args)).
  { inversion H; subst; discriminate. }
  destruct (validateBodyData (arg_type args) (JObj (arg_body_data args))).
  2:{ inversion H; subst; discriminate. }
  destruct db as [| message]; simpl in H; inversion H; subst; simpl in *.
  - repeat split; reflexivity.
  - discriminate.
Qed.

(** C10. Whenever create_activity persists a row, an order_by of 0 is stored
    as NULL, an empty notes string is stored as NULL, and an omitted
    is_summative is stored as false. *)
Theorem create_activity_coerces_falsy
    (db : DbReply) (generated_id : string) (args : CreateActivityArgs)
    (table table' : list DbActivity) (r : ToolResult) :
  create_activity db generated_id args table = (table', r) ->
  isError r = false ->
  exists row,
    table' = (table ++ [row])%list
    /\ content r = ActivityJson row
    /\ (arg_order_by args = Some 0%Z -> order_by row = None)
    /\ (arg_notes args = Some "" -> notes row = None)
    /\ (arg_is_summative args = None -> is_summative row = false).
Proof.
  intros H Hok.
  destruct (create_activity_success_inv _ _ _ _ _ _ H Hok) as (_ & _ & Ht & Hc).
  eexists. split; [exact Ht |]. split; [exact Hc |].
  simpl. repeat split; intros E; rewrite E; reflexivity.
Qed.

Lemma create_activity_coerces_falsy_witness :
  exists row,
    create_activity Executes "act-1"
      (mkArgs "L1" "Note" "text" [("text", JStr "read this")] (Some 0%Z) None (Some "")) []
    = ([row], mkResult (ActivityJson row) false)
    /\ order_by row = None /\ notes row = None /\ is_summative row = false.
Proof.
  pose (args := mkArgs "L1" "Note" "text" [("text", JStr "read this")]
                  (Some 0%Z) None (Some "")).
  destruct (create_activity_coerces_falsy Executes "act-1" args []
              (fst (create_activity Executes "act-1" args []))
              (snd (create_activity Executes "act-1" args []))
              eq_refl eq_refl)
    as (row & Ht & Hc & Ho & Hn & Hs).
  exists row. simpl in Hc. injection Hc as <-.
  split; [reflexivity |].
  split; [apply Ho; reflexivity |].
  split; [apply Hn; reflexivity | apply Hs; reflexivity].
Defined.

End CreateActivity.

(** ** The credential gate in front of the multiplexer *)
Section CredentialGate.
Import Auth Mux.

Lemma bearer_prefix_stripped (k : string) : replace "Bearer " "" ("Bearer " ++ k) = k.
Proof. reflexivity. Qed.

Lemma truthy_string_Some (k : string) : k <> "" -> truthy_string (Some k) = true.
Proof.
  intros Hk. unfold truthy_string.
  destruct (String.eqb_spec k "") as [E | _]; [contradiction | reflexivity].
Qed.

(** The key a bearer-style Authorization header supplies. *)
Lemma providedKey_bearer (h : Headers) (k : string) :
  authorization h = Some ("Bearer " ++ k) -> k <> "" -> providedKey h = Some k.
Proof.
  intros Ha Hk. unfold providedKey. rewrite Ha.
  unfold option_map. rewrite bearer_prefix_stripped.
  rewrite (truthy_string_Some k Hk). reflexivity.
Qed.

(** The key the dedicated header supplies when there is no Authorization
    header. *)
Lemma providedKey_key_header (h : Headers) (k : string) :
  authorization h = None -> x_mcp_key h = Some k -> providedKey h = Some k.
Proof. intros Ha Hk. unfold providedKey. rewrite Ha, Hk. reflexivity. Qed.

(** C6, as amended.  On every /mcp request the credential check decides
    first.  The credential of a request is the value of its Authorization
    header with the first 'Bearer ' removed or, when that header is absent or
    nothing is left of it, the value of its x-mcp-key header.  Without a
    credential, or with an empty one, the answer is 401 and the multiplexer
    state is untouched; a credential that differs from the service key gives
    403, again without touching the state; a credential equal to the service
    key hands the request to the route's handler.  Every request is in exactly
    one of the three cases. *)
Theorem credential_gate
    (serviceKey : string) (m : Method) (h : Headers) (call : EngineCall) (st : State) :
  let bearer := match authorization h with
                | Some a => replace "Bearer " "" a
                | None => ""
                end in
  let key := if String.eqb bearer ""
             then match x_mcp_key h with Some k => k | None => "" end
             else bearer in
  (key = "" ->
     mcp_route serviceKey m h call st = (st, JsonError 401 "Unauthorized"))
  /\ (key <> "" -> key <> serviceKey ->
        mcp_route serviceKey m h call st = (st, JsonError 403 "Forbidden"))
  /\ (key <> "" -> key = serviceKey ->
        mcp_route serviceKey m h call st = handler m (mcp_session_id h) call st).
Proof.
  intros bearer key.
  assert (Hp : providedKey h = (if String.eqb key "" then providedKey h else Some key)
               /\ truthy_string (providedKey h) = negb (String.eqb key "")).
  { unfold key, bearer, providedKey, truthy_string, option_map.
    destruct (authorization h) as [a |]; simpl.
    - destruct (String.eqb (replace "Bearer " "" a) "") eqn:E; simpl.
      + destruct (x_mcp_key h) as [k |]; simpl;
          [destruct (String.eqb k ""); split; reflexivity | split; reflexivity].
      + rewrite E. split; reflexivity.
    - destruct (x_mcp_key h) as [k |]; simpl;
        [destruct (String.eqb k ""); split; reflexivity | split; reflexivity]. }
  destruct Hp as [Hp Ht]. unfold mcp_route, validateMcpKey. rewrite Ht.
  destruct (String.eqb_spec key "") as [E | NE]; simpl.
  - split; [reflexivity |]. split; intros H; contradiction.
  - rewrite Hp. simpl. split; [intros H; contradiction |].
    destruct (String.eqb_spec key serviceKey) as [E | NE']; simpl.
    + split; [intros _ H; contradiction | reflexivity].
    + split; [reflexivity | intros _ H; contradiction].
Qed.

(** The three outcomes on requests to a server whose key is "s3cret": no
    header, an empty x-mcp-key header, an Authorization header that is only
    the prefix; a wrong bearer key; the right key in x-mcp-key. *)
Lemma credential_gate_witness :
  let st := mkState ∅ 0 in
  let call := mkCall None false (Responds 200) in
  mcp_route "s3cret" GET (mkHeaders None None (Some "t")) call st
    = (st, JsonError 401 "Unauthorized")
  /\ mcp_route "s3cret" POST (mkHeaders None (Some "") None) call st
    = (st, JsonError 401 "Unauthorized")
  /\ mcp_route "s3cret" POST (mkHeaders (Some "Bearer ") None None) call st
    = (st, JsonError 401 "Unauthorized")
  /\ mcp_route "s3cret" GET (mkHeaders (Some "Bearer guess") None (Some "t")) call st
    = (st, JsonError 403 "Forbidden")
  /\ mcp_route "s3cret" GET (mkHeaders None (Some "s3cret") (Some "t")) call st
    = get_mcp (Some "t") call st.
Proof.
  intros st call. split; [| split; [| split; [| split]]].
  - apply (credential_gate "s3cret" GET (mkHeaders None None (Some "t")) call st);
      reflexivity.
  - apply (credential_gate "s3cret" POST (mkHeaders None (Some "") None) call st);
      reflexivity.
  - apply (credential_gate "s3cret" POST (mkHeaders (Some "Bearer ") None None) call st);
      reflexivity.
  - apply (proj1 (proj2 (credential_gate "s3cret" GET
                           (mkHeaders (Some "Bearer guess") None (Some "t")) call st)));
      discriminate.
  - apply (proj2 (proj2 (credential_gate "s3cret" GET
                           (mkHeaders None (Some "s3cret") (Some "t")) call st)));
      [discriminate | reflexivity].
Defined.

(** C6 as the specification words it fails: a request that carries the
    service key in the dedicated key header is not let through when it also
    carries an Authorization header with another key. *)
Lemma right_key_header_beside_wrong_bearer :
  let h := mkHeaders (Some "Bearer guess") (Some "s3cret") None in
  let st := mkState ∅ 0 in
  let call := mkCall (Some "fresh") false (Responds 200) in
  carries_key "s3cret" h
  /\ mcp_route "s3cret" POST h call st = (st, JsonError 403 "Forbidden")
  /\ ~ (forall h', carries_key "s3cret" h' -> validateMcpKey "s3cret" h' = Next).
Proof.
  intros h st call. split; [right; reflexivity |]. split; [reflexivity |].
  intros H. specialize (H h (or_intror eq_refl)). discriminate.
Qed.

End CredentialGate.

(** ** The session registry *)
Section Registry.
Import Mux.

(** C5. Evicting a token a second time, by [sessions.delete] again or by the
    close callback of the transport that carries the token (before or after
    the explicit eviction), changes nothing:
    the registry is the one the first eviction left, the token is absent from
    it, and every other token still resolves to what it resolved to before.
    Eviction is a total function on registries: there is no error outcome. *)
Theorem double_eviction_is_noop
    (reg : gmap string Session) (t : string) (tr : Transport) :
  sessionId tr = Some t ->
  evict t (evict t reg) = evict t reg
  /\ onclose tr (evict t reg) = evict t reg
  /\ evict t (onclose tr reg) = evict t reg
  /\ evict t reg !! t = None
  /\ (forall t', t' <> t -> onclose tr (evict t (evict t reg)) !! t' = reg !! t').
Proof.
  intros Hid. unfold evict.
  assert (Hclose : forall r : gmap string Session, onclose tr (delete t r) = delete t r).
  { intros r. unfold onclose, evict. rewrite Hid.
    destruct (truthy_string (Some t)); [| reflexivity].
    apply delete_id. apply lookup_delete_eq. }
  split; [apply delete_id; apply lookup_delete_eq |].
  split; [apply Hclose |].
  split.
  { unfold onclose, evict. rewrite Hid.
    destruct (truthy_string (Some t)); [| reflexivity].
    apply delete_id. apply lookup_delete_eq. }
  split; [apply lookup_delete_eq |].
  intros t' Hne. rewrite Hclose.
  rewrite (delete_id (delete t reg)) by apply lookup_delete_eq.
  apply lookup_delete_ne. congruence.
Qed.

Lemma double_eviction_is_noop_witness :
  let a := mkSession 0 (mkTransport 0 (Some "tok-a")) in
  let b := mkSession 1 (mkTransport 1 (Some "tok-b")) in
  let reg : gmap string Session := <["tok-a" := a]> (<["tok-b" := b]> ∅) in
  evict "tok-a" (evict "tok-a" reg) = evict "tok-a" reg
  /\ onclose (transport a) (evict "tok-a" reg) = evict "tok-a" reg
  /\ evict "tok-a" reg !! "tok-a" = None
  /\ onclose (transport a) (evict "tok-a" (evict "tok-a" reg)) !! "tok-b" = Some b.
Proof.
  intros a b reg.
  destruct (double_eviction_is_noop reg "tok-a" (transport a) eq_refl)
    as (H1 & H2 & _ & H3 & H4).
  split; [exact H1 |]. split; [exact H2 |]. split; [exact H3 |].
  rewrite (H4 "tok-b") by discriminate. reflexivity.
Defined.

(** The close route when the engine's own close fires [onclose] during the
    call: the handler's [sessions.delete] is then the second eviction, and
    the request ends with the engine's reply. *)
Lemma delete_mcp_after_onclose (st : State) (t : string) (s : Session) (status : nat) :
  t <> "" ->
  sessions st !! t = Some s ->
  sessionId (transport s) = Some t ->
  delete_mcp (Some t) (mkCall None true (Responds status)) st
  = (mkState (evict t (sessions st)) (created st), FromEngine status).
Proof.
  intros Ht Hs Hid. unfold delete_mcp, resolve.
  rewrite (truthy_string_Some t Ht), Hs. simpl.
  unfold onclose. rewrite Hid, (truthy_string_Some t Ht).
  unfold evict. rewrite delete_id by apply lookup_delete_eq. reflexivity.
Qed.

(** Every turn of the shutdown loop leaves a registry that is included in
    the one it started from and lacks the entry of that turn. *)
Lemma shutdown_step_shrinks (fires : Session -> bool)
    (reg : gmap string Session) (entry : string * Session) :
  shutdown_step fires reg entry ⊆ reg
  /\ shutdown_step fires reg entry !! fst entry = None.
Proof.
  unfold shutdown_step, evict.
  destruct (reg !! fst entry) as [s |] eqn:E.
  - assert (Hsub : (if fires s then onclose (transport s) reg else reg) ⊆ reg).
    { destruct (fires s); [| reflexivity]. unfold onclose, evict.
      destruct (sessionId (transport s)) as [id |]; [| reflexivity].
      destruct (truthy_string (Some id)); [apply delete_subseteq | reflexivity]. }
    split.
    + etransitivity; [apply delete_subseteq | exact Hsub].
    + apply lookup_delete_eq.
  - split; [reflexivity | exact E].
Qed.

Lemma shutdown_fold_shrinks (fires : Session -> bool)
    (entries : list (string * Session)) (reg : gmap string Session) :
  fold_left (shutdown_step fires) entries reg ⊆ reg
  /\ (forall e, In e entries ->
        fold_left (shutdown_step fires) entries reg !! fst e = None).
Proof.
  revert reg. induction entries as [| e entries IH]; intros reg; simpl.
  - split; [reflexivity | intros e []].
  - destruct (shutdown_step_shrinks fires reg e) as [Hsub Hgone].
    destruct (IH (shutdown_step fires reg e)) as [IHsub IHgone].
    split; [etransitivity; eassumption |].
    intros e' [<- | Hin]; [| apply IHgone; exact Hin].
    eapply lookup_weaken_None; eassumption.
Qed.

(** X7. [shutdown] leaves no session registered, whichever transports fire
    their close callback while their server closes. *)
Lemma shutdown_evicts_all (fires : Session -> bool) (reg : gmap string Session) :
  shutdown fires reg = ∅.
Proof.
  unfold shutdown. apply map_empty. intros t.
  destruct (shutdown_fold_shrinks fires (map_to_list reg) reg) as [Hsub Hgone].
  destruct (reg !! t) as [s |] eqn:E.
  - apply (Hgone (t, s)). apply list_elem_of_In, elem_of_map_to_list. exact E.
  - eapply lookup_weaken_None; eassumption.
Qed.

End Registry.

(** ** Requests that carry a token the registry does not hold *)
Section UnknownToken.
Import Mux.

Lemma resolve_unknown (reg : gmap string Session) (t : string) :
  reg !! t = None -> resolve (Some t) reg = None.
Proof.
  intros H. unfold resolve. rewrite H.
  destruct (truthy_string (Some t)); reflexivity.
Qed.

(** The poll route answers an unknown token with 400 and leaves the state
    as it was. *)
Lemma get_unknown_token_rejected (st : State) (t : string) (call : EngineCall) :
  sessions st !! t = None ->
  get_mcp (Some t) call st = (st, JsonError 400 "Invalid or missing session ID").
Proof. intros H. unfold get_mcp. rewrite (resolve_unknown _ _ H). reflexivity. Qed.

(** So does the close route. *)
Lemma delete_unknown_token_rejected (st : State) (t : string) (call : EngineCall) :
  sessions st !! t = None ->
  delete_mcp (Some t) call st = (st, JsonError 400 "Invalid or missing session ID").
Proof. intros H. unfold delete_mcp. rewrite (resolve_unknown _ _ H). reflexivity. Qed.

(** The initiate-or-continue route does not: an unknown token takes the
    new-session branch, exactly as a request without a token does. *)
Lemma post_unknown_token_as_absent (st : State) (t : string) (call : EngineCall) :
  sessions st !! t = None ->
  post_mcp (Some t) call st = post_mcp None call st.
Proof. intros H. unfold post_mcp. rewrite (resolve_unknown _ _ H). reflexivity. Qed.

(** On that branch a handshake that assigns [id] registers a session under
    [id], and the response is the engine's. *)
Lemma post_unknown_token_registers
    (st : State) (t id : string) (status : nat) :
  sessions st !! t = None ->
  exists s reg,
    post_mcp (Some t) (mkCall (Some id) false (Responds status)) st
    = (mkState reg (S (created st)), FromEngine status)
    /\ reg !! id = Some s.
Proof.
  intros H. rewrite (post_unknown_token_as_absent _ _ _ H).
  eexists. eexists. unfold post_mcp, resolve, handleRequest, onsessioninitialized. simpl.
  split; [reflexivity | apply lookup_insert_eq].
Qed.

(** C1, at the failing input.  The registry is empty, the request is a POST
    with the token "stale" and a body the engine takes as an initiation
    (it assigns "fresh" and replies 200).  The handler does not answer 400: a
    server/transport pair is constructed and registered under "fresh", while
    the same token on the poll and close routes is answered 400. *)
Theorem post_stale_token_opens_session :
  let st := mkState ∅ 0 in
  let call := mkCall (Some "fresh") false (Responds 200) in
  let opened := mkState {[ "fresh" := mkSession 0 (mkTransport 0 (Some "fresh")) ]} 1 in
  resolve (Some "stale") (sessions st) = None
  /\ post_mcp (Some "stale") call st = (opened, FromEngine 200)
  /\ Auth.mcp_session_id (Auth.mkHeaders (Some "Bearer s3cret") None (Some "stale"))
     = Some "stale"
  /\ mcp_route "s3cret" POST (Auth.mkHeaders (Some "Bearer s3cret") None (Some "stale"))
       call st = (opened, FromEngine 200)
  /\ get_mcp (Some "stale") call st = (st, JsonError 400 "Invalid or missing session ID")
  /\ delete_mcp (Some "stale") call st = (st, JsonError 400 "Invalid or missing session ID").
Proof.
  intros st call opened. split; [reflexivity |].
  assert (Hpost : post_mcp (Some "stale") call st = (opened, FromEngine 200)).
  { rewrite (post_unknown_token_as_absent st "stale" call) by reflexivity.
    reflexivity. }
  split; [exact Hpost |]. split; [reflexivity |]. split.
  - unfold mcp_route. simpl. exact Hpost.
  - split; [apply get_unknown_token_rejected | apply delete_unknown_token_rejected];
      reflexivity.
Qed.

End UnknownToken.

(** ** A value comes back from the jsonb column as the same value *)
Section JsonbRoundTrip.
Import Jsonb.

Lemma lookup_field_map (f : Json -> Json) (k : string) (fields : list (string * Json)) :
  lookup_field k (List.map (fun p => (fst p, f (snd p))) fields)
  = option_map f (lookup_field k fields).
Proof.
  induction fields as [| [k' v] rest IH]; [reflexivity |]. simpl.
  destruct (String.eqb k' k); [reflexivity | exact IH].
Qed.

Lemma lookup_own_properties (k : string) (fields : list (string * Json))
    (seen : list string) :
  lookup_field k (own_properties seen fields)
  = if existsb (String.eqb k) seen then None else lookup_field k fields.
Proof.
  revert seen. induction fields as [| [k' v] rest IH]; intros seen; simpl.
  - destruct (existsb (String.eqb k) seen); reflexivity.
  - destruct (existsb (String.eqb k') seen) eqn:Hseen.
    + rewrite IH. destruct (existsb (String.eqb k) seen) eqn:Hk; [reflexivity |].
      destruct (String.eqb_spec k' k) as [-> | _]; [congruence | reflexivity].
    + simpl. destruct (String.eqb_spec k' k) as [-> | Hne].
      * rewrite Hseen. reflexivity.
      * rewrite IH. simpl.
        destruct (String.eqb_spec k k') as [-> | _]; [contradiction | reflexivity].
Qed.

Lemma key_leb_refl (k : string) : key_leb k k = true.
Proof.
  unfold key_leb. rewrite Nat.compare_refl. unfold String.leb.
  pose proof (String.compare_antisym k k) as H.
  destruct (String.compare k k); [reflexivity | reflexivity | discriminate].
Qed.

(** The column's sort puts a property before the properties of the same
    name, so a name is read as before. *)
Lemma lookup_insert_property (k : string) (p : string * Json)
    (fields : list (string * Json)) :
  lookup_field k (insert_property p fields)
  = if String.eqb (fst p) k then Some (snd p) else lookup_field k fields.
Proof.
  destruct p as [kp vp]. simpl.
  induction fields as [| [kq vq] rest IH]; [reflexivity |]. simpl.
  destruct (key_leb kp kq) eqn:Hleb; [reflexivity |]. simpl. rewrite IH.
  destruct (String.eqb_spec kq k) as [-> | _]; [| reflexivity].
  destruct (String.eqb_spec kp k) as [-> | _]; [| reflexivity].
  rewrite key_leb_refl in Hleb. discriminate.
Qed.

Lemma lookup_column_order (k : string) (fields : list (string * Json)) :
  lookup_field k (column_order fields) = lookup_field k fields.
Proof.
  induction fields as [| [k' v] rest IH]; [reflexivity |].
  change (column_order ((k', v) :: rest)) with (insert_property (k', v) (column_order rest)).
  rewrite lookup_insert_property, IH. reflexivity.
Qed.

Lemma lookup_field_filter (q : string -> bool) (k : string)
    (fields : list (string * Json)) :
  lookup_field k (List.filter (fun p => q (fst p)) fields)
  = if q k then lookup_field k fields else None.
Proof.
  induction fields as [| [k' v] rest IH]; [destruct (q k); reflexivity |]. simpl.
  destruct (String.eqb_spec k' k) as [-> | Hne].
  - destruct (q k); [simpl; rewrite String.eqb_refl; reflexivity | exact IH].
  - destruct (q k'); [simpl |]; rewrite ?IH;
      destruct (String.eqb_spec k' k); try contradiction; reflexivity.
Qed.

Lemma lookup_field_app (k : string) (fs gs : list (string * Json)) :
  lookup_field k (fs ++ gs)%list
  = match lookup_field k fs with
    | Some v => Some v
    | None => lookup_field k gs
    end.
Proof.
  induction fs as [| [k' v] rest IH]; [reflexivity |]. simpl.
  destruct (String.eqb k' k); [reflexivity | exact IH].
Qed.

Lemma lookup_enumeration_order (k : string) (fields : list (string * Json)) :
  lookup_field k (enumeration_order fields) = lookup_field k fields.
Proof.
  unfold enumeration_order.
  rewrite lookup_field_app, (lookup_field_filter is_array_index),
    (lookup_field_filter (fun k => negb (is_array_index k))).
  destruct (is_array_index k); simpl; [| reflexivity].
  destruct (lookup_field k fields); reflexivity.
Qed.

(** The properties of a stored object: the names are those of the object
    sent, and each value is the stored form of the value sent. *)
Lemma lookup_stored (k : string) (fields : list (string * Json)) :
  get k (stored (JObj fields)) = option_map stored (lookup_field k fields).
Proof.
  simpl. rewrite lookup_enumeration_order, lookup_column_order, lookup_own_properties.
  simpl. apply lookup_field_map.
Qed.

Lemma lookup_field_In (k : string) (v : Json) (fields : list (string * Json)) :
  lookup_field k fields = Some v -> In (k, v) fields.
Proof.
  induction fields as [| [k' v'] rest IH]; [discriminate |]. simpl.
  destruct (String.eqb_spec k' k) as [-> | _].
  - intros E. injection E as ->. left. reflexivity.
  - intros E. right. apply IH. exact E.
Qed.

(** The round trip through the column gives the value that was sent. *)
Fixpoint stored_same_value (v : Json) : same_value (stored v) v.
Proof.
  destruct v as [| b | n | s | items | fields].
  - constructor.
  - constructor.
  - constructor.
  - constructor.
  - simpl. constructor.
    induction items as [| x rest IH]; simpl; constructor;
      [apply stored_same_value | exact IH].
  - apply same_obj. intros k.
    change (lookup_field k _) with (get k (stored (JObj fields))) at 1.
    rewrite lookup_stored.
    assert (Hall : Forall (fun p => same_value (stored (snd p)) (snd p)) fields).
    { induction fields as [| p rest IH]; constructor;
        [apply stored_same_value | exact IH]. }
    destruct (lookup_field k fields) as [x |] eqn:E; simpl; constructor.
    rewrite List.Forall_forall in Hall.
    exact (Hall (k, x) (lookup_field_In k x fields E)).
Qed.

End JsonbRoundTrip.

(** ** The activities table: listing, soft delete, round trip *)
Section Activities.
Import Gateway Tools.

Lemma In_insert_sorted (x a : DbActivity) (rows : list DbActivity) :
  In x (insert_sorted a rows) <-> x = a \/ In x rows.
Proof.
  induction rows as [| b rest IH]; simpl.
  - intuition congruence.
  - destruct (row_leb a b); simpl; [intuition congruence |].
    rewrite IH. intuition congruence.
Qed.

(** Sorting neither drops nor invents a row. *)
Lemma In_sort_rows (x : DbActivity) (rows : list DbActivity) :
  In x (sort_rows rows) <-> In x rows.
Proof.
  unfold sort_rows. induction rows as [| a rest IH]; simpl; [tauto |].
  rewrite In_insert_sorted, IH. intuition congruence.
Qed.

(** The rows [getAll] returns are the rows of the table that its WHERE
    clause selects. *)
Lemma getAll_spec (lessonId : string) (table rows : list DbActivity) (a : DbActivity) :
  getAll Executes lessonId table = Returned rows ->
  (In a rows <-> In a table /\ lesson_id a = lessonId /\ coalesce_active a = true).
Proof.
  unfold getAll. intros H. injection H as <-.
  rewrite In_sort_rows, filter_In. unfold selected.
  rewrite andb_true_iff, String.eqb_eq. tauto.
Qed.

Lemma getAll_Returned (db : DbReply) (lessonId : string) (table rows : list DbActivity) :
  getAll db lessonId table = Returned rows -> db = Executes.
Proof. destruct db; [reflexivity | discriminate]. Qed.

Lemma deactivate_fields (activityId : string) (row : DbActivity) :
  activity_id (deactivate activityId row) = activity_id row
  /\ lesson_id (deactivate activityId row) = lesson_id row
  /\ title (deactivate activityId row) = title row
  /\ type (deactivate activityId row) = type row
  /\ body_data (deactivate activityId row) = body_data row
  /\ order_by (deactivate activityId row) = order_by row
  /\ is_summative (deactivate activityId row) = is_summative row
  /\ notes (deactivate activityId row) = notes row
  /\ active (deactivate activityId row)
     = if String.eqb (activity_id row) activityId then Some false else active row.
Proof.
  unfold deactivate. destruct (String.eqb (activity_id row) activityId);
    simpl; repeat split; reflexivity.
Qed.

Lemma lookup_map_deactivate (activityId : string) (table : list DbActivity) (i : nat) :
  List.map (deactivate activityId) table !! i = deactivate activityId <$> table !! i.
Proof.
  revert i. induction table as [| a rest IH]; intros [| i]; simpl; try reflexivity.
  apply IH.
Qed.

(** C9. [delete] keeps every row in its place and changes no field but
    [active], which it sets to false on the rows with the given id and leaves
    alone on the others; and in every state of the table a row whose [active]
    is false is in no result of [getAll], so after the delete no listing
    contains the activity. *)
Theorem delete_is_soft (activityId : string) (table : list DbActivity) :
  let table' := fst (Gateway.delete Executes activityId table) in
  List.length table' = List.length table
  /\ (forall (i : nat) (row : DbActivity), table !! i = Some row ->
        exists row', table' !! i = Some row'
          /\ activity_id row' = activity_id row
          /\ lesson_id row' = lesson_id row
          /\ title row' = title row
          /\ type row' = type row
          /\ body_data row' = body_data row
          /\ order_by row' = order_by row
          /\ is_summative row' = is_summative row
          /\ notes row' = notes row
          /\ active row'
             = if String.eqb (activity_id row) activityId then Some false else active row)
  /\ (forall (db : DbReply) (lessonId : string) (state rows : list DbActivity)
             (a : DbActivity),
        getAll db lessonId state = Returned rows -> In a rows -> active a <> Some false)
  /\ (forall (db : DbReply) (lessonId : string) (rows : list DbActivity) (a : DbActivity),
        getAll db lessonId table' = Returned rows -> In a rows ->
        activity_id a <> activityId).
Proof.
  simpl. split; [apply length_map |]. split; [| split].
  - intros i row Hrow. exists (deactivate activityId row).
    split; [rewrite lookup_map_deactivate, Hrow; reflexivity |].
    apply deactivate_fields.
  - intros db lessonId state rows a Hget Hin Hactive.
    pose proof (getAll_Returned _ _ _ _ Hget) as ->.
    apply (getAll_spec _ _ _ a Hget) in Hin as (_ & _ & Hc).
    unfold coalesce_active in Hc. rewrite Hactive in Hc. discriminate.
  - intros db lessonId rows a Hget Hin Hid.
    pose proof (getAll_Returned _ _ _ _ Hget) as ->.
    apply (getAll_spec _ _ _ a Hget) in Hin as (Hin & _ & Hc).
    apply in_map_iff in Hin as (b & <- & _).
    destruct (deactivate_fields activityId b) as (Hi & _ & _ & _ & _ & _ & _ & _ & Ha).
    rewrite Hi in Hid. rewrite <- String.eqb_eq in Hid. rewrite Hid in Ha.
    unfold coalesce_active in Hc. rewrite Ha in Hc. discriminate.
Qed.

(** Two activities of lesson "L1"; the first is deleted and drops out of the
    listing, the row stays in the table. *)
Lemma delete_is_soft_witness :
  let q1 := mkActivity "a1" "L1" "Q1" "text" (JObj [("text", JStr "one")])
              (Some 1%Z) (Some true) false None in
  let q2 := mkActivity "a2" "L1" "Q2" "text" (JObj [("text", JStr "two")])
              (Some 2%Z) None false None in
  let table' := fst (Gateway.delete Executes "a1" [q1; q2]) in
  table' = [mkActivity "a1" "L1" "Q1" "text" (JObj [("text", JStr "one")])
              (Some 1%Z) (Some false) false None; q2]
  /\ getAll Executes "L1" table' = Returned [q2]
  /\ List.length table' = 2%nat.
Proof.
  intros q1 q2 table'.
  split; [reflexivity |]. split; [reflexivity |].
  exact (proj1 (delete_is_soft "a1" [q1; q2])).
Defined.

(** *** After a delete, through later writes *)

Lemma delete_all_inactive (activityId : string) (table : list DbActivity) :
  all_inactive activityId (fst (Gateway.delete Executes activityId table)).
Proof.
  simpl. apply Forall_map, List.Forall_forall. intros a _ Hid.
  destruct (deactivate_fields activityId a) as (Hi & _ & _ & _ & _ & _ & _ & _ & Ha).
  rewrite Hi in Hid. rewrite Ha. apply String.eqb_eq in Hid. rewrite Hid. reflexivity.
Qed.

Lemma bulk_insert_all_inactive (activityId lessonId : string)
    (activities : list (CreateActivityInput * (DbReply * string)))
    (acc : list DbActivity * Outcome (list DbActivity)) :
  ~ In activityId (List.map (fun item => snd (snd item)) activities) ->
  all_inactive activityId (fst acc) ->
  all_inactive activityId (fst (fold_left (bulk_insert lessonId) activities acc)).
Proof.
  revert acc. induction activities as [| item rest IH]; intros acc Hfresh Hacc.
  - exact Hacc.
  - simpl in Hfresh |- *. apply IH; [tauto |].
    unfold bulk_insert. destruct acc as [table [created_rows | message]]; [| exact Hacc].
    destruct (fst (snd item)); [| exact Hacc].
    simpl in Hacc |- *. apply Forall_app. split; [exact Hacc |].
    constructor; [| constructor]. simpl. intros E. exfalso. apply Hfresh. left. exact E.
Qed.

(** A later write keeps the rows of a deleted id inactive, as long as the
    store gives that id to no new row. *)
Lemma run_write_all_inactive (activityId : string) (w : GatewayWrite)
    (table : list DbActivity) :
  ~ In activityId (generated_ids w) ->
  all_inactive activityId table ->
  all_inactive activityId (run_write table w).
Proof.
  intros Hfresh Hinv.
  destruct w as [db gid input | lessonId activities | db id' u | db id']; simpl.
  - destruct db; simpl; [| exact Hinv].
    apply Forall_app. split; [exact Hinv |].
    constructor; [| constructor]. simpl. intros E. exfalso. apply Hfresh. left. exact E.
  - apply (bulk_insert_all_inactive activityId lessonId activities (table, Returned []));
      assumption.
  - unfold update. destruct (no_fields u); [exact Hinv |].
    destruct db; simpl; [| exact Hinv].
    apply Forall_map. eapply List.Forall_impl; [| exact Hinv].
    intros a Ha. unfold apply_updates.
    destruct (String.eqb (activity_id a) id'); simpl; exact Ha.
  - destruct db; simpl; [| exact Hinv].
    apply Forall_map. eapply List.Forall_impl; [| exact Hinv].
    intros a Ha Hid.
    destruct (deactivate_fields id' a) as (Hi & _ & _ & _ & _ & _ & _ & _ & Hact).
    rewrite Hi in Hid. rewrite Hact.
    destruct (String.eqb (activity_id a) id'); [reflexivity | exact (Ha Hid)].
Qed.

Lemma run_writes_all_inactive (activityId : string) (ws : list GatewayWrite)
    (table : list DbActivity) :
  Forall (fun w => ~ In activityId (generated_ids w)) ws ->
  all_inactive activityId table ->
  all_inactive activityId (run_writes ws table).
Proof.
  unfold run_writes. revert table.
  induction ws as [| w ws IH]; intros table Hfresh Hinv; [exact Hinv |].
  inversion Hfresh; subst. simpl. apply IH; [assumption |].
  apply run_write_all_inactive; assumption.
Qed.

(** X30. After [delete], whatever creates, updates and deletes follow, no
    listing of any lesson contains an activity of the deleted id. *)
Lemma deleted_stays_unlisted (activityId : string) (ws : list GatewayWrite)
    (table : list DbActivity) (lessonId : string) (rows : list DbActivity)
    (a : DbActivity) :
  Forall (fun w => ~ In activityId (generated_ids w)) ws ->
  getAll Executes lessonId
    (run_writes ws (fst (Gateway.delete Executes activityId table))) = Returned rows ->
  In a rows ->
  activity_id a <> activityId.
Proof.
  intros Hfresh Hget Hin Hid.
  pose proof (run_writes_all_inactive activityId ws _ Hfresh
                (delete_all_inactive activityId table)) as Hinv.
  apply (getAll_spec _ _ _ a Hget) in Hin as (Hin & _ & Hc).
  unfold all_inactive in Hinv. rewrite List.Forall_forall in Hinv.
  specialize (Hinv a Hin Hid).
  unfold coalesce_active in Hc. rewrite Hinv in Hc. discriminate.
Qed.



End Activities.

(** ** Facts about the schema combinators *)
Section ZodFacts.

Lemma merge_valid (a b : ParseReturn) :
  status (merge a b) = Valid <-> status a = Valid /\ status b = Valid.
Proof.
  unfold merge; simpl. destruct (status a), (status b); simpl;
    split; try discriminate; try tauto; intros [? ?]; discriminate.
Qed.

Lemma merge_all_valid (rs : list ParseReturn) :
  status (merge_all rs) = Valid <-> Forall (fun r => status r = Valid) rs.
Proof.
  induction rs as [| r rs IH].
  - simpl. split; [constructor | reflexivity].
  - change (merge_all (r :: rs)) with (merge r (merge_all rs)).
    rewrite merge_valid, IH. split.
    + intros [? ?]. constructor; assumption.
    + intros H. inversion H; subst. split; assumption.
Qed.

Lemma run_checks_valid {A : Type} (checks : list (Check A)) (x : A) :
  status (run_checks checks x) = Valid <-> Forall (fun c => c x = None) checks.
Proof.
  unfold run_checks. rewrite merge_all_valid, Forall_map.
  apply Forall_iff. intros c. destruct (c x); simpl; split;
    intros; try reflexivity; discriminate.
Qed.

Lemma z_string_valid (checks : list (Check string)) (v : option Json) :
  status (z_string checks v) = Valid
  <-> exists s, v = Some (JStr s) /\ Forall (fun c => c s = None) checks.
Proof.
  unfold z_string. destruct v as [[| b | n | s | l | f] |];
    try (split; [discriminate | intros (s' & E & _); discriminate]).
  rewrite run_checks_valid. split.
  - intros H. exists s. split; [reflexivity | exact H].
  - intros (s' & E & H). injection E as ->. exact H.
Qed.

(** A string has a code unit exactly when it has a byte. *)
Lemma str_length_positive (s : string) :
  (1 <= str_length s)%nat <-> (1 <= String.length s)%nat.
Proof.
  destruct s as [| c rest]; simpl; [tauto |].
  unfold str_length. simpl. unfold units.
  destruct (Nat.leb 240 (nat_of_ascii c) && Nat.ltb (nat_of_ascii c) 248); lia.
Qed.

Lemma min_length_passes (n : nat) (msg s : string) :
  min_length n msg s = None <-> (n <= str_length s)%nat.
Proof.
  unfold min_length. destruct (Nat.ltb_spec (str_length s) n); split;
    intros; try reflexivity; try discriminate; lia.
Qed.

Lemma min_length_1_passes (msg s : string) :
  min_length 1 msg s = None <-> (1 <= String.length s)%nat.
Proof. rewrite min_length_passes. apply str_length_positive. Qed.

Lemma max_length_passes (n : nat) (msg s : string) :
  max_length n msg s = None <-> (str_length s <= n)%nat.
Proof.
  unfold max_length. destruct (Nat.ltb_spec n (str_length s)); split;
    intros; try reflexivity; try discriminate; lia.
Qed.

Lemma parse_items_valid (elem : Schema) (i : nat) (items : list Json) :
  status (merge_all (parse_items elem i items)) = Valid
  <-> Forall (fun x => status (elem (Some x)) = Valid) items.
Proof.
  revert i. induction items as [| x rest IH]; intros i.
  - simpl. split; [constructor | reflexivity].
  - change (merge_all (parse_items elem i (x :: rest)))
      with (merge (under (Index i) (elem (Some x)))
                  (merge_all (parse_items elem (S i) rest))).
    rewrite merge_valid, IH. simpl. split.
    + intros [? ?]. constructor; assumption.
    + intros H. inversion H; subst. split; assumption.
Qed.

Lemma min_items_passes (n : nat) (msg : string) (l : list Json) :
  min_items n msg l = None <-> (n <= List.length l)%nat.
Proof.
  unfold min_items. destruct (Nat.ltb_spec (List.length l) n); split;
    intros; try reflexivity; try discriminate; lia.
Qed.

Lemma max_items_passes (n : nat) (msg : string) (l : list Json) :
  max_items n msg l = None <-> (List.length l <= n)%nat.
Proof.
  unfold max_items. destruct (Nat.ltb_spec n (List.length l)); split;
    intros; try reflexivity; try discriminate; lia.
Qed.

Lemma z_array_valid (elem : Schema) (checks : list (Check (list Json))) (v : option Json) :
  status (z_array elem checks v) = Valid
  <-> exists items, v = Some (JArr items)
        /\ Forall (fun c => c items = None) checks
        /\ Forall (fun x => status (elem (Some x)) = Valid) items.
Proof.
  unfold z_array. destruct v as [[| b | n | s | l | f] |];
    try (split; [discriminate | intros (l' & E & _); discriminate]).
  rewrite merge_valid, run_checks_valid, parse_items_valid. split.
  - intros [H1 H2]. exists l. auto.
  - intros (l' & E & H1 & H2). injection E as ->. auto.
Qed.

Lemma z_object_valid (shape : list (string * Schema)) (v : option Json) :
  status (z_object shape v) = Valid
  <-> exists fields, v = Some (JObj fields)
        /\ Forall (fun ks => status (snd ks (lookup_field (fst ks) fields)) = Valid) shape.
Proof.
  unfold z_object. destruct v as [[| b | n | s | l | f] |];
    try (split; [discriminate | intros (f' & E & _); discriminate]).
  rewrite merge_all_valid, Forall_map. split.
  - intros H. exists f. split; [reflexivity | exact H].
  - intros (f' & E & H). injection E as ->. exact H.
Qed.

Lemma refine_valid (inner : Schema) (check : Json -> bool) (msg : string) (data : Json) :
  status (refine inner check msg (Some data)) = Valid
  <-> status (inner (Some data)) = Valid /\ check data = true.
Proof.
  unfold refine. destruct (status (inner (Some data))) eqn:E.
  - destruct (check data).
    + rewrite E. tauto.
    + rewrite merge_valid. simpl. split; [intros [_ ?] | intros [_ ?]]; discriminate.
  - destruct (check data).
    + rewrite E. split; [discriminate | intros [? _]; discriminate].
    + rewrite merge_valid. split; [intros [? _] | intros [? _]]; congruence.
  - rewrite E. split; [discriminate | intros [? _]; discriminate].
Qed.

Lemma optional_nullable_string_valid (v : option Json) :
  status (optional (nullable (z_string [])) v) = Valid <-> is_optional_string v.
Proof.
  unfold is_optional_string, is_string, optional, nullable.
  destruct v as [[| b | n | s | l | f] |]; simpl;
    try (split; [discriminate | intros [? | [? | [? ?]]]; discriminate]);
    split; intros; try reflexivity; eauto.
Qed.

Lemma safeParse_success (schema : Schema) (data : Json) :
  safeParse schema data = ParseSuccess <-> status (schema (Some data)) = Valid.
Proof.
  unfold safeParse. destruct (status (schema (Some data)));
    split; intros; try reflexivity; discriminate.
Qed.

Lemma strict_eq_string (a : option Json) (c : string) :
  strict_eq a (Some (JStr c)) = true <-> a = Some (JStr c).
Proof.
  destruct a as [[| b | n | s | l | f] |]; simpl;
    try (split; intros; discriminate).
  rewrite String.eqb_eq. split; congruence.
Qed.

End ZodFacts.

(** ** Acceptance of multiple-choice payloads *)
Section McqAcceptance.

Lemma optional_nullable_nonempty_valid (msg : string) (v : option Json) :
  status (optional (nullable (z_string [min_length 1 msg])) v) = Valid
  <-> is_optional_nonempty_string v.
Proof.
  unfold is_optional_nonempty_string, optional, nullable.
  destruct v as [j |]; [| split; intros; [left |]; reflexivity].
  destruct j as [| b | n | s | l | f];
    try (split; [discriminate | intros [? | [? | (? & ? & _)]]; discriminate]).
  - split; intros; [right; left |]; reflexivity.
  - rewrite z_string_valid. split.
    + intros (s' & E & H). right. right. exists s'. split; [exact E |].
      inversion H; subst. apply min_length_1_passes in H2. exact H2.
    + intros [? | [? | (s' & E & H)]]; try discriminate.
      exists s'. split; [exact E |]. constructor; [| constructor].
      apply min_length_1_passes. exact H.
Qed.

Lemma string_min1_valid (msg : string) (v : option Json) :
  status (z_string [min_length 1 msg] v) = Valid
  <-> exists s, v = Some (JStr s) /\ (1 <= String.length s)%nat.
Proof.
  rewrite z_string_valid. split; intros (s & E & H); exists s; (split; [exact E |]).
  - inversion H; subst. apply min_length_1_passes in H2. exact H2.
  - constructor; [apply min_length_1_passes; exact H | constructor].
Qed.

Lemma McqOptionSchema_valid (o : Json) :
  status (McqOptionSchema (Some o)) = Valid <-> option_accepted o.
Proof.
  unfold McqOptionSchema, option_accepted. rewrite z_object_valid. split.
  - intros (fields & E & H). injection E as ->.
    repeat match goal with H : Forall _ (_ :: _) |- _ => inversion H; clear H; subst end.
    simpl in *.
    split; [eauto |]. split; [eapply (proj1 (string_min1_valid _ _)); eassumption |].
    split; [| apply optional_nullable_string_valid; assumption].
    match goal with H : status (z_string [max_length _ _] _) = Valid |- _ =>
      apply z_string_valid in H; destruct H as (t & Et & Ht) end.
    exists t. split; [exact Et |]. inversion Ht; subst.
    apply max_length_passes in H1. exact H1.
  - intros ((fields & ->) & Hid & (t & Et & Ht) & Himg).
    exists fields. split; [reflexivity |]. simpl in *.
    repeat constructor; simpl.
    + apply (proj2 (string_min1_valid _ _)). exact Hid.
    + apply z_string_valid. exists t. split; [exact Et |].
      constructor; [apply max_length_passes; exact Ht | constructor].
    + apply optional_nullable_string_valid. exact Himg.
Qed.

Lemma correct_option_among_true (payload : Json) (os : list Json) (c : string) :
  get "options" payload = Some (JArr os) ->
  get "correctOptionId" payload = Some (JStr c) ->
  (correct_option_among payload = true
   <-> Exists (fun o => get "id" o = Some (JStr c)) os).
Proof.
  intros Hos Hc. unfold correct_option_among. rewrite Hos, Hc.
  rewrite List.existsb_exists, List.Exists_exists.
  split; intros (o & Hin & H); exists o; (split; [exact Hin |]);
    apply strict_eq_string; exact H.
Qed.

Lemma McqBodySchema_valid (payload : Json) :
  status (McqBodySchema (Some payload)) = Valid <-> mcq_accepted payload.
Proof.
  unfold McqBodySchema, mcq_accepted. rewrite refine_valid, z_object_valid. split.
  - intros [(fields & E & H) Hc]. injection E as ->.
    repeat match goal with H : Forall _ (_ :: _) |- _ => inversion H; clear H; subst end.
    simpl in *.
    match goal with H : status (z_array _ _ _) = Valid |- _ =>
      apply z_array_valid in H; destruct H as (os & Eos & Hlen & Hos) end.
    match goal with H : status (z_string [min_length 1 "correctOptionId is required"] _) = Valid |- _ =>
      apply string_min1_valid in H; destruct H as (c & Ec & Hclen) end.
    split; [eauto |]. split; [eapply (proj1 (string_min1_valid _ _)); eassumption |].
    split; [eapply optional_nullable_nonempty_valid; eassumption |].
    split; [apply optional_nullable_string_valid; assumption |].
    split; [apply optional_nullable_string_valid; assumption |].
    exists os, c. split; [exact Eos |].
    split.
    { inversion Hlen as [| ? ? Hmin Hrest]; subst.
      inversion Hrest as [| ? ? Hmax _]; subst.
      apply min_items_passes in Hmin. apply max_items_passes in Hmax. lia. }
    split.
    { eapply List.Forall_impl; [| exact Hos]. intros o Ho. apply McqOptionSchema_valid. exact Ho. }
    split; [exact Ec |]. split; [exact Hclen |].
    apply (correct_option_among_true (JObj fields) os c); assumption.
  - intros ((fields & ->) & Hq & Hfile & Hurl & Halt & os & c & Eos & Hlen & Hos & Ec & Hclen & Hex).
    split.
    + exists fields. split; [reflexivity |]. simpl in *.
      repeat constructor; simpl.
      * apply (proj2 (string_min1_valid _ _)). exact Hq.
      * apply optional_nullable_nonempty_valid. exact Hfile.
      * apply optional_nullable_string_valid. exact Hurl.
      * apply optional_nullable_string_valid. exact Halt.
      * apply z_array_valid. exists os. split; [exact Eos |]. split.
        -- constructor; [apply min_items_passes; lia |].
           constructor; [apply max_items_passes; lia | constructor].
        -- eapply List.Forall_impl; [| exact Hos]. intros o Ho.
           apply McqOptionSchema_valid. exact Ho.
      * apply (proj2 (string_min1_valid _ _)). eauto.
    + apply (correct_option_among_true (JObj fields) os c); assumption.
Qed.

Lemma validate_mcq_success (payload : Json) :
  validateBodyData "multiple-choice-question" payload = Success
  <-> status (McqBodySchema (Some payload)) = Valid.
Proof.
  rewrite <- safeParse_success. unfold validateBodyData. simpl.
  destruct (safeParse McqBodySchema payload); split; intros; try reflexivity; discriminate.
Qed.

End McqAcceptance.

Section McqClaims.

(** C2, as amended.  [validateBodyData] accepts a multiple-choice payload
    exactly when the payload is an object with a non-empty question string,
    image fields that are absent, null or strings (imageFile non-empty),
    2 to 4 options that are objects with a non-empty string id, a text of at
    most 500 UTF-16 code units (its [length]) and an optional imageUrl, and a
    non-empty string
    correctOptionId equal to the id of one of the options.  In particular a
    payload with 5 options is rejected, and so is one whose correctOptionId
    is the id of none of its options. *)
Theorem validate_mcq_accepts_iff (payload : Json) :
  (validateBodyData mcq_kind payload = Success <-> mcq_accepted payload)
  /\ (forall os, get "options" payload = Some (JArr os) -> List.length os = 5%nat ->
        validateBodyData mcq_kind payload <> Success)
  /\ (forall os c, get "options" payload = Some (JArr os) ->
        get "correctOptionId" payload = Some (JStr c) ->
        Forall (fun o => get "id" o <> Some (JStr c)) os ->
        validateBodyData mcq_kind payload <> Success).
Proof.
  assert (Hiff : validateBodyData mcq_kind payload = Success <-> mcq_accepted payload).
  { unfold mcq_kind. rewrite validate_mcq_success. apply McqBodySchema_valid. }
  split; [exact Hiff |]. split.
  - intros os Hos Hlen Hok. apply Hiff in Hok.
    destruct Hok as (_ & _ & _ & _ & _ & os' & c & Eos & Hl & _).
    rewrite Hos in Eos. injection Eos as <-. lia.
  - intros os c Hos Hc Hnone Hok. apply Hiff in Hok.
    destruct Hok as (_ & _ & _ & _ & _ & os' & c' & Eos & _ & _ & Ec & _ & Hex).
    rewrite Hos in Eos. injection Eos as <-.
    rewrite Hc in Ec. injection Ec as <-.
    apply List.Exists_exists in Hex as (o & Hin & Hid).
    rewrite List.Forall_forall in Hnone. exact (Hnone o Hin Hid).
Qed.

(** The scenario of the specification is accepted; five options are not;
    "zz" against the ids "a" and "b" is not.  An option text of 300 accented
    letters (600 bytes) is within the limit; one of 501 letters is not. *)
Lemma validate_mcq_accepts_iff_witness :
  let body os c := JObj [("question", JStr "2+2?"); ("options", JArr os);
                         ("correctOptionId", JStr c)] in
  let a := mcq_option "a" "3" in
  let b := mcq_option "b" "4" in
  let accented := mcq_option "b" (String.concat "" (List.repeat "é" 300)) in
  let long := mcq_option "b" (String.concat "" (List.repeat "x" 501)) in
  mcq_accepted (body [a; b] "b")
  /\ validateBodyData mcq_kind (body [a; b; a; b; a] "b") <> Success
  /\ validateBodyData mcq_kind (body [a; b] "zz") <> Success
  /\ mcq_accepted (body [a; accented] "b")
  /\ ~ mcq_accepted (body [a; long] "b").
Proof.
  intros body a b accented long. split; [| split; [| split; [| split]]].
  - apply (proj1 (validate_mcq_accepts_iff (body [a; b] "b"))). reflexivity.
  - apply (proj1 (proj2 (validate_mcq_accepts_iff (body [a; b; a; b; a] "b")))
             [a; b; a; b; a]); reflexivity.
  - apply (proj2 (proj2 (validate_mcq_accepts_iff (body [a; b] "zz"))) [a; b] "zz");
      [reflexivity | reflexivity |].
    repeat constructor; discriminate.
  - apply (proj1 (validate_mcq_accepts_iff (body [a; accented] "b"))).
    vm_compute. reflexivity.
  - intros H. apply (proj1 (validate_mcq_accepts_iff (body [a; long] "b"))) in H.
    vm_compute in H. discriminate.
Defined.

(** C2 as the specification words it fails: with an empty question its three
    conditions hold and the payload is rejected. *)
Lemma claimed_mcq_condition_not_sufficient :
  let payload := JObj [("question", JStr "");
                       ("options", JArr [mcq_option "a" "3"; mcq_option "b" "4"]);
                       ("correctOptionId", JStr "a")] in
  claimed_mcq_condition payload
  /\ validateBodyData mcq_kind payload
     = Failure "Invalid body_data for multiple-choice-question: question is required"
  /\ ~ (validateBodyData mcq_kind payload = Success <-> claimed_mcq_condition payload).
Proof.
  intros payload.
  assert (Hc : claimed_mcq_condition payload).
  { exists [mcq_option "a" "3"; mcq_option "b" "4"], "a".
    split; [reflexivity |]. split; [simpl; lia |]. split.
    - constructor; [exists "3"; split; [reflexivity | vm_compute; lia] |].
      constructor; [exists "4"; split; [reflexivity | vm_compute; lia] |].
      constructor.
    - split; [reflexivity |]. constructor. reflexivity. }
  split; [exact Hc |]. split; [reflexivity |].
  intros [_ H]. specialize (H Hc). discriminate.
Qed.

End McqClaims.

(** ** The issues a rejection lists *)
Section McqIssues.

(** *** A parse that raised an issue is not valid *)

Lemma merge_consistent (a b : ParseReturn) :
  consistent a -> consistent b -> consistent (merge a b).
Proof.
  unfold consistent. intros Ha Hb H. apply merge_valid in H as [H1 H2].
  simpl. rewrite (Ha H1), (Hb H2). reflexivity.
Qed.

Lemma merge_all_consistent (rs : list ParseReturn) :
  Forall consistent rs -> consistent (merge_all rs).
Proof.
  induction 1 as [| r rs Hr _ IH]; [intros _; reflexivity |].
  apply merge_consistent; assumption.
Qed.

Lemma under_consistent (item : PathItem) (r : ParseReturn) :
  consistent r -> consistent (under item r).
Proof. unfold consistent. simpl. intros H E. rewrite (H E). reflexivity. Qed.

Lemma run_checks_consistent {A : Type} (checks : list (Check A)) (x : A) :
  consistent (run_checks checks x).
Proof.
  apply merge_all_consistent, Forall_map, List.Forall_forall. intros c _.
  destruct (c x); intros H; [discriminate | reflexivity].
Qed.

Lemma z_string_consistent (checks : list (Check string)) (v : option Json) :
  consistent (z_string checks v).
Proof.
  unfold z_string. destruct v as [[| b | n | s | l | f] |];
    try (intros H; discriminate). apply run_checks_consistent.
Qed.

Lemma optional_nullable_consistent (inner : Schema) (v : option Json) :
  (forall v', consistent (inner v')) -> consistent (optional (nullable inner) v).
Proof.
  intros H. unfold optional, nullable.
  destruct v as [[| b | n | s | l | f] |]; try apply H; intros _; reflexivity.
Qed.

Lemma parse_items_consistent (elem : Schema) (i : nat) (items : list Json) :
  (forall v', consistent (elem v')) -> Forall consistent (parse_items elem i items).
Proof.
  intros H. revert i. induction items as [| x rest IH]; intros i; simpl; constructor.
  - apply under_consistent, H.
  - apply IH.
Qed.

Lemma z_array_consistent (elem : Schema) (checks : list (Check (list Json)))
    (v : option Json) :
  (forall v', consistent (elem v')) -> consistent (z_array elem checks v).
Proof.
  intros H. unfold z_array. destruct v as [[| b | n | s | l | f] |];
    try (intros H'; discriminate).
  apply merge_consistent; [apply run_checks_consistent |].
  apply merge_all_consistent, parse_items_consistent, H.
Qed.

Lemma z_object_consistent (shape : list (string * Schema)) (v : option Json) :
  Forall (fun ks => forall v', consistent (snd ks v')) shape ->
  consistent (z_object shape v).
Proof.
  intros H. unfold z_object. destruct v as [[| b | n | s | l | f] |];
    try (intros H'; discriminate).
  apply merge_all_consistent, Forall_map.
  eapply List.Forall_impl; [| exact H]. intros ks Hks. apply under_consistent, Hks.
Qed.

Lemma refine_consistent (inner : Schema) (check : Json -> bool) (msg : string)
    (v : option Json) :
  consistent (inner v) -> consistent (refine inner check msg v).
Proof.
  intros H. unfold refine.
  destruct (status (inner v)) eqn:E; try exact H;
    destruct v as [data |]; try exact H;
    destruct (check data); try exact H;
    intros H'; apply merge_valid in H' as [_ H']; discriminate.
Qed.

Lemma McqOptionSchema_consistent (v : option Json) : consistent (McqOptionSchema v).
Proof.
  apply z_object_consistent. repeat constructor; simpl; intros v'.
  - apply z_string_consistent.
  - apply z_string_consistent.
  - apply optional_nullable_consistent. apply z_string_consistent.
Qed.

Lemma McqBodySchema_consistent (v : option Json) : consistent (McqBodySchema v).
Proof.
  apply refine_consistent, z_object_consistent. repeat constructor; simpl; intros v'.
  - apply z_string_consistent.
  - apply optional_nullable_consistent. apply z_string_consistent.
  - apply optional_nullable_consistent. apply z_string_consistent.
  - apply optional_nullable_consistent. apply z_string_consistent.
  - apply z_array_consistent. apply McqOptionSchema_consistent.
  - apply z_string_consistent.
Qed.

(** A payload with an issue is rejected, and the reason is the join of the
    messages of all its issues behind the kind's prefix. *)
Lemma validate_mcq_failure (payload : Json) (i : Issue) :
  In i (mcq_issues payload) ->
  validateBodyData "multiple-choice-question" payload
  = Failure ("Invalid body_data for multiple-choice-question: "
             ++ join_issues (mcq_issues payload)).
Proof.
  intros Hin. unfold validateBodyData, safeParse, mcq_issues in *. simpl.
  destruct (status (McqBodySchema (Some payload))) eqn:E; try reflexivity.
  rewrite (McqBodySchema_consistent (Some payload) E) in Hin. destruct Hin.
Qed.

End McqIssues.

Section McqReports.

(** *** Where an issue raised by a part ends up *)

Lemma raised_any_message (p : list PathItem) (c : IssueCode) (m : option string)
    (l : list Issue) :
  raised p c m l -> raised p c None l.
Proof.
  intros (i & Hin & Hp & Hc & _). exists i.
  split; [exact Hin |]. split; [exact Hp |]. split; [exact Hc |].
  intros x E. discriminate.
Qed.

Lemma raised_app_l (p : list PathItem) (c : IssueCode) (m : option string)
    (l l' : list Issue) :
  raised p c m l -> raised p c m (l ++ l')%list.
Proof.
  intros (i & Hin & H). exists i. split; [apply in_or_app; left; exact Hin | exact H].
Qed.

Lemma raised_app_r (p : list PathItem) (c : IssueCode) (m : option string)
    (l l' : list Issue) :
  raised p c m l' -> raised p c m (l ++ l')%list.
Proof.
  intros (i & Hin & H). exists i. split; [apply in_or_app; right; exact Hin | exact H].
Qed.

Lemma merge_all_raised (p : list PathItem) (c : IssueCode) (m : option string)
    (rs : list ParseReturn) (r : ParseReturn) :
  In r rs -> raised p c m (issues r) -> raised p c m (issues (merge_all rs)).
Proof.
  induction rs as [| r' rs IH]; intros Hin Hr; [destruct Hin |].
  change (issues (merge_all (r' :: rs))) with (issues r' ++ issues (merge_all rs))%list.
  destruct Hin as [<- | Hin].
  - apply raised_app_l. exact Hr.
  - apply raised_app_r. apply IH; assumption.
Qed.

Lemma under_raised (item : PathItem) (p : list PathItem) (c : IssueCode)
    (m : option string) (r : ParseReturn) :
  raised p c m (issues r) -> raised (item :: p) c m (issues (under item r)).
Proof.
  intros (i & Hin & Hp & Hc & Hm). exists (nest item i).
  split; [apply (List.in_map (nest item)); exact Hin |].
  split; [simpl; rewrite Hp; reflexivity |]. split; [exact Hc | exact Hm].
Qed.

Lemma run_checks_raised {A : Type} (checks : list (Check A)) (x : A)
    (check : Check A) (i : Issue) :
  In check checks -> check x = Some i ->
  raised (path i) (code i) (Some (message i)) (issues (run_checks checks x)).
Proof.
  intros Hin Hc. unfold run_checks.
  set (f := fun c : Check A => match c x with
                               | Some issue => mkParse Dirty [issue]
                               | None => ok
                               end).
  apply (merge_all_raised _ _ _ _ (f check) (List.in_map f checks check Hin)).
  unfold f. rewrite Hc. exists i. split; [left; reflexivity |].
  split; [reflexivity |]. split; [reflexivity |].
  intros y E. injection E as <-. reflexivity.
Qed.

Lemma z_object_raised (shape : list (string * Schema)) (fields : list (string * Json))
    (k : string) (schema : Schema) (p : list PathItem) (c : IssueCode)
    (m : option string) :
  In (k, schema) shape ->
  raised p c m (issues (schema (lookup_field k fields))) ->
  raised (Key k :: p) c m (issues (z_object shape (Some (JObj fields)))).
Proof.
  intros Hin Hr. unfold z_object.
  set (f := fun ks : string * Schema =>
              under (Key (fst ks)) (snd ks (lookup_field (fst ks) fields))).
  apply (merge_all_raised _ _ _ _ (f (k, schema)) (List.in_map f shape (k, schema) Hin)).
  apply under_raised. exact Hr.
Qed.

Lemma parse_items_raised (elem : Schema) (n : nat) (items : list Json) (j : nat)
    (x : Json) (p : list PathItem) (c : IssueCode) (m : option string) :
  items !! j = Some x ->
  raised p c m (issues (elem (Some x))) ->
  raised (Index (n + j) :: p) c m (issues (merge_all (parse_items elem n items))).
Proof.
  revert n j. induction items as [| y rest IH]; intros n j Hj Hr; [discriminate |].
  change (issues (merge_all (parse_items elem n (y :: rest))))
    with (issues (under (Index n) (elem (Some y)))
          ++ issues (merge_all (parse_items elem (S n) rest)))%list.
  destruct j as [| j]; simpl in Hj.
  - injection Hj as ->. rewrite Nat.add_0_r. apply raised_app_l, under_raised. exact Hr.
  - apply raised_app_r. replace (n + S j)%nat with (S n + j)%nat by lia.
    apply IH; assumption.
Qed.

Lemma z_array_raised_item (elem : Schema) (checks : list (Check (list Json)))
    (items : list Json) (j : nat) (x : Json) (p : list PathItem) (c : IssueCode)
    (m : option string) :
  items !! j = Some x ->
  raised p c m (issues (elem (Some x))) ->
  raised (Index j :: p) c m (issues (z_array elem checks (Some (JArr items)))).
Proof.
  intros Hj Hr. unfold z_array.
  change (issues (merge (run_checks checks items) (merge_all (parse_items elem 0 items))))
    with (issues (run_checks checks items)
          ++ issues (merge_all (parse_items elem 0 items)))%list.
  apply raised_app_r. apply (parse_items_raised elem 0 items j x); assumption.
Qed.

Lemma z_array_raised_check (elem : Schema) (checks : list (Check (list Json)))
    (items : list Json) (check : Check (list Json)) (i : Issue) :
  In check checks -> check items = Some i ->
  raised (path i) (code i) (Some (message i))
    (issues (z_array elem checks (Some (JArr items)))).
Proof.
  intros Hin Hc. unfold z_array.
  change (issues (merge (run_checks checks items) (merge_all (parse_items elem 0 items))))
    with (issues (run_checks checks items)
          ++ issues (merge_all (parse_items elem 0 items)))%list.
  apply raised_app_l. apply (run_checks_raised checks items check); assumption.
Qed.

Lemma refine_keeps (inner : Schema) (check : Json -> bool) (msg : string)
    (v : option Json) (p : list PathItem) (c : IssueCode) (m : option string) :
  raised p c m (issues (inner v)) -> raised p c m (issues (refine inner check msg v)).
Proof.
  intros H. unfold refine.
  destruct (status (inner v)); try exact H;
    destruct v as [data |]; try exact H;
    destruct (check data); try exact H; apply raised_app_l; exact H.
Qed.

Lemma refine_raised (inner : Schema) (check : Json -> bool) (msg : string) (data : Json) :
  status (inner (Some data)) <> Aborted -> check data = false ->
  raised [] Custom (Some msg) (issues (refine inner check msg (Some data))).
Proof.
  intros Hs Hc. unfold refine. rewrite Hc.
  assert (Hr : raised [] Custom (Some msg)
                 (issues (merge (inner (Some data)) (mkParse Dirty [mkIssue Custom [] msg])))).
  { apply raised_app_r. exists (mkIssue Custom [] msg).
    split; [left; reflexivity |]. split; [reflexivity |]. split; [reflexivity |].
    intros y E. injection E as <-. reflexivity. }
  destruct (status (inner (Some data))); [exact Hr | exact Hr | contradiction].
Qed.

(** *** A parse of well-typed data does not abort *)

Lemma merge_not_aborted (a b : ParseReturn) :
  status a <> Aborted -> status b <> Aborted -> status (merge a b) <> Aborted.
Proof. simpl. destruct (status a), (status b); simpl; congruence. Qed.

Lemma merge_all_not_aborted (rs : list ParseReturn) :
  Forall (fun r => status r <> Aborted) rs -> status (merge_all rs) <> Aborted.
Proof.
  induction 1 as [| r rs Hr _ IH]; [discriminate |].
  apply merge_not_aborted; assumption.
Qed.

Lemma run_checks_not_aborted {A : Type} (checks : list (Check A)) (x : A) :
  status (run_checks checks x) <> Aborted.
Proof.
  apply merge_all_not_aborted, Forall_map, List.Forall_forall. intros c _.
  destruct (c x); discriminate.
Qed.

Lemma z_string_not_aborted (checks : list (Check string)) (v : option Json) :
  is_string v -> status (z_string checks v) <> Aborted.
Proof. intros [s ->]. apply run_checks_not_aborted. Qed.

Lemma optional_string_not_aborted (checks : list (Check string)) (v : option Json) :
  is_optional_string v -> status (optional (nullable (z_string checks)) v) <> Aborted.
Proof.
  intros [-> | [-> | [s ->]]]; try discriminate.
  apply (run_checks_not_aborted checks s).
Qed.

Lemma McqOptionSchema_not_aborted (o : Json) :
  option_typed o -> status (McqOptionSchema (Some o)) <> Aborted.
Proof.
  intros ((fields & ->) & Hid & Htext & Himg).
  apply merge_all_not_aborted. repeat constructor; simpl.
  - apply z_string_not_aborted. exact Hid.
  - apply z_string_not_aborted. exact Htext.
  - apply optional_string_not_aborted. exact Himg.
Qed.

Lemma parse_items_not_aborted (elem : Schema) (i : nat) (items : list Json) :
  Forall (fun x => status (elem (Some x)) <> Aborted) items ->
  Forall (fun r => status r <> Aborted) (parse_items elem i items).
Proof.
  intros H. revert i. induction H as [| x rest Hx _ IH]; intros i; simpl; constructor.
  - exact Hx.
  - apply IH.
Qed.

Lemma z_array_not_aborted (elem : Schema) (checks : list (Check (list Json)))
    (items : list Json) :
  Forall (fun x => status (elem (Some x)) <> Aborted) items ->
  status (z_array elem checks (Some (JArr items))) <> Aborted.
Proof.
  intros H. apply merge_not_aborted; [apply run_checks_not_aborted |].
  apply merge_all_not_aborted, parse_items_not_aborted. exact H.
Qed.

Lemma z_object_not_aborted (shape : list (string * Schema)) (fields : list (string * Json)) :
  Forall (fun ks => status (snd ks (lookup_field (fst ks) fields)) <> Aborted) shape ->
  status (z_object shape (Some (JObj fields))) <> Aborted.
Proof. intros H. apply merge_all_not_aborted, Forall_map. exact H. Qed.

Lemma lookup_In (os : list Json) (i : nat) (o : Json) : os !! i = Some o -> In o os.
Proof.
  revert i. induction os as [| x os IH]; intros [| i] H; simpl in H; try discriminate.
  - injection H as ->. left. reflexivity.
  - right. apply (IH i). exact H.
Qed.

Lemma mcq_typed_not_aborted (fields : list (string * Json)) :
  mcq_typed (JObj fields) ->
  status (z_object
     [ ("question", z_string [min_length 1 "question is required"]);
       ("imageFile", optional (nullable (z_string [min_length 1 too_small_1_message])));
       ("imageUrl", optional (nullable (z_string [])));
       ("imageAlt", optional (nullable (z_string [])));
       ("options",
         z_array McqOptionSchema
           [ min_items 2 "At least 2 options are required";
             max_items 4 "At most 4 options are allowed" ]);
       ("correctOptionId", z_string [min_length 1 "correctOptionId is required"]) ]
     (Some (JObj fields))) <> Aborted.
Proof.
  intros (_ & Hq & Hfile & Hurl & Halt & (os & Eos & Hos) & Hc).
  simpl in Hq, Hfile, Hurl, Halt, Eos, Hc.
  apply z_object_not_aborted. repeat constructor; simpl.
  - apply z_string_not_aborted. exact Hq.
  - apply optional_string_not_aborted. exact Hfile.
  - apply optional_string_not_aborted. exact Hurl.
  - apply optional_string_not_aborted. exact Halt.
  - rewrite Eos. apply z_array_not_aborted.
    eapply List.Forall_impl; [| exact Hos].
    intros o Ho. apply McqOptionSchema_not_aborted. exact Ho.
  - apply z_string_not_aborted. exact Hc.
Qed.

(** *** What a field that breaks its rule raises *)

Lemma invalid_type_raised (expected : string) (v : option Json) :
  raised [] InvalidType None (issues (invalid_type expected v)).
Proof.
  eexists. split; [left; reflexivity |].
  split; [reflexivity |]. split; [reflexivity |]. intros x E. discriminate.
Qed.

(** A field that should be a non-empty string: the rule's own issue when it
    is an empty string, a type mismatch when it is no string. *)
Lemma string_min1_raised (custom : string) (v : option Json) :
  ~ (exists s, v = Some (JStr s) /\ (1 <= String.length s)%nat) ->
  (is_string v
   /\ raised [] TooSmall (Some custom) (issues (z_string [min_length 1 custom] v)))
  \/ (~ is_string v
      /\ raised [] InvalidType None (issues (z_string [min_length 1 custom] v))).
Proof.
  intros Hv.
  destruct v as [[| b | n | s | l | f] |];
    try (right; split; [intros [s' E]; discriminate | apply invalid_type_raised]).
  left. split; [eexists; reflexivity |].
  apply (run_checks_raised [min_length 1 custom] s (min_length 1 custom)
           (mkIssue TooSmall [] custom)); [left; reflexivity |].
  unfold min_length. destruct (Nat.ltb_spec (str_length s) 1) as [_ | Hlen]; [reflexivity |].
  exfalso. apply Hv. exists s. split; [reflexivity |].
  apply str_length_positive. exact Hlen.
Qed.

(** A field that should be a string of at most 500 code units. *)
Lemma string_max500_raised (custom : string) (v : option Json) :
  ~ (exists t, v = Some (JStr t) /\ (str_length t <= 500)%nat) ->
  (is_string v
   /\ raised [] TooBig (Some custom) (issues (z_string [max_length 500 custom] v)))
  \/ (~ is_string v
      /\ raised [] InvalidType None (issues (z_string [max_length 500 custom] v))).
Proof.
  intros Hv.
  destruct v as [[| b | n | s | l | f] |];
    try (right; split; [intros [s' E]; discriminate | apply invalid_type_raised]).
  left. split; [eexists; reflexivity |].
  apply (run_checks_raised [max_length 500 custom] s (max_length 500 custom)
           (mkIssue TooBig [] custom)); [left; reflexivity |].
  unfold max_length. destruct (Nat.ltb_spec 500 (str_length s)) as [_ | Hlen]; [reflexivity |].
  exfalso. apply Hv. exists s. split; [reflexivity | exact Hlen].
Qed.

(** A field that may be absent, null or a string. *)
Lemma optional_string_raised (v : option Json) :
  ~ is_optional_string v ->
  raised [] InvalidType None (issues (optional (nullable (z_string [])) v)).
Proof.
  intros Hv. unfold is_optional_string, is_string in Hv.
  destruct v as [[| b | n | s | l | f] |]; try apply invalid_type_raised.
  - exfalso. apply Hv. right. left. reflexivity.
  - exfalso. apply Hv. right. right. eexists. reflexivity.
  - exfalso. apply Hv. left. reflexivity.
Qed.

(** A field that may be absent, null or a non-empty string. *)
Lemma optional_nonempty_raised (msg : string) (v : option Json) :
  ~ is_optional_nonempty_string v ->
  (is_string v
   /\ raised [] TooSmall (Some msg)
        (issues (optional (nullable (z_string [min_length 1 msg])) v)))
  \/ (~ is_optional_string v
      /\ raised [] InvalidType None
           (issues (optional (nullable (z_string [min_length 1 msg])) v))).
Proof.
  intros Hv. unfold is_optional_nonempty_string in Hv.
  destruct v as [[| b | n | s | l | f] |];
    try (right; split;
         [intros [E | [E | [s' E]]]; discriminate | apply invalid_type_raised]).
  - exfalso. apply Hv. right. left. reflexivity.
  - destruct (string_min1_raised msg (Some (JStr s))) as [H | [H _]].
    + intros (s' & E & Hlen). apply Hv. right. right. eauto.
    + left. exact H.
    + exfalso. apply H. eexists. reflexivity.
  - exfalso. apply Hv. left. reflexivity.
Qed.

Tactic Notation "pick" integer(n) := simpl; do n right; left; reflexivity.

(** An issue raised on a field of the payload is among the payload's issues,
    under the name of the field. *)
Lemma mcq_field_raised (fields : list (string * Json)) (k : string) (schema : Schema)
    (p : list PathItem) (c : IssueCode) (m : option string) :
  In (k, schema)
     [ ("question", z_string [min_length 1 "question is required"]);
       ("imageFile", optional (nullable (z_string [min_length 1 too_small_1_message])));
       ("imageUrl", optional (nullable (z_string [])));
       ("imageAlt", optional (nullable (z_string [])));
       ("options",
         z_array McqOptionSchema
           [ min_items 2 "At least 2 options are required";
             max_items 4 "At most 4 options are allowed" ]);
       ("correctOptionId", z_string [min_length 1 "correctOptionId is required"]) ] ->
  raised p c m (issues (schema (lookup_field k fields))) ->
  raised (Key k :: p) c m (mcq_issues (JObj fields)).
Proof.
  intros Hin Hr. unfold mcq_issues, McqBodySchema. apply refine_keeps.
  apply (z_object_raised _ fields k schema); assumption.
Qed.

(** An issue raised on a property of the option at index [i]. *)
Lemma mcq_option_raised (fields ofields : list (string * Json)) (os : list Json)
    (i : nat) (k : string) (schema : Schema)
    (p : list PathItem) (c : IssueCode) (m : option string) :
  lookup_field "options" fields = Some (JArr os) ->
  os !! i = Some (JObj ofields) ->
  In (k, schema)
     [ ("id", z_string [min_length 1 "Option id is required"]);
       ("text", z_string [max_length 500 "Option text must be 500 characters or fewer"]);
       ("imageUrl", optional (nullable (z_string []))) ] ->
  raised p c m (issues (schema (lookup_field k ofields))) ->
  raised (Key "options" :: Index i :: Key k :: p) c m (mcq_issues (JObj fields)).
Proof.
  intros Eos Hi Hin Hr.
  eapply (mcq_field_raised fields "options"); [pick 4 |].
  rewrite Eos. apply (z_array_raised_item _ _ os i (JObj ofields)); [exact Hi |].
  unfold McqOptionSchema. apply (z_object_raised _ ofields k schema); assumption.
Qed.

(** A violated rule about one field is listed: as such, or as the type
    mismatch of its field, and then the payload is not well typed. *)
Lemma violated_rule_raised (fields : list (string * Json)) (r : McqRule) :
  r <> CorrectOptionIdAmongOptions ->
  violates (JObj fields) r ->
  raised (rule_path r) (rule_code r) (rule_message r) (mcq_issues (JObj fields))
  \/ (asks_type r = true
      /\ ~ mcq_typed (JObj fields)
      /\ raised (rule_path r) InvalidType None (mcq_issues (JObj fields))).
Proof.
  intros Hr Hv.
  destruct r as [| | | | | | i | i | i | i | |]; simpl in Hv;
    cbn [rule_path rule_code rule_message asks_type].
  - destruct (string_min1_raised "question is required" _ Hv) as [[_ H] | [Hn H]].
    + left. apply (mcq_field_raised fields "question" _ [] _ _ ltac:(pick 0) H).
    + right. split; [reflexivity |]. split.
      * intros (_ & Hq & _). exact (Hn Hq).
      * apply (mcq_field_raised fields "question" _ [] _ _ ltac:(pick 0) H).
  - destruct (optional_nonempty_raised too_small_1_message _ Hv) as [[_ H] | [Hn H]].
    + left. apply raised_any_message in H.
      apply (mcq_field_raised fields "imageFile" _ [] _ _ ltac:(pick 1) H).
    + right. split; [reflexivity |]. split.
      * intros (_ & _ & Hf & _). exact (Hn Hf).
      * apply (mcq_field_raised fields "imageFile" _ [] _ _ ltac:(pick 1) H).
  - left. apply (mcq_field_raised fields "imageUrl" _ [] _ _ ltac:(pick 2)).
    apply optional_string_raised. exact Hv.
  - left. apply (mcq_field_raised fields "imageAlt" _ [] _ _ ltac:(pick 3)).
    apply optional_string_raised. exact Hv.
  - destruct (lookup_field "options" fields) as [[| b | n | s | os | f] |] eqn:E;
      try (right; split; [reflexivity |]; split;
           [intros (_ & _ & _ & _ & _ & (os' & Eos' & _) & _); simpl in Eos';
            rewrite E in Eos'; discriminate
           | apply (mcq_field_raised fields "options" _ [] _ _ ltac:(pick 4));
             rewrite E; apply invalid_type_raised]).
    left. apply (mcq_field_raised fields "options" _ [] _ _ ltac:(pick 4)). rewrite E.
    apply (z_array_raised_check _ _ os (min_items 2 "At least 2 options are required")
             (mkIssue TooSmall [] "At least 2 options are required"));
      [left; reflexivity |].
    unfold min_items. destruct (Nat.ltb_spec (List.length os) 2); [reflexivity |].
    exfalso. apply Hv. eauto.
  - destruct Hv as (os & Eos & Hlen). simpl in Eos.
    left. apply (mcq_field_raised fields "options" _ [] _ _ ltac:(pick 4)). rewrite Eos.
    apply (z_array_raised_check _ _ os (max_items 4 "At most 4 options are allowed")
             (mkIssue TooBig [] "At most 4 options are allowed"));
      [right; left; reflexivity |].
    unfold max_items. destruct (Nat.ltb_spec 4 (List.length os)); [reflexivity | lia].
  - destruct Hv as (os & o & Eos & Hi & Hno). simpl in Eos.
    left. apply (mcq_field_raised fields "options" _ [Index i] _ _ ltac:(pick 4)).
    rewrite Eos. apply (z_array_raised_item _ _ os i o _ _ _ Hi).
    destruct o as [| b | n | s | l | ofields]; try apply invalid_type_raised.
    exfalso. apply Hno. eauto.
  - destruct Hv as (os & ofields & Eos & Hi & Hid). simpl in Eos.
    destruct (string_min1_raised "Option id is required" _ Hid) as [[_ H] | [Hn H]].
    + left. apply (mcq_option_raised fields ofields os i "id" _ [] _ _ Eos Hi
                     ltac:(pick 0) H).
    + right. split; [reflexivity |]. split.
      * intros (_ & _ & _ & _ & _ & (os' & Eos' & Hos) & _). simpl in Eos'.
        rewrite Eos in Eos'. injection Eos' as <-.
        rewrite List.Forall_forall in Hos.
        destruct (Hos _ (lookup_In os i _ Hi)) as (_ & Hs & _). exact (Hn Hs).
      * apply (mcq_option_raised fields ofields os i "id" _ [] _ _ Eos Hi
                 ltac:(pick 0) H).
  - destruct Hv as (os & ofields & Eos & Hi & Htext). simpl in Eos.
    destruct (string_max500_raised "Option text must be 500 characters or fewer" _ Htext)
      as [[_ H] | [Hn H]].
    + left. apply (mcq_option_raised fields ofields os i "text" _ [] _ _ Eos Hi
                     ltac:(pick 1) H).
    + right. split; [reflexivity |]. split.
      * intros (_ & _ & _ & _ & _ & (os' & Eos' & Hos) & _). simpl in Eos'.
        rewrite Eos in Eos'. injection Eos' as <-.
        rewrite List.Forall_forall in Hos.
        destruct (Hos _ (lookup_In os i _ Hi)) as (_ & _ & Hs & _). exact (Hn Hs).
      * apply (mcq_option_raised fields ofields os i "text" _ [] _ _ Eos Hi
                 ltac:(pick 1) H).
  - destruct Hv as (os & ofields & Eos & Hi & Himg). simpl in Eos.
    left. apply (mcq_option_raised fields ofields os i "imageUrl" _ [] _ _ Eos Hi
                   ltac:(pick 2)).
    apply optional_string_raised. exact Himg.
  - destruct (string_min1_raised "correctOptionId is required" _ Hv) as [[_ H] | [Hn H]].
    + left. apply (mcq_field_raised fields "correctOptionId" _ [] _ _ ltac:(pick 5) H).
    + right. split; [reflexivity |]. split.
      * intros (_ & _ & _ & _ & _ & _ & Hc). exact (Hn Hc).
      * apply (mcq_field_raised fields "correctOptionId" _ [] _ _ ltac:(pick 5) H).
  - contradiction.
Qed.

(** On a well-typed payload every violated rule is listed as such, the
    cross-field rule included. *)
Lemma violated_rule_raised_typed (payload : Json) (r : McqRule) :
  mcq_typed payload -> violates payload r ->
  raised (rule_path r) (rule_code r) (rule_message r) (mcq_issues payload).
Proof.
  intros Ht Hv.
  destruct (match r with CorrectOptionIdAmongOptions => true | _ => false end) eqn:Er.
  - destruct r; try discriminate.
    pose proof Ht as ((fields & ->) & _ & _ & _ & _ & (os & Eos & _) & [c Hc]).
    unfold mcq_issues, McqBodySchema. apply refine_raised.
    + apply mcq_typed_not_aborted. exact Ht.
    + destruct (correct_option_among (JObj fields)) eqn:E; [| reflexivity].
      exfalso. apply Hv. exists os, c. split; [exact Eos |]. split; [exact Hc |].
      apply (correct_option_among_true (JObj fields) os c Eos Hc). exact E.
  - pose proof Ht as ((fields & ->) & _).
    destruct (violated_rule_raised fields r) as [H | (_ & Hn & _)];
      [intros ->; discriminate | exact Hv | exact H | contradiction].
Qed.

(** A payload that violates a rule is not accepted. *)
Lemma violates_not_accepted (payload : Json) (r : McqRule) :
  violates payload r -> ~ mcq_accepted payload.
Proof.
  intros Hv (_ & Hq & Hfile & Hurl & Halt & os & c & Eos & Hlen & Hos & Ec & Hclen & Hex).
  rewrite List.Forall_forall in Hos.
  destruct r as [| | | | | | i | i | i | i | |]; simpl in Hv.
  - apply Hv. exact Hq.
  - apply Hv. exact Hfile.
  - apply Hv. exact Hurl.
  - apply Hv. exact Halt.
  - apply Hv. exists os. split; [exact Eos | lia].
  - destruct Hv as (os' & Eos' & Hlen'). rewrite Eos in Eos'. injection Eos' as <-. lia.
  - destruct Hv as (os' & o & Eos' & Hi & Hn).
    rewrite Eos in Eos'. injection Eos' as <-.
    destruct (Hos o (lookup_In os i o Hi)) as (Ho & _). exact (Hn Ho).
  - destruct Hv as (os' & ofields & Eos' & Hi & Hn).
    rewrite Eos in Eos'. injection Eos' as <-.
    destruct (Hos _ (lookup_In os i _ Hi)) as (_ & Hid & _). exact (Hn Hid).
  - destruct Hv as (os' & ofields & Eos' & Hi & Hn).
    rewrite Eos in Eos'. injection Eos' as <-.
    destruct (Hos _ (lookup_In os i _ Hi)) as (_ & _ & Htext & _). exact (Hn Htext).
  - destruct Hv as (os' & ofields & Eos' & Hi & Hn).
    rewrite Eos in Eos'. injection Eos' as <-.
    destruct (Hos _ (lookup_In os i _ Hi)) as (_ & _ & _ & Himg). exact (Hn Himg).
  - apply Hv. eauto.
  - apply Hv. exists os, c. auto.
Qed.

(** A rejection is one [Failure] whose reason is the prefix of the kind and
    the joined messages. *)
Lemma validate_mcq_rejection (payload : Json) :
  validateBodyData mcq_kind payload <> Success ->
  validateBodyData mcq_kind payload
  = Failure ("Invalid body_data for multiple-choice-question: "
             ++ join_issues (mcq_issues payload)).
Proof.
  unfold validateBodyData, safeParse, mcq_issues, mcq_kind. simpl.
  destruct (status (McqBodySchema (Some payload))); intros H;
    [contradiction | reflexivity | reflexivity].
Qed.

(** An issue lists one rule at most. *)
Lemma lists_one_rule (r1 r2 : McqRule) (issue : Issue) :
  lists r1 issue -> lists r2 issue -> r1 = r2.
Proof.
  unfold lists, lists_as_such.
  intros [(Hp1 & Hc1 & _) | (Hp1 & Hc1 & Ha1)] [(Hp2 & Hc2 & _) | (Hp2 & Hc2 & Ha2)];
    rewrite Hp1 in Hp2; rewrite Hc1 in Hc2;
    destruct r1, r2; simpl in *; congruence.
Qed.

(** C3, as amended.  A multiple-choice payload (an object) that violates a
    rule is rejected with one reason: the kind's prefix followed by the
    messages of all issues of the parse, joined with "; ".  Every violated
    rule about a single field has an issue of its own among them, about the
    value the rule is about: the rule's own issue, with the message the
    schema gives the rule, or the type mismatch of that value when it is
    missing or of another type.  No issue serves two rules.  The cross-field
    rule (correctOptionId among the option ids) has its issue when every
    field has the type its schema names, and then every violated rule is
    listed as such. *)
Theorem mcq_rejection_lists_violated_rules
    (fields : list (string * Json)) (r : McqRule) :
  violates (JObj fields) r ->
  validateBodyData mcq_kind (JObj fields)
    = Failure ("Invalid body_data for multiple-choice-question: "
               ++ join_issues (mcq_issues (JObj fields)))
  /\ (forall r', r' <> CorrectOptionIdAmongOptions -> violates (JObj fields) r' ->
        exists issue, In issue (mcq_issues (JObj fields)) /\ lists r' issue)
  /\ (forall r1 r2 issue, lists r1 issue -> lists r2 issue -> r1 = r2)
  /\ (mcq_typed (JObj fields) ->
      forall r', violates (JObj fields) r' ->
        exists issue, In issue (mcq_issues (JObj fields)) /\ lists_as_such r' issue).
Proof.
  intros Hv. split; [| split; [| split]].
  - apply validate_mcq_rejection. intros Hok.
    apply (violates_not_accepted (JObj fields) r Hv).
    apply McqBodySchema_valid, validate_mcq_success. exact Hok.
  - intros r' Hr' Hv'.
    destruct (violated_rule_raised fields r' Hr' Hv')
      as [(i & Hin & H) | (Ha & _ & (i & Hin & Hp & Hc & _))].
    + exists i. split; [exact Hin |]. left. exact H.
    + exists i. split; [exact Hin |]. right. auto.
  - exact lists_one_rule.
  - intros Ht r' Hv'.
    destruct (violated_rule_raised_typed (JObj fields) r' Ht Hv') as (i & Hin & H).
    exists i. split; [exact Hin | exact H].
Qed.

(** The example of the specification: five options and a correctOptionId that
    matches none of them; both rules have their issue, and both messages are
    in the one reason. *)
Lemma mcq_rejection_lists_violated_rules_witness :
  let o := mcq_option "a" "3" in
  let fields := [("question", JStr "2+2?");
                 ("options", JArr [o; o; o; o; o]);
                 ("correctOptionId", JStr "zz")] in
  validateBodyData mcq_kind (JObj fields)
    = Failure "Invalid body_data for multiple-choice-question: At most 4 options are allowed; correctOptionId must match the id of one of the provided options"
  /\ mcq_issues (JObj fields)
     = [ mkIssue TooBig [Key "options"] "At most 4 options are allowed";
         mkIssue Custom []
           "correctOptionId must match the id of one of the provided options" ]
  /\ (exists issue, In issue (mcq_issues (JObj fields))
                    /\ lists_as_such AtMostFourOptions issue)
  /\ (exists issue, In issue (mcq_issues (JObj fields))
                    /\ lists_as_such CorrectOptionIdAmongOptions issue).
Proof.
  intros o fields.
  assert (Ht : mcq_typed (JObj fields)).
  { split; [eexists; reflexivity |]. split; [eexists; reflexivity |].
    split; [left; reflexivity |]. split; [left; reflexivity |].
    split; [left; reflexivity |]. split; [| eexists; reflexivity].
    eexists. split; [reflexivity |].
    repeat constructor; try (eexists; reflexivity); left; reflexivity. }
  assert (Hv : violates (JObj fields) AtMostFourOptions).
  { eexists. split; [reflexivity |]. simpl. lia. }
  assert (Hv' : violates (JObj fields) CorrectOptionIdAmongOptions).
  { intros (os & c & E & Ec & Hex). injection E as <-. injection Ec as <-.
    apply List.Exists_exists in Hex as (x & Hin & Hx).
    simpl in Hin. decompose [or] Hin; subst; try discriminate; contradiction. }
  destruct (mcq_rejection_lists_violated_rules fields AtMostFourOptions Hv)
    as (Hfail & _ & _ & Hall).
  split; [exact Hfail |]. split; [reflexivity |].
  split; apply (Hall Ht); assumption.
Defined.

(** C3 as the specification words it fails: a payload without a question and
    with a correctOptionId that matches no option violates both rules, and
    the one issue of the rejection lists the first only. *)
Lemma missing_field_hides_unmatched_id :
  let payload := JObj [("options", JArr [mcq_option "a" "3"; mcq_option "b" "4"]);
                       ("correctOptionId", JStr "zz")] in
  violates payload QuestionRequired
  /\ violates payload CorrectOptionIdAmongOptions
  /\ validateBodyData mcq_kind payload
     = Failure ("Invalid body_data for multiple-choice-question: "
                ++ invalid_type_message "string" None)
  /\ mcq_issues payload
     = [mkIssue InvalidType [Key "question"] (invalid_type_message "string" None)]
  /\ ~ exists issue, In issue (mcq_issues payload)
                     /\ lists CorrectOptionIdAmongOptions issue.
Proof.
  intros payload. split; [| split; [| split; [| split]]].
  - intros (q & E & _). discriminate.
  - intros (os & c & E & Ec & Hex). injection E as <-. injection Ec as <-.
    apply List.Exists_exists in Hex as (x & Hin & Hx).
    simpl in Hin. decompose [or] Hin; subst; try discriminate; contradiction.
  - reflexivity.
  - reflexivity.
  - intros (issue & [<- | []] & [(Hp & _) | (_ & _ & Ha)]); discriminate.
Qed.

End McqReports.

(* ===================================================================== *)
(** * Further properties of the boundary *)
(* ===================================================================== *)

(** ** Sessions across requests *)
Section SessionLifecycle.
Import Auth Mux.

Lemma resolve_none (token : option string) (reg : gmap string Session) :
  token = None \/ token = Some "" \/ (exists t, token = Some t /\ reg !! t = None) ->
  resolve token reg = None.
Proof.
  intros [-> | [-> | (t & -> & H)]]; try reflexivity.
  apply resolve_unknown. exact H.
Qed.

(** X1. The poll and close routes answer 400 and leave the state as it was
    whenever the token header is absent, empty or names no live session. *)
Theorem poll_and_close_need_live_session
    (token : option string) (call : EngineCall) (st : State) :
  token = None \/ token = Some "" \/ (exists t, token = Some t /\ sessions st !! t = None) ->
  get_mcp token call st = (st, JsonError 400 "Invalid or missing session ID")
  /\ delete_mcp token call st = (st, JsonError 400 "Invalid or missing session ID").
Proof.
  intros H. unfold get_mcp, delete_mcp. rewrite (resolve_none _ _ H). split; reflexivity.
Qed.

Lemma poll_and_close_need_live_session_witness :
  let live := mkSession 0 (mkTransport 0 (Some "tok-a")) in
  let st := mkState {[ "tok-a" := live ]} 1 in
  let call := mkCall None false (Responds 200) in
  get_mcp (Some "tok-b") call st = (st, JsonError 400 "Invalid or missing session ID")
  /\ delete_mcp (Some "tok-b") call st = (st, JsonError 400 "Invalid or missing session ID").
Proof.
  intros live st call. apply poll_and_close_need_live_session.
  right. right. exists "tok-b". split; reflexivity.
Defined.

(** X2. Once the close route has handled a live token and the engine has
    replied, the token is gone: it is absent from the registry, and the poll
    and close routes answer 400 for it, whatever the engine did during the
    close. *)
Theorem closed_session_is_gone
    (st : State) (t : string) (s : Session) (call call' : EngineCall) (status : nat) :
  t <> "" ->
  sessions st !! t = Some s ->
  result call = Responds status ->
  let st' := fst (delete_mcp (Some t) call st) in
  sessions st' !! t = None
  /\ get_mcp (Some t) call' st' = (st', JsonError 400 "Invalid or missing session ID")
  /\ delete_mcp (Some t) call' st' = (st', JsonError 400 "Invalid or missing session ID").
Proof.
  intros Ht Hs Hr st'.
  assert (Hgone : sessions st' !! t = None).
  { unfold st', delete_mcp, resolve. rewrite (truthy_string_Some t Ht), Hs.
    unfold handleRequest. rewrite Hr. simpl. apply lookup_delete_eq. }
  split; [exact Hgone |].
  apply poll_and_close_need_live_session. right. right. exists t. auto.
Qed.

Lemma closed_session_is_gone_witness :
  let live := mkSession 0 (mkTransport 0 (Some "tok-a")) in
  let st := mkState {[ "tok-a" := live ]} 1 in
  let st' := fst (delete_mcp (Some "tok-a") (mkCall None true (Responds 200)) st) in
  sessions st' !! "tok-a" = None
  /\ get_mcp (Some "tok-a") (mkCall None false (Responds 200)) st'
     = (st', JsonError 400 "Invalid or missing session ID").
Proof.
  intros live st st'.
  destruct (closed_session_is_gone st "tok-a" live (mkCall None true (Responds 200))
              (mkCall None false (Responds 200)) 200) as (H1 & H2 & _);
    [discriminate | reflexivity | reflexivity |].
  split; [exact H1 | exact H2].
Defined.

(** X3. A request on a live session whose engine call starts no new session
    changes no other token's entry, on any of the three routes: it can only
    evict its own token. *)
Theorem request_leaves_other_sessions
    (m : Method) (st : State) (t t' : string) (s : Session) (call : EngineCall) :
  t <> "" ->
  sessions st !! t = Some s ->
  sessionId (transport s) = Some t ->
  initializes call = None ->
  t' <> t ->
  sessions (fst (handler m (Some t) call st)) !! t' = sessions st !! t'.
Proof.
  intros Ht Hs Hid Hinit Hne.
  assert (Hreq : forall reg : gmap string Session,
             fst (handleRequest call s reg) !! t' = reg !! t').
  { intros reg. unfold handleRequest. rewrite Hinit. simpl.
    destruct (closes call); [| reflexivity].
    unfold onclose. rewrite Hid, (truthy_string_Some t Ht).
    apply lookup_delete_ne. congruence. }
  destruct m; simpl; unfold post_mcp, get_mcp, delete_mcp, resolve;
    rewrite (truthy_string_Some t Ht), Hs;
    specialize (Hreq (sessions st));
    destruct (handleRequest call s (sessions st)) as [reg r]; simpl in Hreq |- *;
    try exact Hreq.
  destruct r; simpl; [| exact Hreq].
  unfold evict. rewrite lookup_delete_ne by congruence. exact Hreq.
Qed.

Lemma request_leaves_other_sessions_witness :
  let a := mkSession 0 (mkTransport 0 (Some "tok-a")) in
  let b := mkSession 1 (mkTransport 1 (Some "tok-b")) in
  let st := mkState (<["tok-a" := a]> {[ "tok-b" := b ]}) 2 in
  sessions (fst (handler DELETE (Some "tok-a") (mkCall None true (Responds 200)) st))
    !! "tok-b" = Some b.
Proof.
  intros a b st.
  rewrite (request_leaves_other_sessions DELETE st "tok-a" "tok-b" a
             (mkCall None true (Responds 200)));
    [reflexivity | discriminate | reflexivity | reflexivity | reflexivity | discriminate].
Defined.

Lemma keyed_evict (reg : gmap string Session) (t : string) :
  keyed reg -> keyed (evict t reg).
Proof.
  intros H t' s' Hl. unfold evict in Hl.
  apply lookup_delete_Some in Hl as [_ Hl]. exact (H t' s' Hl).
Qed.

Lemma keyed_onclose (reg : gmap string Session) (tr : Transport) :
  keyed reg -> keyed (onclose tr reg).
Proof.
  intros H. unfold onclose. destruct (sessionId tr) as [id |]; [| exact H].
  destruct (truthy_string (Some id)); [apply keyed_evict |]; exact H.
Qed.

Lemma refs_below_evict (n : nat) (reg : gmap string Session) (t : string) :
  refs_below n reg -> refs_below n (evict t reg).
Proof.
  intros H t' s' Hl. unfold evict in Hl.
  apply lookup_delete_Some in Hl as [_ Hl]. exact (H t' s' Hl).
Qed.

Lemma refs_below_onclose (n : nat) (reg : gmap string Session) (tr : Transport) :
  refs_below n reg -> refs_below n (onclose tr reg).
Proof.
  intros H. unfold onclose. destruct (sessionId tr) as [id |]; [| exact H].
  destruct (truthy_string (Some id)); [apply refs_below_evict |]; exact H.
Qed.

(** No entry holds a transport that has just been constructed, so the id the
    handshake assigns to it shows under no key yet. *)
Lemma assign_sessionId_fresh (n : nat) (id : string) (reg : gmap string Session) :
  refs_below n reg -> assign_sessionId n id reg = reg.
Proof.
  intros H. apply map_eq. intros t. unfold assign_sessionId. rewrite lookup_fmap.
  destruct (reg !! t) as [e |] eqn:E; [| reflexivity]. simpl. f_equal.
  specialize (H t e E).
  destruct (Nat.eqb_spec (transport_ref (transport e)) n); [lia | reflexivity].
Qed.

(** A handshake on a registered session shows under the old key as well: the
    entry filed under "a" carries the id "b" afterwards. *)
Lemma reinitialised_session_under_old_key :
  let a := mkSession 0 (mkTransport 0 (Some "a")) in
  let reg := fst (handleRequest (mkCall (Some "b") false (Responds 200)) a {[ "a" := a ]}) in
  reg !! "a" = Some (mkSession 0 (mkTransport 0 (Some "b")))
  /\ reg !! "b" = Some (mkSession 0 (mkTransport 0 (Some "b")))
  /\ ~ keyed reg.
Proof.
  intros a reg. split; [reflexivity |]. split; [reflexivity |].
  intros H. specialize (H "a" (mkSession 0 (mkTransport 0 (Some "b"))) eq_refl).
  discriminate.
Qed.

Lemma invariant_handleRequest_live (n : nat) (call : EngineCall) (s : Session)
    (reg : gmap string Session) :
  initializes call = None ->
  keyed reg /\ refs_below n reg ->
  keyed (fst (handleRequest call s reg)) /\ refs_below n (fst (handleRequest call s reg)).
Proof.
  intros Hinit [Hk Hr]. unfold handleRequest. rewrite Hinit. simpl.
  destruct (closes call); [| split; assumption].
  split; [apply keyed_onclose | apply refs_below_onclose]; assumption.
Qed.

Lemma invariant_handleRequest_fresh (n : nat) (call : EngineCall)
    (reg : gmap string Session) :
  keyed reg /\ refs_below n reg ->
  let fresh := mkSession n (mkTransport n None) in
  keyed (fst (handleRequest call fresh reg))
  /\ refs_below (S n) (fst (handleRequest call fresh reg)).
Proof.
  intros [Hk Hr] fresh. unfold handleRequest. simpl.
  assert (H1 : keyed (match initializes call with
                      | Some id => onsessioninitialized id fresh (assign_sessionId n id reg)
                      | None => reg
                      end)
               /\ refs_below (S n) (match initializes call with
                      | Some id => onsessioninitialized id fresh (assign_sessionId n id reg)
                      | None => reg
                      end)).
  { destruct (initializes call) as [id |].
    - rewrite (assign_sessionId_fresh n id reg Hr). unfold onsessioninitialized. split.
      + intros t' s' Hl.
        apply lookup_insert_Some in Hl as [[<- <-] | [_ Hl]];
          [reflexivity | exact (Hk t' s' Hl)].
      + intros t' s' Hl.
        apply lookup_insert_Some in Hl as [[<- <-] | [_ Hl]];
          [simpl; lia | specialize (Hr t' s' Hl); lia].
    - split; [exact Hk |]. intros t' s' Hl. specialize (Hr t' s' Hl). lia. }
  destruct H1 as [H1 H2].
  destruct (closes call); [| split; assumption].
  split; [apply keyed_onclose | apply refs_below_onclose]; assumption.
Qed.

Lemma invariant_mcp_route (serviceKey : string) (m : Method) (h : Headers)
    (call : EngineCall) (st : State) :
  (resolve (mcp_session_id h) (sessions st) <> None -> initializes call = None) ->
  keyed (sessions st) /\ refs_below (created st) (sessions st) ->
  keyed (sessions (fst (mcp_route serviceKey m h call st)))
  /\ refs_below (created (fst (mcp_route serviceKey m h call st)))
       (sessions (fst (mcp_route serviceKey m h call st))).
Proof.
  intros Hinit H. unfold mcp_route.
  destruct (validateMcpKey serviceKey h); [exact H |].
  destruct m; simpl; unfold post_mcp, get_mcp, delete_mcp;
    destruct (resolve (mcp_session_id h) (sessions st)) as [[t s] |]; try exact H.
  - pose proof (invariant_handleRequest_live (created st) call s (sessions st)
                  (Hinit ltac:(discriminate)) H) as Hk.
    destruct (handleRequest call s (sessions st)); exact Hk.
  - pose proof (invariant_handleRequest_fresh (created st) call (sessions st) H) as Hk.
    cbv zeta in Hk.
    destruct (handleRequest call _ (sessions st)); exact Hk.
  - pose proof (invariant_handleRequest_live (created st) call s (sessions st)
                  (Hinit ltac:(discriminate)) H) as Hk.
    destruct (handleRequest call s (sessions st)); exact Hk.
  - pose proof (invariant_handleRequest_live (created st) call s (sessions st)
                  (Hinit ltac:(discriminate)) H) as Hk.
    destruct (handleRequest call s (sessions st)) as [reg r]. simpl in Hk.
    destruct r; simpl; [| exact Hk].
    destruct Hk as [Hk Hr]. split; [apply keyed_evict | apply refs_below_evict]; assumption.
Qed.

(** X4. From an empty registry, after any sequence of requests in which the
    engine runs the handshake only on a transport that carries no id yet (a
    request routed to a registered session is given no new id), every
    registered session is filed under the id its own transport carries: the
    close callback of a registered transport evicts that session's entry and
    no other. *)
Theorem registry_stays_keyed (serviceKey : string) (requests : list Request) :
  handshakes_once serviceKey requests (mkState ∅ 0) ->
  keyed (sessions (serve_all serviceKey requests (mkState ∅ 0))).
Proof.
  unfold serve_all.
  assert (H : keyed (sessions (mkState ∅ 0))
              /\ refs_below (created (mkState ∅ 0)) (sessions (mkState ∅ 0))).
  { split; intros t s Hl; discriminate. }
  revert H. generalize (mkState ∅ 0).
  induction requests as [| r requests IH]; intros st H Hrun; [exact (proj1 H) |].
  destruct Hrun as [Hr Hrest]. simpl. apply IH; [| exact Hrest].
  apply invariant_mcp_route; assumption.
Qed.

(** A session is opened under "a", polled, and a second one is opened by a
    request that carries an unknown token. *)
Lemma registry_stays_keyed_witness :
  let key := mkHeaders (Some "Bearer s3cret") None in
  let requests :=
    [ mkRequest POST (key None) (mkCall (Some "a") false (Responds 200));
      mkRequest GET (key (Some "a")) (mkCall None false (Responds 200));
      mkRequest POST (key (Some "gone")) (mkCall (Some "b") false (Responds 200)) ] in
  keyed (sessions (serve_all "s3cret" requests (mkState ∅ 0))).
Proof.
  intros key requests. apply registry_stays_keyed.
  split; [intros H; exfalso; apply H; reflexivity |].
  split; [intros H; reflexivity |].
  split; [intros H; exfalso; apply H; reflexivity |].
  exact I.
Defined.

(** X5. A server/transport pair is constructed by a request exactly when the
    request passes the credential check, is a POST, and carries no token that
    resolves; no other request constructs one. *)
Theorem construction_only_on_unresolved_post
    (serviceKey : string) (m : Method) (h : Headers) (call : EngineCall) (st : State) :
  let st' := fst (mcp_route serviceKey m h call st) in
  (created st' = created st \/ created st' = S (created st))
  /\ (created st' = S (created st)
      <-> validateMcpKey serviceKey h = Next /\ m = POST
          /\ resolve (mcp_session_id h) (sessions st) = None).
Proof.
  unfold mcp_route.
  destruct (validateMcpKey serviceKey h) eqn:Ev; simpl.
  { split; [left; reflexivity |]. split; [lia | intros (Hn & _); discriminate]. }
  destruct m; simpl; unfold post_mcp, get_mcp, delete_mcp, handleRequest;
    destruct (resolve (mcp_session_id h) (sessions st)) as [[t s] |]; simpl;
    try (destruct (result call); simpl);
    (split; [auto |]);
    (split; [try lia; auto | intros (_ & Hm & Hr); try discriminate; reflexivity]).
Qed.

(** X6. A response the boundary writes itself on /mcp is one of four: 401
    Unauthorized, 403 Forbidden, 400 for a missing or unknown session, 500
    when the engine call threw before any header was sent.  None of them is
    logged at level INFO. *)
Theorem own_responses_are_errors
    (serviceKey : string) (m : Method) (h : Headers) (call : EngineCall)
    (st st' : State) (status : nat) (error : string) :
  mcp_route serviceKey m h call st = (st', JsonError status error) ->
  ((status = 401%nat /\ error = "Unauthorized" /\ st' = st)
   \/ (status = 403%nat /\ error = "Forbidden" /\ st' = st)
   \/ (status = 400%nat /\ error = "Invalid or missing session ID" /\ st' = st
       /\ m <> POST)
   \/ (status = 500%nat /\ error = "Internal server error"
       /\ result call = Throws None))
  /\ Boundary.log_level status <> "INFO".
Proof.
  intros H.
  assert (Hcases :
    (status = 401%nat /\ error = "Unauthorized" /\ st' = st)
    \/ (status = 403%nat /\ error = "Forbidden" /\ st' = st)
    \/ (status = 400%nat /\ error = "Invalid or missing session ID" /\ st' = st
        /\ m <> POST)
    \/ (status = 500%nat /\ error = "Internal server error"
        /\ result call = Throws None)).
  { unfold mcp_route, validateMcpKey in H.
    destruct (negb (truthy_string (providedKey h))).
    { injection H as <- <- <-. left. auto. }
    destruct (differs (providedKey h) serviceKey).
    { injection H as <- <- <-. right. left. auto. }
    assert (Hresp : forall r, respond r = JsonError status error ->
              status = 500%nat /\ error = "Internal server error" /\ r = Throws None).
    { intros [n | [n |]] Hr; simpl in Hr; try discriminate.
      injection Hr as <- <-. auto. }
    destruct m; simpl in H; unfold post_mcp, get_mcp, delete_mcp in H;
      destruct (resolve (mcp_session_id h) (sessions st)) as [[t s] |];
      unfold handleRequest in H; simpl in H.
    - injection H as _ Hr. destruct (Hresp _ Hr) as (-> & -> & Hc). right. right. right. auto.
    - injection H as _ Hr. destruct (Hresp _ Hr) as (-> & -> & Hc). right. right. right. auto.
    - injection H as _ Hr. destruct (Hresp _ Hr) as (-> & -> & Hc). right. right. right. auto.
    - injection H as <- <- <-. right. right. left. repeat split; discriminate.
    - destruct (result call) as [n | sent] eqn:Er; simpl in H.
      + discriminate.
      + injection H as _ Hr. destruct (Hresp (Throws sent) Hr) as (-> & -> & Hc).
        rewrite Hc in Er. right. right. right. auto.
    - injection H as <- <- <-. right. right. left. repeat split; discriminate. }
  split; [exact Hcases |].
  destruct Hcases as [(-> & _) | [(-> & _) | [(-> & _) | (-> & _)]]]; discriminate.
Qed.

Lemma own_responses_are_errors_witness :
  let st := mkState ∅ 0 in
  Boundary.log_level 500 <> "INFO"
  /\ mcp_route "s3cret" POST (mkHeaders (Some "Bearer s3cret") None None)
       (mkCall None false (Throws None)) st
     = (mkState ∅ 1, JsonError 500 "Internal server error").
Proof.
  intros st. split; [| reflexivity].
  exact (proj2 (own_responses_are_errors "s3cret" POST
                  (mkHeaders (Some "Bearer s3cret") None None)
                  (mkCall None false (Throws None)) st (mkState ∅ 1) 500
                  "Internal server error" eq_refl)).
Defined.

End SessionLifecycle.

(** ** The key the credential gate reads *)
Section ProvidedKey.
Import Auth.

Lemma starts_with_prefix (p s : string) :
  starts_with p s = true -> s = p ++ drop_chars (String.length p) s.
Proof.
  revert s. induction p as [| a p IH]; intros s H; [reflexivity |].
  destruct s as [| b s]; [discriminate |]. simpl in H |- *.
  destruct (Ascii.eqb_spec a b) as [-> | _]; [| discriminate].
  change (String b s = String b (p ++ drop_chars (String.length p) s)).
  f_equal. apply IH. exact H.
Qed.

(** [replace] keeps a string in which the pattern does not occur. *)
Lemma replace_without_occurrence (pat rep s : string) :
  ~ occurs pat s -> replace pat rep s = s.
Proof.
  induction s as [| c s IH]; intros Hno.
  - destruct pat as [| a pat]; simpl; [| reflexivity].
    exfalso. apply Hno. exists "", "". reflexivity.
  - cbn [replace].
    destruct (starts_with pat (String c s)) eqn:E.
    + exfalso. apply Hno. exists "". eexists. simpl.
      apply starts_with_prefix. exact E.
    + f_equal. apply IH. intros (pre & post & ->). apply Hno.
      exists (String c pre), post. reflexivity.
Qed.

(** X8. The dedicated key header is a fallback only.  When the Authorization
    header is present and not empty once 'Bearer ' is removed, the verdict is
    the one the request would get without its x-mcp-key header; otherwise it
    is the one it would get without its Authorization header.  So a wrong
    bearer key is answered 403 even beside the right x-mcp-key. *)
Theorem key_header_is_fallback_only (serviceKey : string) (h : Headers) :
  validateMcpKey serviceKey h
  = (if truthy_string (option_map (replace "Bearer " "") (authorization h))
     then validateMcpKey serviceKey
            (mkHeaders (authorization h) None (mcp_session_id h))
     else validateMcpKey serviceKey
            (mkHeaders None (x_mcp_key h) (mcp_session_id h)))
  /\ (forall k, k <> "" -> k <> serviceKey ->
        authorization h = Some ("Bearer " ++ k) ->
        validateMcpKey serviceKey h = Rejected 403 "Forbidden").
Proof.
  split.
  - unfold validateMcpKey, providedKey. simpl.
    destruct (truthy_string (option_map (replace "Bearer " "") (authorization h))) eqn:E;
      [rewrite E |]; reflexivity.
  - intros k Hk Hne Ha. unfold validateMcpKey.
    rewrite (providedKey_bearer h k Ha Hk), (truthy_string_Some k Hk). simpl.
    destruct (String.eqb_spec k serviceKey); [contradiction | reflexivity].
Qed.

Lemma key_header_is_fallback_only_witness :
  validateMcpKey "s3cret" (mkHeaders (Some "Bearer guess") (Some "s3cret") None)
    = Rejected 403 "Forbidden"
  /\ validateMcpKey "s3cret" (mkHeaders (Some "Bearer ") (Some "s3cret") None) = Next.
Proof.
  split.
  - apply (proj2 (key_header_is_fallback_only "s3cret"
                    (mkHeaders (Some "Bearer guess") (Some "s3cret") None)) "guess");
      [discriminate | discriminate | reflexivity].
  - rewrite (proj1 (key_header_is_fallback_only "s3cret"
                      (mkHeaders (Some "Bearer ") (Some "s3cret") None))).
    reflexivity.
Defined.

(** X9. The 'Bearer ' prefix is optional: an Authorization header that is the
    service key itself passes the gate, provided the key does not contain
    'Bearer '. *)
Theorem bare_key_accepted (serviceKey : string) (h : Headers) :
  serviceKey <> "" ->
  ~ occurs "Bearer " serviceKey ->
  authorization h = Some serviceKey ->
  validateMcpKey serviceKey h = Next.
Proof.
  intros Hk Hno Ha.
  assert (Hp : providedKey h = Some serviceKey).
  { unfold providedKey. rewrite Ha. unfold option_map.
    rewrite (replace_without_occurrence "Bearer " "" serviceKey Hno).
    rewrite (truthy_string_Some serviceKey Hk). reflexivity. }
  unfold validateMcpKey. rewrite Hp, (truthy_string_Some serviceKey Hk). simpl.
  rewrite String.eqb_refl. reflexivity.
Qed.

Lemma bare_key_accepted_witness :
  validateMcpKey "k1" (mkHeaders (Some "k1") None None) = Next.
Proof.
  apply bare_key_accepted; [discriminate | | reflexivity].
  intros (pre & post & E).
  destruct pre as [| a [| b [| c pre]]]; simpl in E; try discriminate;
    injection E as _ E; try discriminate; injection E as _ E; discriminate.
Defined.

End ProvidedKey.

(* ===================================================================== *)
(** * Further properties of the activity gateway *)
(* ===================================================================== *)
Section GatewayWrites.
Import Gateway.

Lemma apply_updates_identity (activityId : string) (u : ActivityUpdates) (a : DbActivity) :
  activity_id (apply_updates activityId u a) = activity_id a
  /\ lesson_id (apply_updates activityId u a) = lesson_id a
  /\ active (apply_updates activityId u a) = active a
  /\ (activity_id a <> activityId -> apply_updates activityId u a = a).
Proof.
  unfold apply_updates.
  destruct (String.eqb_spec (activity_id a) activityId) as [E | NE]; simpl;
    (split; [reflexivity |]); (split; [reflexivity |]); (split; [reflexivity |]);
    intros H; [contradiction | reflexivity].
Qed.

(** X10. An update stores every field it is given as it is, on the rows of
    the given id: an order_by of 0 is stored as 0 and an empty notes string
    as the empty string, where [create] stores NULL for both; a body_data
    comes back from the column as the value that was given. *)
Theorem update_stores_values_verbatim
    (activityId : string) (u : ActivityUpdates) (table : list DbActivity)
    (a : DbActivity) :
  no_fields u = false ->
  In a (fst (update Executes activityId u table)) ->
  activity_id a = activityId ->
  (forall n, upd_order_by u = Some n -> order_by a = Some n)
  /\ (forall s, upd_notes u = Some s -> notes a = Some s)
  /\ (forall t, upd_title u = Some t -> title a = t)
  /\ (forall t, upd_type u = Some t -> type a = t)
  /\ (forall b, upd_body_data u = Some b ->
        body_data a = Jsonb.stored b /\ same_value (body_data a) b)
  /\ (forall b, upd_is_summative u = Some b -> is_summative a = b).
Proof.
  intros Hf Hin Hid. unfold update in Hin. rewrite Hf in Hin. simpl in Hin.
  apply in_map_iff in Hin as (b & <- & _).
  destruct (apply_updates_identity activityId u b) as (Hi & _).
  rewrite Hi in Hid. unfold apply_updates.
  apply String.eqb_eq in Hid. rewrite Hid. simpl.
  split; [intros x E; rewrite E; reflexivity |].
  split; [intros x E; rewrite E; reflexivity |].
  split; [intros x E; rewrite E; reflexivity |].
  split; [intros x E; rewrite E; reflexivity |].
  split; [| intros x E; rewrite E; reflexivity].
  intros x E. rewrite E. split; [reflexivity | apply stored_same_value].
Qed.

Lemma update_stores_values_verbatim_witness :
  let row := mkActivity "a1" "L1" "Q1" "text" (JObj [("text", JStr "one")])
               (Some 3%Z) (Some true) false (Some "draft") in
  let u := mkUpdates None None None None (Some 0%Z) None (Some "") in
  fst (update Executes "a1" u [row])
    = [mkActivity "a1" "L1" "Q1" "text" (JObj [("text", JStr "one")])
         (Some 0%Z) (Some true) false (Some "")]
  /\ forall a, In a (fst (update Executes "a1" u [row])) -> activity_id a = "a1" ->
       order_by a = Some 0%Z /\ notes a = Some "".
Proof.
  intros row u. split; [reflexivity |].
  intros a Hin Hid.
  destruct (update_stores_values_verbatim "a1" u [row] a eq_refl Hin Hid)
    as (Ho & Hn & _).
  split; [apply Ho | apply Hn]; reflexivity.
Defined.

Lemma lookup_map_list {A B : Type} (f : A -> B) (l : list A) (i : nat) :
  List.map f l !! i = f <$> l !! i.
Proof.
  revert i. induction l as [| a rest IH]; intros [| i]; simpl; try reflexivity.
  apply IH.
Qed.

(** X11. An update never adds, removes or moves a row, never changes a row
    of another id, and never changes the id, the lesson or the [active] flag
    of any row, whatever the store replies. *)
Theorem update_keeps_identity
    (db : DbReply) (activityId : string) (u : ActivityUpdates) (table : list DbActivity) :
  let table' := fst (update db activityId u table) in
  List.length table' = List.length table
  /\ (forall (i : nat) (row : DbActivity), table !! i = Some row ->
        exists row', table' !! i = Some row'
          /\ activity_id row' = activity_id row
          /\ lesson_id row' = lesson_id row
          /\ active row' = active row
          /\ (activity_id row <> activityId -> row' = row)).
Proof.
  unfold update.
  destruct (no_fields u); [| destruct db as [| message]]; simpl.
  - split; [reflexivity |]. intros i row H. exists row. auto.
  - split; [apply length_map |]. intros i row H.
    exists (apply_updates activityId u row).
    split; [rewrite lookup_map_list, H; reflexivity |].
    apply apply_updates_identity.
  - split; [reflexivity |]. intros i row H. exists row. auto.
Qed.

Lemma find_none_by_id (activityId : string) (table : list DbActivity) :
  (forall a, In a table -> activity_id a <> activityId) ->
  List.find (fun a => String.eqb (activity_id a) activityId) table = None.
Proof.
  intros H. induction table as [| a rest IH]; [reflexivity |]. simpl.
  destruct (String.eqb_spec (activity_id a) activityId) as [E | _].
  - exfalso. apply (H a); [left; reflexivity | exact E].
  - apply IH. intros b Hb. apply H. right. exact Hb.
Qed.

(** X12. An update of an id that no row carries changes nothing and returns
    null. *)
Theorem update_unknown_id
    (activityId : string) (u : ActivityUpdates) (table : list DbActivity) :
  (forall a, In a table -> activity_id a <> activityId) ->
  update Executes activityId u table = (table, Returned None).
Proof.
  intros H. unfold update, getById.
  assert (Hmap : List.map (apply_updates activityId u) table = table).
  { rewrite <- (map_id table) at 2. apply map_ext_in. intros a Ha.
    apply apply_updates_identity. apply H. exact Ha. }
  destruct (no_fields u); simpl.
  - rewrite (find_none_by_id activityId table H). reflexivity.
  - rewrite Hmap, (find_none_by_id activityId table H). reflexivity.
Qed.

Lemma update_unknown_id_witness :
  let row := mkActivity "a1" "L1" "Q1" "text" (JObj [("text", JStr "one")])
               (Some 3%Z) (Some true) false None in
  update Executes "a2" (mkUpdates None (Some "New title") None None None None None) [row]
  = ([row], Returned None).
Proof.
  intros row. apply update_unknown_id.
  intros a [<- | []]. discriminate.
Defined.

Lemma row_count_positive (activityId : string) (table : list DbActivity) :
  Nat.ltb 0 (row_count activityId table) = true
  <-> exists a, In a table /\ activity_id a = activityId.
Proof.
  unfold row_count. induction table as [| a rest IH]; simpl.
  - split; [discriminate | intros (a & [] & _)].
  - destruct (String.eqb_spec (activity_id a) activityId) as [E | NE]; simpl.
    + split; [intros _; exists a; auto | reflexivity].
    + rewrite IH. split.
      * intros (b & Hb & Hid). exists b. auto.
      * intros (b & [<- | Hb] & Hid); [contradiction | exists b; auto].
Qed.

(** X13. [delete] returns true exactly when some row carries the id, active
    or not; when none does, the table is left as it was. *)
Theorem delete_reports_existence (activityId : string) (table : list DbActivity) :
  exists b,
    snd (Gateway.delete Executes activityId table) = Returned b
    /\ (b = true <-> exists a, In a table /\ activity_id a = activityId)
    /\ (b = false -> fst (Gateway.delete Executes activityId table) = table).
Proof.
  exists (Nat.ltb 0 (row_count activityId table)). simpl.
  split; [reflexivity |]. split; [apply row_count_positive |].
  intros Hb. rewrite <- (map_id table) at 2. apply map_ext_in. intros a Ha.
  unfold deactivate.
  destruct (String.eqb_spec (activity_id a) activityId) as [E | _]; [| reflexivity].
  exfalso. assert (Ht : Nat.ltb 0 (row_count activityId table) = true).
  { apply row_count_positive. exists a. auto. }
  rewrite Hb in Ht. discriminate.
Qed.

(** X14. Deleting an activity again changes nothing more and gives the same
    answer as the first time: an activity that is already inactive is still
    reported as deleted. *)
Theorem delete_again_same (activityId : string) (table : list DbActivity) :
  Gateway.delete Executes activityId (fst (Gateway.delete Executes activityId table))
  = (fst (Gateway.delete Executes activityId table),
     snd (Gateway.delete Executes activityId table)).
Proof.
  simpl. f_equal.
  - rewrite map_map. apply map_ext. intros a. unfold deactivate.
    destruct (String.eqb (activity_id a) activityId) eqn:E; simpl; rewrite E; reflexivity.
  - f_equal. f_equal. unfold row_count.
    induction table as [| a rest IH]; [reflexivity |]. simpl.
    destruct (deactivate_fields activityId a) as (Hi & _). rewrite Hi.
    destruct (String.eqb (activity_id a) activityId); simpl; rewrite IH; reflexivity.
Qed.

End GatewayWrites.

Section BulkCreate.
Import Gateway.

Lemma bulk_insert_executed (lessonId : string) (table acc : list DbActivity)
    (item : CreateActivityInput * (DbReply * string)) :
  executed item ->
  bulk_insert lessonId (table, Returned acc) item
  = ((table ++ [bulk_row lessonId item])%list,
     Returned (acc ++ [bulk_row lessonId item])%list).
Proof. unfold executed, bulk_insert. intros ->. reflexivity. Qed.

Lemma bulk_fold_executed (lessonId : string)
    (items : list (CreateActivityInput * (DbReply * string)))
    (table acc : list DbActivity) :
  Forall executed items ->
  fold_left (bulk_insert lessonId) items (table, Returned acc)
  = ((table ++ List.map (bulk_row lessonId) items)%list,
     Returned (acc ++ List.map (bulk_row lessonId) items)%list).
Proof.
  revert table acc. induction items as [| item items IH]; intros table acc H.
  - simpl. rewrite !app_nil_r. reflexivity.
  - inversion H as [| ? ? Hitem Hrest]; subst. cbn [fold_left].
    rewrite (bulk_insert_executed lessonId table acc item Hitem).
    rewrite (IH _ _ Hrest). simpl List.map. rewrite <- !app_assoc. reflexivity.
Qed.

Lemma bulk_fold_thrown (lessonId : string)
    (items : list (CreateActivityInput * (DbReply * string)))
    (table : list DbActivity) (message : string) :
  fold_left (bulk_insert lessonId) items (table, Thrown message) = (table, Thrown message).
Proof. induction items as [| item items IH]; [reflexivity | exact IH]. Qed.

(** X15. When the store executes every INSERT, [bulkCreate] appends one row
    per activity, in order, and returns exactly those rows; each carries the
    generated id and, as the same JSON value, the payload of its activity,
    is active, and belongs to the lesson given as first argument, whatever
    lesson the activity itself names. *)
Theorem bulkCreate_appends_in_order (lessonId : string)
    (activities : list (CreateActivityInput * (DbReply * string)))
    (table : list DbActivity) :
  Forall executed activities ->
  exists rows,
    bulkCreate lessonId activities table = ((table ++ rows)%list, Returned rows)
    /\ List.map activity_id rows = List.map (fun item => snd (snd item)) activities
    /\ List.map body_data rows
       = List.map (fun item => Jsonb.stored (input_body_data (fst item))) activities
    /\ Forall2 (fun row item => same_value (body_data row) (input_body_data (fst item)))
         rows activities
    /\ Forall (fun row => lesson_id row = lessonId /\ active row = Some true) rows.
Proof.
  intros H. exists (List.map (bulk_row lessonId) activities).
  split; [exact (bulk_fold_executed lessonId activities table [] H) |].
  rewrite !map_map. split; [reflexivity |]. split; [reflexivity |]. split.
  { clear H. induction activities as [| item rest IH]; simpl; constructor;
      [apply stored_same_value | exact IH]. }
  apply Forall_map, List.Forall_forall. intros item _. split; reflexivity.
Qed.

Lemma bulkCreate_appends_in_order_witness :
  let one := mkInput "ignored" "Q1" "text" (JObj [("text", JStr "one")]) None None None in
  let two := mkInput "L9" "Q2" "text" (JObj [("text", JStr "two")]) (Some 0%Z) None None in
  exists rows,
    bulkCreate "L1" [(one, (Executes, "a1")); (two, (Executes, "a2"))] []
      = (rows, Returned rows)
    /\ List.map activity_id rows = ["a1"; "a2"]
    /\ Forall (fun row => lesson_id row = "L1" /\ active row = Some true) rows.
Proof.
  intros one two.
  destruct (bulkCreate_appends_in_order "L1"
              [(one, (Executes, "a1")); (two, (Executes, "a2"))] [])
    as (rows & Hb & Hids & _ & _ & Hall).
  { repeat constructor. }
  exists rows. split; [exact Hb |]. split; [exact Hids | exact Hall].
Defined.

(** X16. [bulkCreate] is not atomic: when the store raises on one INSERT,
    the rows of the activities before it stay in the table, the activities
    after it are not inserted, and the call throws the store's message. *)
Theorem bulkCreate_keeps_rows_before_failure (lessonId : string)
    (before after : list (CreateActivityInput * (DbReply * string)))
    (input : CreateActivityInput) (message generated_id : string)
    (table : list DbActivity) :
  Forall executed before ->
  bulkCreate lessonId (before ++ (input, (Raises message, generated_id)) :: after) table
  = ((table ++ List.map (bulk_row lessonId) before)%list, Thrown message).
Proof.
  intros H. unfold bulkCreate. rewrite fold_left_app.
  rewrite (bulk_fold_executed lessonId before table [] H). simpl.
  apply bulk_fold_thrown.
Qed.

Lemma bulkCreate_keeps_rows_before_failure_witness :
  let one := mkInput "L1" "Q1" "text" (JObj [("text", JStr "one")]) None None None in
  bulkCreate "L1" [(one, (Executes, "a1")); (one, (Raises "connection lost", "a2"));
                   (one, (Executes, "a3"))] []
  = ([bulk_row "L1" (one, (Executes, "a1"))], Thrown "connection lost").
Proof.
  intros one.
  apply (bulkCreate_keeps_rows_before_failure "L1" [(one, (Executes, "a1"))]
           [(one, (Executes, "a3"))] one "connection lost" "a2" []).
  repeat constructor.
Defined.

(** X17. A created activity is found by its id: when no row of the table
    carries the generated id, [getById] of that id on the table after
    [create] returns the row that [create] returned. *)
Theorem getById_finds_created
    (generated_id : string) (input : CreateActivityInput) (table : list DbActivity) :
  (forall a, In a table -> activity_id a <> generated_id) ->
  exists row,
    create Executes generated_id input table = ((table ++ [row])%list, Returned row)
    /\ getById Executes generated_id (table ++ [row])%list = Returned (Some row).
Proof.
  intros H. exists (inserted_row generated_id input). split; [reflexivity |].
  unfold getById. f_equal.
  induction table as [| a rest IH]; simpl.
  - rewrite String.eqb_refl. reflexivity.
  - destruct (String.eqb_spec (activity_id a) generated_id) as [E | _].
    + exfalso. apply (H a); [left; reflexivity | exact E].
    + apply IH. intros b Hb. apply H. right. exact Hb.
Qed.

Lemma getById_finds_created_witness :
  let old := mkActivity "a1" "L1" "Q1" "text" (JObj [("text", JStr "one")])
               None (Some true) false None in
  let input := mkInput "L1" "Q2" "text" (JObj [("text", JStr "two")]) None None None in
  exists row,
    create Executes "a2" input [old] = ([old; row], Returned row)
    /\ getById Executes "a2" [old; row] = Returned (Some row).
Proof.
  intros old input.
  apply (getById_finds_created "a2" input [old]).
  intros a [<- | []]. discriminate.
Defined.

(** The listing is still free of a deleted activity after a later update of
    it and a later create. *)
Lemma deleted_stays_unlisted_witness :
  let row := mkActivity "a1" "L1" "Q1" "text" (JObj [("text", JStr "one")])
               None (Some true) false None in
  let input := mkInput "L1" "Q2" "text" (JObj [("text", JStr "two")]) None None None in
  let later := [WUpdate Executes "a1"
                  (mkUpdates None (Some "Q1 again") None None None None None);
                WCreate Executes "a2" input] in
  getAll Executes "L1" (run_writes later (fst (Gateway.delete Executes "a1" [row])))
    = Returned [inserted_row "a2" input]
  /\ activity_id (inserted_row "a2" input) <> "a1".
Proof.
  intros row input later. split; [reflexivity |].
  apply (deleted_stays_unlisted "a1" later [row] "L1" [inserted_row "a2" input]).
  - repeat constructor; simpl; intuition discriminate.
  - reflexivity.
  - left. reflexivity.
Defined.

End BulkCreate.

(* ===================================================================== *)
(** * Further properties of the listings *)
(* ===================================================================== *)
Section Sorting.
Import Sql.

Context {A : Type} (leb : A -> A -> bool).

Lemma insert_by_perm (a : A) (rows : list A) :
  Permutation (insert_by leb a rows) (a :: rows).
Proof.
  induction rows as [| b rest IH]; simpl; [reflexivity |].
  destruct (leb a b); [reflexivity |].
  rewrite IH. apply perm_swap.
Qed.

Lemma sort_by_perm (rows : list A) : Permutation (sort_by leb rows) rows.
Proof.
  unfold sort_by. induction rows as [| a rest IH]; simpl; [reflexivity |].
  rewrite insert_by_perm. apply perm_skip. exact IH.
Qed.

Lemma In_sort_by (x : A) (rows : list A) : In x (sort_by leb rows) <-> In x rows.
Proof.
  split; apply Permutation_in; [| symmetry]; apply sort_by_perm.
Qed.

Hypothesis leb_total : forall a b, leb a b = false -> leb b a = true.

Lemma insert_by_sorted (a : A) (rows : list A) :
  Sorted (fun x y => leb x y = true) rows ->
  Sorted (fun x y => leb x y = true) (insert_by leb a rows).
Proof.
  induction rows as [| b rest IH]; intros Hs; simpl.
  - repeat constructor.
  - destruct (leb a b) eqn:E.
    + constructor; [exact Hs | constructor; exact E].
    + inversion Hs as [| ? ? Hrest Hhd]; subst.
      constructor; [apply IH; exact Hrest |].
      destruct rest as [| c rest']; simpl.
      * constructor. apply leb_total. exact E.
      * destruct (leb a c); constructor.
        -- apply leb_total. exact E.
        -- inversion Hhd; subst. assumption.
Qed.

Lemma sort_by_sorted (rows : list A) :
  Sorted (fun x y => leb x y = true) (sort_by leb rows).
Proof.
  unfold sort_by. induction rows as [| a rest IH]; simpl; [constructor |].
  apply insert_by_sorted. exact IH.
Qed.

End Sorting.

Section Orders.

Lemma string_compare_flip (a b : string) :
  String.compare b a = CompOpp (String.compare a b).
Proof. apply String.compare_antisym. Qed.

Lemma string_leb_total (a b : string) : String.leb a b = false -> String.leb b a = true.
Proof.
  intros H. destruct (String.leb_total a b) as [E | E]; [congruence | exact E].
Qed.

Lemma order_by_compare_flip (x y : option Z) :
  Gateway.order_by_compare y x = CompOpp (Gateway.order_by_compare x y).
Proof.
  destruct x as [a |], y as [b |]; simpl; try reflexivity. apply Z.compare_antisym.
Qed.

Lemma row_leb_total (a b : Gateway.DbActivity) :
  Gateway.row_leb a b = false -> Gateway.row_leb b a = true.
Proof.
  unfold Gateway.row_leb.
  rewrite (order_by_compare_flip (Gateway.order_by a) (Gateway.order_by b)).
  destruct (Gateway.order_by_compare (Gateway.order_by a) (Gateway.order_by b)); simpl;
    [apply string_leb_total | discriminate | reflexivity].
Qed.

Lemma unit_leb_total (a b : Units.DbUnit) :
  Units.unit_leb a b = false -> Units.unit_leb b a = true.
Proof.
  unfold Units.unit_leb.
  rewrite (string_compare_flip (Units.subject a) (Units.subject b)).
  destruct (String.compare (Units.subject a) (Units.subject b)); simpl;
    [apply string_leb_total | discriminate | reflexivity].
Qed.

Lemma lesson_leb_total (a b : Lessons.DbLesson) :
  Lessons.lesson_leb a b = false -> Lessons.lesson_leb b a = true.
Proof.
  unfold Lessons.lesson_leb.
  rewrite (string_compare_flip (Lessons.unit_id a) (Lessons.unit_id b)).
  destruct (String.compare (Lessons.unit_id a) (Lessons.unit_id b)); simpl;
    [| discriminate | reflexivity].
  rewrite (Z.compare_antisym (Lessons.order_by a) (Lessons.order_by b)).
  destruct (Z.compare (Lessons.order_by a) (Lessons.order_by b)); simpl;
    [apply string_leb_total | discriminate | reflexivity].
Qed.

Lemma found_leb_total (a b : Lessons.DbLesson) :
  Lessons.found_leb a b = false -> Lessons.found_leb b a = true.
Proof.
  unfold Lessons.found_leb.
  rewrite (Z.compare_antisym (Lessons.order_by a) (Lessons.order_by b)).
  destruct (Z.compare (Lessons.order_by a) (Lessons.order_by b)); simpl;
    [apply string_leb_total | discriminate | reflexivity].
Qed.

Lemma sort_rows_sort_by (rows : list Gateway.DbActivity) :
  Gateway.sort_rows rows = Sql.sort_by Gateway.row_leb rows.
Proof.
  unfold Gateway.sort_rows, Sql.sort_by.
  induction rows as [| a rest IH]; [reflexivity |]. simpl. rewrite IH.
  generalize (fold_right (Sql.insert_by Gateway.row_leb) [] rest). intros l.
  induction l as [| b l IHl]; [reflexivity |]. simpl. rewrite IHl. reflexivity.
Qed.

Lemma Sorted_weaken {A : Type} (P Q : A -> A -> Prop) (l : list A) :
  (forall a b, In a l -> In b l -> P a b -> Q a b) -> Sorted P l -> Sorted Q l.
Proof.
  induction l as [| x l IH]; intros H Hs; [constructor |].
  inversion Hs as [| ? ? Hl Hhd]; subst. constructor.
  - apply IH; [| exact Hl]. intros a b Ha Hb. apply H; right; assumption.
  - destruct Hhd as [| y l' Hxy]; constructor.
    apply H; [left; reflexivity | right; left; reflexivity | exact Hxy].
Qed.

Lemma row_leb_order_by (a b : Gateway.DbActivity) :
  Gateway.row_leb a b = true ->
  Gateway.order_by_compare (Gateway.order_by a) (Gateway.order_by b) <> Gt.
Proof.
  unfold Gateway.row_leb.
  destruct (Gateway.order_by_compare (Gateway.order_by a) (Gateway.order_by b));
    intros Hc; discriminate.
Qed.

Lemma found_leb_order_by (a b : Lessons.DbLesson) :
  Lessons.found_leb a b = true -> (Lessons.order_by a <= Lessons.order_by b)%Z.
Proof.
  unfold Lessons.found_leb.
  destruct (Z.compare_spec (Lessons.order_by a) (Lessons.order_by b));
    intros Hc; try discriminate; lia.
Qed.

Lemma lesson_leb_order_by (a b : Lessons.DbLesson) :
  Lessons.unit_id a = Lessons.unit_id b ->
  Lessons.lesson_leb a b = true -> (Lessons.order_by a <= Lessons.order_by b)%Z.
Proof.
  unfold Lessons.lesson_leb. intros ->.
  assert (E : String.compare (Lessons.unit_id b) (Lessons.unit_id b) = Eq).
  { pose proof (String.compare_antisym (Lessons.unit_id b) (Lessons.unit_id b)) as Hc.
    destruct (String.compare (Lessons.unit_id b) (Lessons.unit_id b));
      [reflexivity | discriminate | discriminate]. }
  rewrite E.
  destruct (Z.compare_spec (Lessons.order_by a) (Lessons.order_by b));
    intros Hc; try discriminate; lia.
Qed.

End Orders.

Section Listings.
Import Gateway.

(** X18. [list_activities] returns exactly the rows of the table that
    belong to the lesson and whose [active] is not false (true or NULL), each
    as often as the table holds it, in ascending order of order_by with the
    rows whose order_by is NULL last; when the store raises, it returns an
    error result that carries the message. *)
Theorem list_activities_ordered_listing (lessonId : string) (table : list DbActivity) :
  (exists rows,
     Tools.list_activities Executes lessonId table
       = Tools.mkResult (Tools.ActivitiesJson rows) false
     /\ (forall a, In a rows <->
           In a table /\ lesson_id a = lessonId /\ active a <> Some false)
     /\ Permutation rows
          (List.filter (fun a => String.eqb (lesson_id a) lessonId
                                 && match active a with
                                    | Some false => false
                                    | _ => true
                                    end) table)
     /\ Sorted (fun a b => match order_by a, order_by b with
                           | Some x, Some y => (x <= y)%Z
                           | Some _, None => True
                           | None, Some _ => False
                           | None, None => True
                           end) rows)
  /\ (forall message,
        Tools.list_activities (Raises message) lessonId table
        = Tools.error_result ("Error listing activities: " ++ message)).
Proof.
  split; [| reflexivity].
  exists (sort_rows (List.filter (selected lessonId) table)).
  split; [reflexivity |]. rewrite sort_rows_sort_by.
  assert (Hsel : forall a, selected lessonId a
                           = String.eqb (lesson_id a) lessonId
                             && match active a with
                                | Some false => false
                                | _ => true
                                end).
  { intros a. unfold selected, coalesce_active.
    destruct (active a) as [[|] |]; reflexivity. }
  split.
  { intros a. rewrite In_sort_by, filter_In, Hsel, andb_true_iff, String.eqb_eq.
    destruct (active a) as [[|] |]; intuition congruence. }
  split.
  { rewrite (List.filter_ext _ _ Hsel). apply sort_by_perm. }
  apply (Sorted_weaken (fun a b => row_leb a b = true)).
  - intros a b _ _ H. apply row_leb_order_by in H.
    unfold order_by_compare in H.
    destruct (order_by a) as [x |], (order_by b) as [y |]; try exact I.
    + destruct (Z.compare_spec x y); try lia. contradiction.
    + contradiction.
  - apply sort_by_sorted. exact row_leb_total.
Qed.

(** X19. [list_units] lists each unit that is not inactive and meets the
    filters exactly once.  An empty subject is no filter at all, while a year
    of 0 is one: it selects the units whose year is 0. *)
Theorem list_units_listing
    (subject : option string) (year : option Z) (table : list Units.DbUnit) :
  exists rows,
    ReadTools.list_units Executes subject year table = ReadTools.Listed rows
    /\ Permutation rows
         (List.filter (Units.selected (Some (Units.mkFilters subject year None))) table)
    /\ (forall u, In u rows <->
          In u table
          /\ Units.active u <> Some false
          /\ (forall s, subject = Some s -> s <> "" -> Units.subject u = s)
          /\ (forall y, year = Some y -> Units.year u = Some y)).
Proof.
  eexists. split; [reflexivity |].
  split; [apply sort_by_perm |].
  intros u. rewrite In_sort_by, filter_In. unfold Units.selected. simpl.
  rewrite !andb_true_iff.
  assert (Hs : (if truthy_string subject
                then match subject with
                     | Some s => String.eqb (Units.subject u) s
                     | None => true
                     end
                else true) = true
               <-> (forall s, subject = Some s -> s <> "" -> Units.subject u = s)).
  { destruct subject as [s |]; simpl.
    - destruct (String.eqb_spec s "") as [-> | Hne]; simpl.
      + split; [intros _ s' E Hs'; injection E as <-; contradiction | reflexivity].
      + rewrite String.eqb_eq. split.
        * intros E s' Es' _. injection Es' as <-. exact E.
        * intros H. apply (H s); [reflexivity | exact Hne].
    - split; [discriminate | reflexivity]. }
  assert (Hy : match year with
               | Some y => match Units.year u with
                           | Some uy => Z.eqb uy y
                           | None => false
                           end
               | None => true
               end = true
               <-> (forall y, year = Some y -> Units.year u = Some y)).
  { destruct year as [y |].
    - destruct (Units.year u) as [uy |].
      + rewrite Z.eqb_eq. split.
        * intros -> y' E. injection E as <-. reflexivity.
        * intros H. specialize (H y eq_refl). injection H as ->. reflexivity.
      + split; [discriminate | intros H; specialize (H y eq_refl); discriminate].
    - split; [discriminate | reflexivity]. }
  assert (Ha : Sql.coalesce_true (Units.active u) = true <-> Units.active u <> Some false).
  { destruct (Units.active u) as [[|] |]; simpl; split; congruence. }
  rewrite Hs, Hy, Ha. tauto.
Qed.

(** X20. [list_lessons_for_unit] lists each lesson of the unit that is not
    inactive exactly once, in ascending order of order_by; with an empty unit
    id it lists the lessons of every unit instead. *)
Theorem list_lessons_for_unit_listing (unit_id : string) (table : list Lessons.DbLesson) :
  exists rows,
    ReadTools.list_lessons_for_unit Executes unit_id table = ReadTools.Listed rows
    /\ Permutation rows
         (List.filter
            (Lessons.selected (Some (Lessons.mkFilters (Some unit_id) None))) table)
    /\ (forall l, In l rows <->
          In l table
          /\ Lessons.active l <> Some false
          /\ (unit_id <> "" -> Lessons.unit_id l = unit_id))
    /\ (unit_id <> "" ->
        Sorted (fun a b => (Lessons.order_by a <= Lessons.order_by b)%Z) rows).
Proof.
  eexists. split; [reflexivity |].
  split; [apply sort_by_perm |].
  assert (Hin : forall l,
            In l (Sql.sort_by Lessons.lesson_leb
                    (List.filter
                       (Lessons.selected (Some (Lessons.mkFilters (Some unit_id) None)))
                       table))
            <-> In l table
                /\ Lessons.active l <> Some false
                /\ (unit_id <> "" -> Lessons.unit_id l = unit_id)).
  { intros l. rewrite In_sort_by, filter_In. unfold Lessons.selected. simpl.
    rewrite andb_true_iff.
    assert (Ha : Sql.coalesce_true (Lessons.active l) = true
                 <-> Lessons.active l <> Some false).
    { destruct (Lessons.active l) as [[|] |]; simpl; split; congruence. }
    rewrite Ha.
    destruct (String.eqb_spec unit_id "") as [-> | Hne]; simpl.
    - intuition congruence.
    - rewrite String.eqb_eq. intuition congruence. }
  split; [exact Hin |].
  intros Hne. apply (Sorted_weaken (fun a b => Lessons.lesson_leb a b = true)).
  - intros a b Ha Hb. apply lesson_leb_order_by.
    apply Hin in Ha as (_ & _ & Ha). apply Hin in Hb as (_ & _ & Hb).
    rewrite (Ha Hne), (Hb Hne). reflexivity.
  - apply sort_by_sorted. exact lesson_leb_total.
Qed.

End Listings.

(* ===================================================================== *)
(** * Further properties of the title search *)
(* ===================================================================== *)
Section TitleSearch.
Import Sql.

Lemma append_nil_l (s : string) : "" ++ s = s.
Proof. reflexivity. Qed.

Lemma append_cons (c : ascii) (a b : string) : String c a ++ b = String c (a ++ b).
Proof. reflexivity. Qed.

Lemma append_nil_r (s : string) : s ++ "" = s.
Proof.
  induction s as [| c s IH]; [reflexivity |]. rewrite append_cons, IH. reflexivity.
Qed.

Lemma append_assoc (a b c : string) : (a ++ b) ++ c = a ++ (b ++ c).
Proof.
  induction a as [| x a IH]; [reflexivity |]. rewrite !append_cons, IH. reflexivity.
Qed.

Lemma any_suffix_spec (f : string -> bool) (s : string) :
  any_suffix f s = true <-> exists pre rest, s = pre ++ rest /\ f rest = true.
Proof.
  induction s as [| c s IH]; cbn [any_suffix]; rewrite orb_true_iff.
  - split.
    + intros [H | H]; [exists "", ""; auto | discriminate].
    + intros (pre & rest & E & H). left.
      destruct pre; [| discriminate].
      rewrite append_nil_l in E. subst. exact H.
  - rewrite IH. split.
    + intros [H | (pre & rest & -> & H)].
      * exists "", (String c s). auto.
      * exists (String c pre), rest. auto.
    + intros (pre & rest & E & H). destruct pre as [| a pre].
      * left. rewrite append_nil_l in E. subst. exact H.
      * right. rewrite append_cons in E. injection E as -> ->. exists pre, rest. auto.
Qed.

Lemma like_percent (p s : string) :
  like (String percent p) s = true
  <-> exists pre rest, s = pre ++ rest /\ like p rest = true.
Proof. apply any_suffix_spec. Qed.

Lemma like_plain_char (c : ascii) (p s : string) :
  Ascii.eqb c percent || Ascii.eqb c underscore || Ascii.eqb c backslash = false ->
  like (String c p) s = true <-> exists s', s = String c s' /\ like p s' = true.
Proof.
  intros H. apply orb_false_iff in H as [H Hb]. apply orb_false_iff in H as [Hp Hu].
  cbn [like]. rewrite Hp, Hu, Hb.
  destruct s as [| x s'].
  - split; [discriminate | intros (? & ? & _); discriminate].
  - rewrite andb_true_iff, Ascii.eqb_eq. split.
    + intros [-> H]. eauto.
    + intros (s'' & E & H). injection E as -> ->. auto.
Qed.

Lemma like_plain_prefix (t p s : string) :
  plain t = true ->
  like (t ++ p) s = true <-> exists rest, s = t ++ rest /\ like p rest = true.
Proof.
  revert s. induction t as [| c t IH]; intros s Ht.
  - rewrite append_nil_l. split.
    + intros H. exists s. auto.
    + intros (rest & E & H). rewrite append_nil_l in E. subst. exact H.
  - cbn [plain] in Ht. apply andb_true_iff in Ht as [Hc Ht]. apply negb_true_iff in Hc.
    rewrite append_cons.
    rewrite (like_plain_char c (t ++ p) s Hc). split.
    + intros (s' & -> & H). apply (IH s' Ht) in H as (rest & -> & H).
      exists rest. auto.
    + intros (rest & -> & H). exists (t ++ rest). split; [reflexivity |].
      apply (IH (t ++ rest) Ht). eauto.
Qed.

Lemma like_only_percent (s : string) : like "%" s = true.
Proof.
  apply (like_percent "" s). exists s, "". split; [| reflexivity].
  symmetry. apply append_nil_r.
Qed.

Lemma lower_app (a b : string) : lower (a ++ b) = lower a ++ lower b.
Proof.
  induction a as [| c a IH]; [reflexivity |].
  rewrite append_cons. cbn [lower]. rewrite append_cons, IH. reflexivity.
Qed.

Lemma lower_ascii_plain (c : ascii) :
  Ascii.eqb c percent || Ascii.eqb c underscore || Ascii.eqb c backslash = false ->
  Ascii.eqb (lower_ascii c) percent || Ascii.eqb (lower_ascii c) underscore
    || Ascii.eqb (lower_ascii c) backslash = false.
Proof.
  destruct c as [[] [] [] [] [] [] [] []]; intros H; try discriminate H; reflexivity.
Qed.

Lemma lower_plain (t : string) : plain t = true -> plain (lower t) = true.
Proof.
  induction t as [| c t IH]; [reflexivity |]. simpl. intros H.
  apply andb_true_iff in H as [Hc Ht]. apply negb_true_iff in Hc.
  rewrite (lower_ascii_plain c Hc). simpl. apply IH. exact Ht.
Qed.

(** The pattern of a title without special characters matches the titles
    that contain it, letter case set aside. *)
Lemma title_pattern_plain (title s : string) :
  plain title = true ->
  like (lower (Lessons.title_pattern title)) (lower s) = true
  <-> occurs (lower title) (lower s).
Proof.
  intros Hp. unfold Lessons.title_pattern, occurs.
  change ("%" ++ title ++ "%") with (String percent (title ++ "%")).
  change (lower (String percent (title ++ "%")))
    with (String percent (lower (title ++ "%"))).
  rewrite lower_app. change (lower "%") with "%".
  rewrite like_percent. split.
  - intros (pre & rest & E & H).
    apply (like_plain_prefix (lower title) "%" rest (lower_plain title Hp)) in H
      as (post & -> & _).
    exists pre, post. exact E.
  - intros (pre & post & E). exists pre, (lower title ++ post). split; [exact E |].
    apply (like_plain_prefix (lower title) "%" _ (lower_plain title Hp)).
    exists post. split; [reflexivity | apply like_only_percent].
Qed.

Lemma scope_spec (unitId : option string) (l : Lessons.DbLesson) :
  (if truthy_string unitId
   then match unitId with
        | Some u => String.eqb (Lessons.unit_id l) u
        | None => true
        end
   else true) = true
  <-> (forall u, unitId = Some u -> u <> "" -> Lessons.unit_id l = u).
Proof.
  destruct unitId as [u |]; simpl.
  - destruct (String.eqb_spec u "") as [-> | Hne]; simpl.
    + split; [intros _ u' E Hu; injection E as <-; contradiction | reflexivity].
    + rewrite String.eqb_eq. split.
      * intros E u' Eu _. injection Eu as <-. exact E.
      * intros H. apply (H u); [reflexivity | exact Hne].
  - split; [discriminate | reflexivity].
Qed.

(** X21. On ASCII text (the searched title and the titles of the table),
    for a title without the characters %, _ and backslash, [find_lesson]
    lists, once each and in ascending order of order_by, the lessons that are
    not inactive, belong to the unit when a non-empty unit id is given, and
    whose title contains the searched title, both with A-Z folded to lower
    case.  In particular an empty title lists every such lesson. *)
Theorem find_lesson_plain_title
    (title : string) (unit_id : option string) (table : list Lessons.DbLesson) :
  plain title = true ->
  ascii_text title = true ->
  forallb (fun l => ascii_text (Lessons.title l)) table = true ->
  exists rows,
    ReadTools.find_lesson Gateway.Executes title unit_id table = ReadTools.Listed rows
    /\ Permutation rows (List.filter (Lessons.found title unit_id) table)
    /\ Sorted (fun a b => (Lessons.order_by a <= Lessons.order_by b)%Z) rows
    /\ (forall l, In l rows <->
          In l table
          /\ Lessons.active l <> Some false
          /\ (forall u, unit_id = Some u -> u <> "" -> Lessons.unit_id l = u)
          /\ occurs (lower title) (lower (Lessons.title l))).
Proof.
  intros Hp _ _. eexists. split; [reflexivity |].
  split; [apply sort_by_perm |].
  split.
  { apply (Sorted_weaken (fun a b => Lessons.found_leb a b = true)).
    - intros a b _ _. apply found_leb_order_by.
    - apply sort_by_sorted. exact found_leb_total. }
  intros l. rewrite In_sort_by, filter_In. unfold Lessons.found.
  rewrite !andb_true_iff, (title_pattern_plain title _ Hp), scope_spec.
  assert (Ha : coalesce_true (Lessons.active l) = true
               <-> Lessons.active l <> Some false).
  { destruct (Lessons.active l) as [[|] |]; simpl; split; congruence. }
  rewrite Ha. tauto.
Qed.

Lemma find_lesson_plain_title_witness :
  let algebra := Lessons.mkLesson "l1" "u1" "Intro to Algebra" (Some true) 1 in
  let geometry := Lessons.mkLesson "l2" "u1" "Geometry" None 2 in
  let retired := Lessons.mkLesson "l3" "u1" "Algebra II" (Some false) 3 in
  ReadTools.find_lesson Gateway.Executes "ALGEBRA" None [retired; geometry; algebra]
    = ReadTools.Listed [algebra]
  /\ occurs (lower "ALGEBRA") (lower (Lessons.title algebra)).
Proof.
  intros algebra geometry retired. split; [reflexivity |].
  destruct (find_lesson_plain_title "ALGEBRA" None [retired; geometry; algebra]
              eq_refl eq_refl eq_refl)
    as (rows & Hrows & _ & _ & Hin).
  injection Hrows as <-.
  apply (Hin algebra). left. reflexivity.
Defined.

(** X22. A percent sign in the searched title is not taken literally: on
    ASCII text, for [a] and [b] without special characters, the title [a%b]
    finds the lessons whose title contains [a] and, somewhere after it, [b]
    (with A-Z folded to lower case), whether or not a percent sign stands
    between them. *)
Theorem find_lesson_percent_is_wildcard
    (a b : string) (unit_id : option string) (table : list Lessons.DbLesson)
    (l : Lessons.DbLesson) :
  plain a = true ->
  plain b = true ->
  ascii_text a = true ->
  ascii_text b = true ->
  forallb (fun l => ascii_text (Lessons.title l)) table = true ->
  forall rows,
    ReadTools.find_lesson Gateway.Executes (a ++ "%" ++ b) unit_id table
      = ReadTools.Listed rows ->
    (In l rows <->
       In l table
       /\ Lessons.active l <> Some false
       /\ (forall u, unit_id = Some u -> u <> "" -> Lessons.unit_id l = u)
       /\ exists pre mid post,
            lower (Lessons.title l) = pre ++ lower a ++ mid ++ lower b ++ post).
Proof.
  intros Ha Hb _ _ _ rows Hrows. injection Hrows as <-.
  rewrite In_sort_by, filter_In. unfold Lessons.found.
  rewrite !andb_true_iff, scope_spec.
  assert (Hact : coalesce_true (Lessons.active l) = true
                 <-> Lessons.active l <> Some false).
  { destruct (Lessons.active l) as [[|] |]; simpl; split; congruence. }
  rewrite Hact.
  assert (Hlike :
    like (lower (Lessons.title_pattern (a ++ "%" ++ b))) (lower (Lessons.title l)) = true
    <-> exists pre mid post,
          lower (Lessons.title l) = pre ++ lower a ++ mid ++ lower b ++ post).
  { unfold Lessons.title_pattern.
    change ("%" ++ (a ++ "%" ++ b) ++ "%")
      with (String percent ((a ++ String percent b) ++ "%")).
    change (lower (String percent ((a ++ String percent b) ++ "%")))
      with (String percent (lower ((a ++ String percent b) ++ "%"))).
    rewrite !lower_app.
    change (lower (String percent b)) with (String percent (lower b)).
    change (lower "%") with "%".
    rewrite like_percent. split.
    - intros (pre & rest & E & H).
      assert (Hassoc : (lower a ++ String percent (lower b)) ++ "%"
                       = lower a ++ String percent (lower b ++ "%")).
      { rewrite append_assoc, append_cons. reflexivity. }
      rewrite Hassoc in H.
      apply (like_plain_prefix (lower a) _ rest (lower_plain a Ha)) in H
        as (rest1 & -> & H).
      apply like_percent in H as (mid & rest2 & -> & H).
      apply (like_plain_prefix (lower b) "%" rest2 (lower_plain b Hb)) in H
        as (post & -> & _).
      exists pre, mid, post. exact E.
    - intros (pre & mid & post & E).
      exists pre, (lower a ++ mid ++ lower b ++ post). split; [exact E |].
      assert (Hassoc : (lower a ++ String percent (lower b)) ++ "%"
                       = lower a ++ String percent (lower b ++ "%")).
      { rewrite append_assoc, append_cons. reflexivity. }
      rewrite Hassoc.
      apply (like_plain_prefix (lower a) _ _ (lower_plain a Ha)).
      exists (mid ++ lower b ++ post). split; [reflexivity |].
      apply like_percent. exists mid, (lower b ++ post). split; [reflexivity |].
      apply (like_plain_prefix (lower b) "%" _ (lower_plain b Hb)).
      exists post. split; [reflexivity | apply like_only_percent]. }
  rewrite Hlike. tauto.
Qed.

Lemma find_lesson_percent_is_wildcard_witness :
  let algebra := Lessons.mkLesson "l1" "u1" "Intro to Algebra" (Some true) 1 in
  ReadTools.find_lesson Gateway.Executes "in%al" None [algebra] = ReadTools.Listed [algebra]
  /\ exists pre mid post,
       lower (Lessons.title algebra) = pre ++ lower "in" ++ mid ++ lower "al" ++ post.
Proof.
  intros algebra. split; [reflexivity |].
  apply (proj1 (find_lesson_percent_is_wildcard "in" "al" None [algebra] algebra
                  eq_refl eq_refl eq_refl eq_refl eq_refl [algebra] eq_refl)).
  left. reflexivity.
Defined.

End TitleSearch.

(* ===================================================================== *)
(** * Further properties of the activity statistics *)
(* ===================================================================== *)
Section Statistics.
Import Gateway Stats.











End Statistics.

(* ===================================================================== *)
(** * Further properties of body_data validation *)
(* ===================================================================== *)
Section OtherKinds.

Lemma validate_short_text_success (payload : Json) :
  validateBodyData "short-text-question" payload = Success
  <-> status (ShortTextBodySchema (Some payload)) = Valid.
Proof.
  rewrite <- safeParse_success. unfold validateBodyData. simpl.
  destruct (safeParse ShortTextBodySchema payload); split; intros;
    try reflexivity; discriminate.
Qed.

Lemma validate_text_success (payload : Json) :
  validateBodyData "text" payload = Success
  <-> status (TextBodySchema (Some payload)) = Valid.
Proof.
  rewrite <- safeParse_success. unfold validateBodyData. simpl.
  destruct (safeParse TextBodySchema payload); split; intros;
    try reflexivity; discriminate.
Qed.

(** X24. A short-text payload is accepted exactly when it is an object whose
    question and modelAnswer are non-empty strings; its other properties play
    no part. *)
Theorem validate_short_text_accepts_iff (payload : Json) :
  validateBodyData "short-text-question" payload = Success
  <-> (exists fields, payload = JObj fields)
      /\ (exists q, get "question" payload = Some (JStr q) /\ (1 <= String.length q)%nat)
      /\ (exists a, get "modelAnswer" payload = Some (JStr a)
                    /\ (1 <= String.length a)%nat).
Proof.
  rewrite validate_short_text_success.
  unfold ShortTextBodySchema, passthrough. rewrite z_object_valid. split.
  - intros (fields & E & H). injection E as ->.
    repeat match goal with H : Forall _ (_ :: _) |- _ => inversion H; clear H; subst end.
    simpl in *.
    split; [eauto |].
    split; eapply (proj1 (string_min1_valid _ _)); eassumption.
  - intros ((fields & ->) & Hq & Ha). exists fields. split; [reflexivity |].
    simpl in Hq, Ha. repeat constructor; simpl;
      apply (proj2 (string_min1_valid _ _)); assumption.
Qed.

(** X25. A text payload is accepted exactly when it is an object whose text
    is a non-empty string; a text of blanks only is accepted. *)
Theorem validate_text_accepts_iff (payload : Json) :
  (validateBodyData "text" payload = Success
   <-> (exists fields, payload = JObj fields)
       /\ (exists t, get "text" payload = Some (JStr t) /\ (1 <= String.length t)%nat))
  /\ validateBodyData "text" (JObj [("text", JStr "   ")]) = Success.
Proof.
  split; [| reflexivity].
  rewrite validate_text_success.
  unfold TextBodySchema. rewrite z_object_valid. split.
  - intros (fields & E & H). injection E as ->.
    repeat match goal with H : Forall _ (_ :: _) |- _ => inversion H; clear H; subst end.
    simpl in *.
    split; [eauto |]. eapply (proj1 (string_min1_valid _ _)); eassumption.
  - intros ((fields & ->) & Ht). exists fields. split; [reflexivity |].
    simpl in Ht. repeat constructor; simpl.
    apply (proj2 (string_min1_valid _ _)); assumption.
Qed.

Lemma lookup_field_skip (k key : string) (v : Json) (fields : list (string * Json)) :
  k <> key -> lookup_field key ((k, v) :: fields) = lookup_field key fields.
Proof.
  intros H. simpl. destruct (String.eqb_spec k key); [contradiction | reflexivity].
Qed.

(** X26. A property whose name no schema reads does not change the verdict
    of [validateBodyData], for any kind: the payload with the property in
    front gets the result of the payload without it. *)
Theorem unread_property_ignored
    (kind k : string) (v : Json) (fields : list (string * Json)) :
  ~ In k schema_keys ->
  validateBodyData kind (JObj ((k, v) :: fields)) = validateBodyData kind (JObj fields).
Proof.
  intros Hk.
  assert (Hskip : forall key, In key schema_keys ->
             lookup_field key ((k, v) :: fields) = lookup_field key fields).
  { intros key Hin. apply lookup_field_skip. intros ->. exact (Hk Hin). }
  assert (Hmcq : McqBodySchema (Some (JObj ((k, v) :: fields)))
                 = McqBodySchema (Some (JObj fields))).
  { unfold McqBodySchema, refine, z_object, correct_option_among, get.
    cbn [List.map fst snd].
    rewrite !(Hskip "question"), !(Hskip "imageFile"), !(Hskip "imageUrl"),
      !(Hskip "imageAlt"), !(Hskip "options"), !(Hskip "correctOptionId")
      by (unfold schema_keys; simpl; tauto).
    reflexivity. }
  assert (Hshort : ShortTextBodySchema (Some (JObj ((k, v) :: fields)))
                   = ShortTextBodySchema (Some (JObj fields))).
  { unfold ShortTextBodySchema, passthrough, z_object. cbn [List.map fst snd].
    rewrite !(Hskip "question"), !(Hskip "modelAnswer")
      by (unfold schema_keys; simpl; tauto).
    reflexivity. }
  assert (Htext : TextBodySchema (Some (JObj ((k, v) :: fields)))
                  = TextBodySchema (Some (JObj fields))).
  { unfold TextBodySchema, z_object. cbn [List.map fst snd].
    rewrite !(Hskip "text") by (unfold schema_keys; simpl; tauto).
    reflexivity. }
  unfold validateBodyData, safeParse. rewrite Hmcq, Hshort, Htext. reflexivity.
Qed.

Lemma unread_property_ignored_witness :
  validateBodyData "text" (JObj [("hint", JNum 3); ("text", JStr "read this")])
  = validateBodyData "text" (JObj [("text", JStr "read this")]).
Proof.
  apply unread_property_ignored. unfold schema_keys. simpl.
  intuition discriminate.
Defined.

Lemma merge_informative (a b : ParseReturn) :
  informative a -> informative b -> informative (merge a b).
Proof.
  unfold informative. intros Ha Hb H. simpl in *.
  destruct (status a) eqn:Ea.
  - destruct (status b) eqn:Eb; [contradiction | |];
      intros E; apply app_eq_nil in E as [_ E]; revert E; apply Hb; discriminate.
  - intros E. apply app_eq_nil in E as [E _]. revert E. apply Ha. discriminate.
  - intros E. apply app_eq_nil in E as [E _]. revert E. apply Ha. discriminate.
Qed.

Lemma merge_all_informative (rs : list ParseReturn) :
  Forall informative rs -> informative (merge_all rs).
Proof.
  induction 1 as [| r rs Hr _ IH]; [intros H; contradiction |].
  apply merge_informative; assumption.
Qed.

Lemma run_checks_informative {A : Type} (checks : list (Check A)) (x : A) :
  informative (run_checks checks x).
Proof.
  apply merge_all_informative, Forall_map, List.Forall_forall. intros c _.
  destruct (c x); intros H; [discriminate | contradiction].
Qed.

Lemma z_string_informative (checks : list (Check string)) (v : option Json) :
  informative (z_string checks v).
Proof.
  unfold z_string. destruct v as [[| b | n | s | l | f] |];
    try (intros _; discriminate). apply run_checks_informative.
Qed.

Lemma optional_nullable_informative (inner : Schema) (v : option Json) :
  (forall v', informative (inner v')) -> informative (optional (nullable inner) v).
Proof.
  intros H. unfold optional, nullable.
  destruct v as [[| b | n | s | l | f] |]; try apply H; intros E; contradiction.
Qed.

Lemma under_informative (item : PathItem) (r : ParseReturn) :
  informative r -> informative (under item r).
Proof.
  unfold informative. simpl. intros H Hs E.
  apply (H Hs). destruct (issues r); [reflexivity | discriminate].
Qed.

Lemma parse_items_informative (elem : Schema) (i : nat) (items : list Json) :
  (forall v', informative (elem v')) -> Forall informative (parse_items elem i items).
Proof.
  intros H. revert i. induction items as [| x rest IH]; intros i; simpl; constructor.
  - apply under_informative, H.
  - apply IH.
Qed.

Lemma z_array_informative (elem : Schema) (checks : list (Check (list Json)))
    (v : option Json) :
  (forall v', informative (elem v')) -> informative (z_array elem checks v).
Proof.
  intros H. unfold z_array. destruct v as [[| b | n | s | l | f] |];
    try (intros _; discriminate).
  apply merge_informative; [apply run_checks_informative |].
  apply merge_all_informative, parse_items_informative, H.
Qed.

Lemma z_object_informative (shape : list (string * Schema)) (v : option Json) :
  Forall (fun ks => forall v', informative (snd ks v')) shape ->
  informative (z_object shape v).
Proof.
  intros H. unfold z_object. destruct v as [[| b | n | s | l | f] |];
    try (intros _; discriminate).
  apply merge_all_informative, Forall_map.
  eapply List.Forall_impl; [| exact H]. intros ks Hks. apply under_informative, Hks.
Qed.

Lemma refine_informative (inner : Schema) (check : Json -> bool) (msg : string)
    (v : option Json) :
  informative (inner v) -> informative (refine inner check msg v).
Proof.
  intros H. unfold refine.
  destruct (status (inner v)) eqn:E; try exact H;
    destruct v as [data |]; try exact H;
    destruct (check data); try exact H;
    intros _ E'; simpl in E'; apply app_eq_nil in E' as [_ E']; discriminate.
Qed.

Lemma schemas_informative (v : option Json) :
  informative (McqBodySchema v)
  /\ informative (ShortTextBodySchema v)
  /\ informative (TextBodySchema v).
Proof.
  split; [| split].
  - apply refine_informative, z_object_informative. repeat constructor; simpl; intros v'.
    + apply z_string_informative.
    + apply optional_nullable_informative. apply z_string_informative.
    + apply optional_nullable_informative. apply z_string_informative.
    + apply optional_nullable_informative. apply z_string_informative.
    + apply z_array_informative. intros o.
      apply z_object_informative. repeat constructor; simpl; intros v''.
      * apply z_string_informative.
      * apply z_string_informative.
      * apply optional_nullable_informative. apply z_string_informative.
    + apply z_string_informative.
  - apply z_object_informative. repeat constructor; simpl; intros v';
      apply z_string_informative.
  - apply z_object_informative. repeat constructor; simpl; intros v';
      apply z_string_informative.
Qed.

(** X27. A rejection always says why: the payload is of one of the three
    kinds, the parse of the payload by the schema of its kind raised at least
    one issue, and the reason is the prefix naming the kind followed by the
    messages of the issues of that parse, joined with "; ". *)
Theorem rejection_names_an_issue (kind : string) (payload : Json) (error : string) :
  validateBodyData kind payload = Failure error ->
  exists schema,
    In (kind, schema) body_schemas
    /\ issues (schema (Some payload)) <> []
    /\ error = "Invalid body_data for " ++ kind ++ ": "
               ++ join_issues (issues (schema (Some payload))).
Proof.
  destruct (schemas_informative (Some payload)) as (Hm & Hs & Ht).
  unfold validateBodyData, safeParse, body_schemas.
  destruct (String.eqb_spec kind "multiple-choice-question") as [-> | _].
  { destruct (status (McqBodySchema (Some payload))) eqn:E; intros H;
      try discriminate; injection H as <-;
      (exists McqBodySchema; split; [left; reflexivity |];
       split; [apply Hm; rewrite E; discriminate | reflexivity]). }
  destruct (String.eqb_spec kind "short-text-question") as [-> | _].
  { destruct (status (ShortTextBodySchema (Some payload))) eqn:E; intros H;
      try discriminate; injection H as <-;
      (exists ShortTextBodySchema; split; [right; left; reflexivity |];
       split; [apply Hs; rewrite E; discriminate | reflexivity]). }
  destruct (String.eqb_spec kind "text") as [-> | _]; [| discriminate].
  destruct (status (TextBodySchema (Some payload))) eqn:E; intros H;
    try discriminate; injection H as <-;
    (exists TextBodySchema; split; [right; right; left; reflexivity |];
     split; [apply Ht; rewrite E; discriminate | reflexivity]).
Qed.

Lemma rejection_names_an_issue_witness :
  let payload := JObj [("question", JStr ""); ("modelAnswer", JStr "")] in
  exists schema,
    In ("short-text-question", schema) body_schemas
    /\ issues (schema (Some payload)) <> []
    /\ "Invalid body_data for short-text-question: question is required; modelAnswer is required"
       = "Invalid body_data for " ++ "short-text-question" ++ ": "
         ++ join_issues (issues (schema (Some payload))).
Proof.
  intros payload.
  apply (rejection_names_an_issue "short-text-question" payload).
  reflexivity.
Defined.

End OtherKinds.

(* ===================================================================== *)
(** * Further properties of create_activity *)
(* ===================================================================== *)
Section CreateOutcomes.
Import Gateway Tools.

(** X28. A payload that validation rejects is never persisted: the table
    is left as it was and the call returns an error result, whose text is the
    validation reason itself unless the call is a summative 'text' activity,
    which is answered with the non-scorable reason first. *)
Theorem invalid_payload_never_persisted
    (db : DbReply) (generated_id : string) (args : CreateActivityArgs)
    (table : list DbActivity) (error : string) :
  validateBodyData (arg_type args) (JObj (arg_body_data args)) = Failure error ->
  exists reason,
    create_activity db generated_id args table = (table, error_result reason)
    /\ ((arg_type args = "text" /\ arg_is_summative args = Some true
         /\ reason = non_scorable_reason)
        \/ reason = error).
Proof.
  intros Hv. unfold create_activity. rewrite Hv.
  destruct (String.eqb_spec (arg_type args) "text") as [E | _]; simpl.
  - destruct (arg_is_summative args) as [[|] |]; simpl.
    + exists non_scorable_reason. split; [reflexivity |]. left. auto.
    + exists error. auto.
    + exists error. auto.
  - exists error. auto.
Qed.

Lemma invalid_payload_never_persisted_witness :
  exists reason,
    create_activity Executes "a1"
      (mkArgs "L1" "Quiz" "multiple-choice-question"
         [("question", JStr "2+2?"); ("options", JArr [mcq_option "a" "4"]);
          ("correctOptionId", JStr "a")] None None None) []
    = ([], error_result reason)
    /\ reason = "Invalid body_data for multiple-choice-question: At least 2 options are required".
Proof.
  destruct (invalid_payload_never_persisted Executes "a1"
              (mkArgs "L1" "Quiz" "multiple-choice-question"
                 [("question", JStr "2+2?"); ("options", JArr [mcq_option "a" "4"]);
                  ("correctOptionId", JStr "a")] None None None) []
              "Invalid body_data for multiple-choice-question: At least 2 options are required"
              eq_refl) as (reason & Hc & [(Ht & _) | Hr]).
  - discriminate Ht.
  - exists reason. split; [exact Hc | exact Hr].
Defined.

(** X29. [create_activity] never changes or removes a row that is already
    in the table.  Either it returns an error result and the table is as it
    was, or it returns a success and the table has grown by exactly the row
    it returns, placed last, which carries the generated id, the lesson,
    title and type of the call and, as the same JSON value, its payload, and
    is active. *)
Theorem create_activity_only_appends
    (db : DbReply) (generated_id : string) (args : CreateActivityArgs)
    (table : list DbActivity) :
  let outcome := create_activity db generated_id args table in
  (isError (snd outcome) = true /\ fst outcome = table
   /\ exists text, content (snd outcome) = Message text)
  \/ (isError (snd outcome) = false
      /\ exists row,
           fst outcome = (table ++ [row])%list
           /\ content (snd outcome) = ActivityJson row
           /\ activity_id row = generated_id
           /\ lesson_id row = arg_lesson_id args
           /\ title row = arg_title args
           /\ type row = arg_type args
           /\ body_data row = Jsonb.stored (JObj (arg_body_data args))
           /\ same_value (body_data row) (JObj (arg_body_data args))
           /\ active row = Some true).
Proof.
  unfold create_activity.
  destruct (String.eqb (arg_type args) "text" && truthy_bool (arg_is_summative args)).
  { left. simpl. eauto. }
  destruct (validateBodyData (arg_type args) (JObj (arg_body_data args))).
  2:{ left. simpl. eauto. }
  destruct db as [| message]; cbn [create fst snd isError content].
  - right. split; [reflexivity |]. eexists.
    split; [reflexivity |]. split; [reflexivity |]. split; [reflexivity |].
    split; [reflexivity |]. split; [reflexivity |]. split; [reflexivity |].
    split; [reflexivity |]. split; [| reflexivity].
    apply (stored_same_value (JObj (arg_body_data args))).
  - left. eauto.
Qed.

End CreateOutcomes.
